(** * squaredance: local persistence and validated backup / restore

    A shallow embedding of
      - src/schemas/index.ts      (the zod schemas of a user profile),
      - src/utils/local-storage.ts (the key-value store adapter),
      - src/utils/backup.ts       (the backup codec),
      - src/test/setup.ts         (LocalStorageMock, the Storage the tests run on),
      - src/components/ProfileModal.tsx (validateName, the caller-layer check),
    together with the parts of the platform they call: JavaScript values,
    [JSON.stringify] / [JSON.parse], the zod combinators, the console and the
    Web Storage interface. *)

From Stdlib Require Import ZArith NArith Ascii String List Decimal DecimalString
  DecimalFacts DecimalPos DecimalN.
From stdpp Require Import base option list gmap strings.

Set Warnings "-register-all".
Local Open Scope string_scope.
Local Open Scope list_scope.
Local Open Scope Z_scope.

(** Method chaining, [schema |> z.min 1 |> z.max 20] for
    [schema.min(1).max(20)]. *)
Notation "x |> f" := (f x) (at level 45, left associativity, only parsing).

(** ** JavaScript values *)

(** A JavaScript number as far as this code looks at it: the type test, the
    integer test and comparisons with a constant. [Int z] is the integer [z];
    [Dec c s] is the non-integer [c / 10^s], with [c] not a multiple of ten
    (the form in which [JSON.parse] delivers it). Rounding to a double is
    not modelled, and neither are [NaN] and the infinities, which JSON text
    cannot denote. *)
Inductive number : Type :=
  | Int (z : Z)
  | Dec (coeff : Z) (scale : positive).

(** The values that reach the validators: what [JSON.parse] produces
    (null, booleans, numbers, strings, arrays, objects) plus [undefined]
    and bigints, which [JSON.stringify] drops, respectively refuses. An
    object is the list of its own properties in insertion order. *)
Inductive JSValue : Type :=
  | JSUndefined
  | JSNull
  | JSBoolean (b : bool)
  | JSNumber (n : number)
  | JSBigInt (z : Z)
  | JSString (s : string)
  | JSArray (elements : list JSValue)
  | JSObject (props : list (string * JSValue)).

Module Number.
(** [Number.isInteger(n)]. *)
Definition isInteger (n : number) : bool :=
  match n with Int _ => true | Dec _ _ => false end.

(** [n < k] and [n <= k] for an integer constant [k]. *)
Definition ltb (n : number) (k : Z) : bool :=
  match n with
  | Int z => z <? k
  | Dec c s => c <? k * 10 ^ Z.pos s
  end.

Definition leb (n : number) (k : Z) : bool :=
  match n with
  | Int z => z <=? k
  | Dec c s => c <=? k * 10 ^ Z.pos s
  end.
End Number.

Module Obj.
(** [key in obj], for an own property. *)
Fixpoint has (key : string) (props : list (string * JSValue)) : bool :=
  match props with
  | [] => false
  | (k, _) :: rest => String.eqb k key || has key rest
  end.

(** [obj[key]]: the property's value, or [undefined]. *)
Fixpoint get (key : string) (props : list (string * JSValue)) : JSValue :=
  match props with
  | [] => JSUndefined
  | (k, v) :: rest => if String.eqb k key then v else get key rest
  end.

(** [obj[key] = v]: an existing property keeps its place, a new one goes
    to the end. *)
Fixpoint set (key : string) (v : JSValue) (props : list (string * JSValue))
  : list (string * JSValue) :=
  match props with
  | [] => [(key, v)]
  | (k, w) :: rest =>
      if String.eqb k key then (k, v) :: rest else (k, w) :: set key v rest
  end.
End Obj.

(** ** zod *)

Inductive ZodIssueCode : Type :=
  | invalid_type
  | invalid_string
  | too_small
  | too_big.

Record ZodIssue : Type := mkIssue {
  code : ZodIssueCode;
  path : list string;
}.

Inductive ZodStringCheck : Type :=
  | check_str_min (value : Z)
  | check_str_max (value : Z)
  | check_uuid.

Inductive ZodNumberCheck : Type :=
  | check_int
  | check_num_min (value : Z) (inclusive : bool).

Inductive ZodType : Type :=
  | ZodString (checks : list ZodStringCheck)
  | ZodNumber (checks : list ZodNumberCheck)
  | ZodBoolean
  | ZodObject (shape : list (string * ZodType))
  | ZodOptional (innerType : ZodType)
  | ZodNullable (innerType : ZodType).

(** What a schema's [_parse] hands back: the parsed value, or the issues. *)
Inductive ParseReturn : Type :=
  | OK (value : JSValue)
  | INVALID (issues : list ZodIssue).

(** [safeParse]'s result object, [{ success: true, data }] or
    [{ success: false, error }]. *)
Inductive SafeParseReturn : Type :=
  | SafeParseSuccess (data : JSValue)
  | SafeParseError (error : list ZodIssue).

(** The string formats are regular expressions of the zod release in use,
    which the repository does not pin down in the sources at hand; the
    [uuid] test is therefore a parameter of the development. *)
Class ZodFormats : Type := {
  uuidRegex_test : string -> bool;
}.

Module z.
Section parse.
Context `{ZodFormats}.

Definition string_check (p : list String.string) (s : String.string)
    (c : ZodStringCheck) : list ZodIssue :=
  match c with
  | check_str_min v =>
      if Z.of_nat (String.length s) <? v then [mkIssue too_small p] else []
  | check_str_max v =>
      if v <? Z.of_nat (String.length s) then [mkIssue too_big p] else []
  | check_uuid =>
      if uuidRegex_test s then [] else [mkIssue invalid_string p]
  end.

Definition number_check (p : list String.string) (n : number)
    (c : ZodNumberCheck) : list ZodIssue :=
  match c with
  | check_int =>
      if Number.isInteger n then [] else [mkIssue invalid_type p]
  | check_num_min v inclusive =>
      if (if inclusive then Number.ltb n v else Number.leb n v)
      then [mkIssue too_small p] else []
  end.

Definition finish (input : JSValue) (issues : list ZodIssue) : ParseReturn :=
  match issues with
  | [] => OK input
  | _ => INVALID issues
  end.

(** One property of a [z.object]: parse [data[key]], keep the issues, and
    set the key in the result when the parsed value is defined or the
    key was in the input (unknown keys are never copied: strip mode). *)
Definition merge_pair (key : String.string) (present : bool) (r : ParseReturn)
    (rest : list ZodIssue * list (String.string * JSValue))
  : list ZodIssue * list (String.string * JSValue) :=
  match r with
  | INVALID issues => (issues ++ rest.1, rest.2)
  | OK JSUndefined =>
      (rest.1, if present then (key, JSUndefined) :: rest.2 else rest.2)
  | OK v => (rest.1, (key, v) :: rest.2)
  end.

(** The properties of a [z.object], in the order of the shape. *)
Definition object_pairs (parse : ZodType -> list String.string -> JSValue -> ParseReturn)
    (p : list String.string) (props : list (String.string * JSValue))
  : list (String.string * ZodType) -> list ZodIssue * list (String.string * JSValue) :=
  fix go (shape : list (String.string * ZodType)) :=
    match shape with
    | [] => ([], [])
    | (key, keyValidator) :: shape' =>
        merge_pair key (Obj.has key props)
          (parse keyValidator (p ++ [key]) (Obj.get key props))
          (go shape')
    end.

Fixpoint _parse (t : ZodType) (p : list String.string) (input : JSValue)
  : ParseReturn :=
  match t with
  | ZodString checks =>
      match input with
      | JSString s => finish input (concat (map (string_check p s) checks))
      | _ => INVALID [mkIssue invalid_type p]
      end
  | ZodNumber checks =>
      match input with
      | JSNumber n => finish input (concat (map (number_check p n) checks))
      | _ => INVALID [mkIssue invalid_type p]
      end
  | ZodBoolean =>
      match input with
      | JSBoolean _ => OK input
      | _ => INVALID [mkIssue invalid_type p]
      end
  | ZodObject shape =>
      match input with
      | JSObject props =>
          let pairs := object_pairs _parse p props shape in
          match pairs.1 with
          | [] => OK (JSObject pairs.2)
          | issues => INVALID issues
          end
      | _ => INVALID [mkIssue invalid_type p]
      end
  | ZodOptional inner =>
      match input with
      | JSUndefined => OK JSUndefined
      | _ => _parse inner p input
      end
  | ZodNullable inner =>
      match input with
      | JSNull => OK JSNull
      | _ => _parse inner p input
      end
  end.

(** [schema.safeParse(data)]. *)
Definition safeParse (t : ZodType) (data : JSValue) : SafeParseReturn :=
  match _parse t [] data with
  | OK v => SafeParseSuccess v
  | INVALID issues => SafeParseError issues
  end.
End parse.

(** The builders, named as in zod. *)
Definition string : ZodType := ZodString [].
Definition number : ZodType := ZodNumber [].
Definition boolean : ZodType := ZodBoolean.
Definition object (shape : list (String.string * ZodType)) : ZodType :=
  ZodObject shape.
Definition optional (t : ZodType) : ZodType := ZodOptional t.
Definition nullable (t : ZodType) : ZodType := ZodNullable t.

(** [.min(v)] is a length bound on a string schema and an inclusive lower
    bound on a number schema. *)
Definition min (v : Z) (t : ZodType) : ZodType :=
  match t with
  | ZodString cs => ZodString (cs ++ [check_str_min v])
  | ZodNumber cs => ZodNumber (cs ++ [check_num_min v true])
  | _ => t
  end.
Definition max (v : Z) (t : ZodType) : ZodType :=
  match t with
  | ZodString cs => ZodString (cs ++ [check_str_max v])
  | _ => t
  end.
Definition uuid (t : ZodType) : ZodType :=
  match t with
  | ZodString cs => ZodString (cs ++ [check_uuid])
  | _ => t
  end.
Definition int (t : ZodType) : ZodType :=
  match t with
  | ZodNumber cs => ZodNumber (cs ++ [check_int])
  | _ => t
  end.
(** [.positive()] is the exclusive bound [> 0]. *)
Definition positive (t : ZodType) : ZodType :=
  match t with
  | ZodNumber cs => ZodNumber (cs ++ [check_num_min 0 false])
  | _ => t
  end.
End z.

(** ** src/schemas/index.ts *)

Definition UserStatsSchema : ZodType :=
  z.object [
    ("totalSessions", z.number |> z.int |> z.min 0);
    ("totalCalls", z.number |> z.int |> z.min 0);
    ("successfulSequences", z.number |> z.int |> z.min 0);
    ("failedSequences", z.number |> z.int |> z.min 0)
  ].

Definition UserPreferencesSchema : ZodType :=
  z.object [
    ("autoPlayAnimations", z.boolean |> z.optional);
    ("showFlowHints", z.boolean |> z.optional)
  ].

Definition UserProfileSchema : ZodType :=
  z.object [
    ("id", z.string |> z.uuid);
    ("name", z.string |> z.min 1 |> z.max 20);
    ("createdAt", z.number |> z.int |> z.positive);
    ("stats", UserStatsSchema);
    ("preferences", UserPreferencesSchema |> z.optional)
  ].

(** ** src/types/index.ts *)

Module types.
Record UserStats : Type := {
  totalSessions : number;
  totalCalls : number;
  successfulSequences : number;
  failedSequences : number;
}.

Record UserPreferences : Type := {
  autoPlayAnimations : option bool;
  showFlowHints : option bool;
}.

Record UserProfile : Type := {
  id : string;
  name : string;
  createdAt : number;
  stats : UserStats;
  preferences : option UserPreferences;
}.
End types.

(** An optional property of an object literal: absent when [None]. *)
Definition optional_prop {A} (key : string) (f : A -> JSValue) (o : option A)
  : list (string * JSValue) :=
  match o with
  | Some a => [(key, f a)]
  | None => []
  end.

(** The JavaScript object of a typed value. *)
Definition UserStats_value (s : types.UserStats) : JSValue :=
  JSObject [
    ("totalSessions", JSNumber (types.totalSessions s));
    ("totalCalls", JSNumber (types.totalCalls s));
    ("successfulSequences", JSNumber (types.successfulSequences s));
    ("failedSequences", JSNumber (types.failedSequences s))
  ].

Definition UserPreferences_value (p : types.UserPreferences) : JSValue :=
  JSObject (optional_prop "autoPlayAnimations" JSBoolean (types.autoPlayAnimations p)
            ++ optional_prop "showFlowHints" JSBoolean (types.showFlowHints p)).

Definition UserProfile_value (u : types.UserProfile) : JSValue :=
  JSObject ([
    ("id", JSString (types.id u));
    ("name", JSString (types.name u));
    ("createdAt", JSNumber (types.createdAt u));
    ("stats", UserStats_value (types.stats u))
  ] ++ optional_prop "preferences" UserPreferences_value (types.preferences u)).

(** A valid profile: one the schema accepts. *)
Definition valid_profile `{ZodFormats} (u : types.UserProfile) : Prop :=
  exists data, z.safeParse UserProfileSchema (UserProfile_value u) = SafeParseSuccess data.

(** Every number of the schema is checked to be an integer. *)
Fixpoint int_schema (t : ZodType) : Prop :=
  match t with
  | ZodNumber checks => check_int ∈ checks
  | ZodObject shape =>
      (fix all (sh : list (string * ZodType)) : Prop :=
         match sh with
         | [] => True
         | (_, t') :: sh' => int_schema t' /\ all sh'
         end) shape
  | ZodOptional t' | ZodNullable t' => int_schema t'
  | _ => True
  end.

(** ** Completions: a value, or a thrown error *)

Inductive JSError : Type :=
  | SyntaxError
  | TypeError
  | ZodError (issues : list ZodIssue)
  | DOMException (name : string).

Inductive Completion (A : Type) : Type :=
  | Normal (a : A)
  | Throw (e : JSError).
Arguments Normal {A} a.
Arguments Throw {A} e.

#[global] Instance Completion_ret : MRet Completion := fun A a => Normal a.
#[global] Instance Completion_bind : MBind Completion := fun A B f c =>
  match c with
  | Normal a => f a
  | Throw e => Throw e
  end.

(** [ToBoolean], as applied by [if (x)] and [!x]. *)
Definition ToBoolean (v : JSValue) : bool :=
  match v with
  | JSUndefined | JSNull => false
  | JSBoolean b => b
  | JSNumber (Int 0) | JSBigInt 0 => false
  | JSString s => negb (String.eqb s "")
  | _ => true
  end.

(** [v.key] for the keys read in this code ([user], [name]), none of which
    is a property of a primitive or of an array: reading from [undefined]
    or [null] throws, an object gives its property, anything else gives
    [undefined]. *)
Definition GetV (v : JSValue) (key : string) : Completion JSValue :=
  match v with
  | JSUndefined | JSNull => Throw TypeError
  | JSObject props => Normal (Obj.get key props)
  | _ => Normal JSUndefined
  end.

(** [v?.key]. *)
Definition GetV_optional (v : JSValue) (key : string) : Completion JSValue :=
  match v with
  | JSUndefined | JSNull => Normal JSUndefined
  | _ => GetV v key
  end.

(** ** JSON *)

Module JSON.
Definition hex_digit (n : N) : ascii :=
  ascii_of_N (if (n <? 10)%N then 48 + n else 87 + n).

(** [QuoteJSONString], one code unit. *)
Definition quote_char (c : ascii) : list ascii :=
  let n := N_of_ascii c in
  if Ascii.eqb c "034" then ["092"; "034"]%char
  else if Ascii.eqb c "092" then ["092"; "092"]%char
  else if (n =? 8)%N then ["092"; "b"]%char
  else if (n =? 9)%N then ["092"; "t"]%char
  else if (n =? 10)%N then ["092"; "n"]%char
  else if (n =? 12)%N then ["092"; "f"]%char
  else if (n =? 13)%N then ["092"; "r"]%char
  else if (n <? 32)%N then
    ["092"; "u"; "0"; "0"; hex_digit (n / 16); hex_digit (n mod 16)]%char
  else [c].

Definition quote (s : string) : list ascii :=
  ("034"%char :: flat_map quote_char (list_ascii_of_string s)) ++ ["034"%char].

Fixpoint uint_chars (d : uint) : list ascii :=
  match d with
  | Nil => []
  | D0 d => "0"%char :: uint_chars d
  | D1 d => "1"%char :: uint_chars d
  | D2 d => "2"%char :: uint_chars d
  | D3 d => "3"%char :: uint_chars d
  | D4 d => "4"%char :: uint_chars d
  | D5 d => "5"%char :: uint_chars d
  | D6 d => "6"%char :: uint_chars d
  | D7 d => "7"%char :: uint_chars d
  | D8 d => "8"%char :: uint_chars d
  | D9 d => "9"%char :: uint_chars d
  end.

Definition sign_chars (z : Z) : list ascii :=
  if z <? 0 then ["-"%char] else [].

(** [Number::toString] in positional notation (JavaScript switches to
    exponent notation for very large and very small magnitudes; the text
    denotes the same number). *)
Definition number_chars (n : number) : list ascii :=
  match n with
  | Int z => sign_chars z ++ uint_chars (N.to_uint (Z.abs_N z))
  | Dec c s =>
      let ds := uint_chars (N.to_uint (Z.abs_N c)) in
      let k := Pos.to_nat s in
      let ds := replicate (S k - length ds) "0"%char ++ ds in
      sign_chars c ++ take (length ds - k) ds ++ "."%char :: drop (length ds - k) ds
  end.

Fixpoint join (items : list (list ascii)) : list ascii :=
  match items with
  | [] => []
  | [x] => x
  | x :: rest => x ++ ","%char :: join rest
  end.

(** The elements of an array: [undefined] is written as [null]. *)
Definition serialize_elements (serialize : JSValue -> Completion (option (list ascii)))
  : list JSValue -> Completion (list (list ascii)) :=
  fix go (vs : list JSValue) :=
    match vs with
    | [] => Normal []
    | v :: vs' =>
        o ← serialize v;
        rest ← go vs';
        Normal (default (list_ascii_of_string "null") o :: rest)
    end.

(** The members of an object: a property whose value is [undefined] is
    left out. *)
Definition serialize_members (serialize : JSValue -> Completion (option (list ascii)))
  : list (string * JSValue) -> Completion (list (list ascii)) :=
  fix go (props : list (string * JSValue)) :=
    match props with
    | [] => Normal []
    | (k, v) :: props' =>
        o ← serialize v;
        rest ← go props';
        Normal (match o with
                | None => rest
                | Some t => (quote k ++ ":"%char :: t) :: rest
                end)
    end.

(** [SerializeJSONProperty]: [None] is the [undefined] result. *)
Fixpoint serialize (v : JSValue) : Completion (option (list ascii)) :=
  match v with
  | JSUndefined => Normal None
  | JSNull => Normal (Some (list_ascii_of_string "null"))
  | JSBoolean true => Normal (Some (list_ascii_of_string "true"))
  | JSBoolean false => Normal (Some (list_ascii_of_string "false"))
  | JSNumber n => Normal (Some (number_chars n))
  | JSBigInt _ => Throw TypeError
  | JSString s => Normal (Some (quote s))
  | JSArray elements =>
      items ← serialize_elements serialize elements;
      Normal (Some ("["%char :: join items ++ ["]"%char]))
  | JSObject props =>
      items ← serialize_members serialize props;
      Normal (Some ("{"%char :: join items ++ ["}"%char]))
  end.

(** [JSON.stringify(value)]: a string, [undefined], or a [TypeError]. *)
Definition stringify (v : JSValue) : Completion (option string) :=
  o ← serialize v; Normal (fmap (M:=option) string_of_list_ascii o).

(** *** Parsing *)

Definition is_ws (c : ascii) : bool :=
  let n := N_of_ascii c in
  ((n =? 32) || (n =? 9) || (n =? 10) || (n =? 13))%N.

Fixpoint skip_ws (s : list ascii) : list ascii :=
  match s with
  | c :: r => if is_ws c then skip_ws r else s
  | [] => []
  end.

Fixpoint strip_prefix (lit s : list ascii) : option (list ascii) :=
  match lit, s with
  | [], _ => Some s
  | a :: lit', c :: s' => if Ascii.eqb a c then strip_prefix lit' s' else None
  | _ :: _, [] => None
  end.

Definition digit_of (c : ascii) : option (uint -> uint) :=
  let n := N_of_ascii c in
  if (n =? 48)%N then Some D0 else if (n =? 49)%N then Some D1
  else if (n =? 50)%N then Some D2 else if (n =? 51)%N then Some D3
  else if (n =? 52)%N then Some D4 else if (n =? 53)%N then Some D5
  else if (n =? 54)%N then Some D6 else if (n =? 55)%N then Some D7
  else if (n =? 56)%N then Some D8 else if (n =? 57)%N then Some D9
  else None.

(** The longest run of digits at the head of [s]. *)
Fixpoint read_digits (s : list ascii) : uint * list ascii :=
  match s with
  | c :: r =>
      match digit_of c with
      | Some d => let '(u, r') := read_digits r in (d u, r')
      | None => (Nil, s)
      end
  | [] => (Nil, [])
  end.

(** The number [c / 10^s] in the normal form of [number]. *)
Fixpoint normalize (s : nat) (c : Z) : number :=
  match s with
  | O => Int c
  | S s' => if c mod 10 =? 0 then normalize s' (c / 10) else Dec c (Pos.of_nat s)
  end.

Definition make_number (neg : bool) (digits : uint) (fraction : nat) (exponent : Z)
  : number :=
  let c := Z.of_N (N.of_uint digits) in
  let c := if neg then - c else c in
  let scale := Z.of_nat fraction - exponent in
  if scale <=? 0 then Int (c * 10 ^ (- scale)) else normalize (Z.to_nat scale) c.

Definition read_fraction (s : list ascii) : option (uint * list ascii) :=
  match s with
  | c :: r =>
      if Ascii.eqb c "." then
        match read_digits r with
        | (Nil, _) => None
        | (f, r') => Some (f, r')
        end
      else Some (Nil, s)
  | [] => Some (Nil, s)
  end.

Definition read_exponent (s : list ascii) : option (Z * list ascii) :=
  match s with
  | c :: r =>
      if Ascii.eqb c "e" || Ascii.eqb c "E" then
        let '(neg, r) :=
          match r with
          | c' :: r' =>
              if Ascii.eqb c' "-" then (true, r')
              else if Ascii.eqb c' "+" then (false, r') else (false, r)
          | [] => (false, r)
          end in
        match read_digits r with
        | (Nil, _) => None
        | (e, r') =>
            let e := Z.of_N (N.of_uint e) in
            Some (if neg then - e else e, r')
        end
      else Some (0, s)
  | [] => Some (0, s)
  end.

(** A zero followed by more digits. *)
Definition leading_zero (d : uint) : bool :=
  match d with
  | D0 Nil => false
  | D0 _ => true
  | _ => false
  end.

(** [int frac? exp?], with no leading zero in [int]. *)
Definition read_magnitude (neg : bool) (s : list ascii) : option (number * list ascii) :=
  match read_digits s with
  | (Nil, _) => None
  | (i, s) =>
      if leading_zero i then None
      else
        '(f, s) ← read_fraction s;
        '(e, s) ← read_exponent s;
        Some (make_number neg (Decimal.app i f) (Decimal.nb_digits f) e, s)
  end.

(** A JSON number: an optional minus sign and a magnitude. *)
Definition read_number (s : list ascii) : option (number * list ascii) :=
  match s with
  | c :: r => if Ascii.eqb c "-" then read_magnitude true r else read_magnitude false s
  | [] => None
  end.

Definition hex_value (c : ascii) : option N :=
  let n := N_of_ascii c in
  if (48 <=? n)%N && (n <=? 57)%N then Some (n - 48)%N
  else if (97 <=? n)%N && (n <=? 102)%N then Some (n - 87)%N
  else if (65 <=? n)%N && (n <=? 70)%N then Some (n - 55)%N
  else None.

(** The escape after a backslash. Strings are modelled over the code
    units below 256, so a [\uXXXX] escape above that range is refused. *)
Definition read_escape (s : list ascii) : option (ascii * list ascii) :=
  match s with
  | c :: r =>
      if Ascii.eqb c "034" || Ascii.eqb c "092" || Ascii.eqb c "/" then Some (c, r)
      else if Ascii.eqb c "b" then Some (ascii_of_N 8, r)
      else if Ascii.eqb c "t" then Some (ascii_of_N 9, r)
      else if Ascii.eqb c "n" then Some (ascii_of_N 10, r)
      else if Ascii.eqb c "f" then Some (ascii_of_N 12, r)
      else if Ascii.eqb c "r" then Some (ascii_of_N 13, r)
      else if Ascii.eqb c "u" then
        match r with
        | h1 :: h2 :: h3 :: h4 :: r' =>
            a ← hex_value h1; b ← hex_value h2;
            c ← hex_value h3; d ← hex_value h4;
            if ((a =? 0) && (b =? 0))%N then Some (ascii_of_N (16 * c + d), r')
            else None
        | _ => None
        end
      else None
  | [] => None
  end.

(** The characters of a string literal after its opening quote. The fuel
    is the length of the text, which bounds the number of steps. *)
Fixpoint read_string (fuel : nat) (s : list ascii) : option (list ascii * list ascii) :=
  match fuel with
  | O => None
  | S fuel =>
      match s with
      | [] => None
      | c :: r =>
          if Ascii.eqb c "034" then Some ([], r)
          else if Ascii.eqb c "092" then
            '(a, r') ← read_escape r;
            '(str, r'') ← read_string fuel r';
            Some (a :: str, r'')
          else if (N_of_ascii c <? 32)%N then None
          else
            '(str, r') ← read_string fuel r;
            Some (c :: str, r')
      end
  end.

(** [{ "k": v, "k": w }] yields one property [k], with the later value. *)
Definition object_of (members : list (string * JSValue)) : JSValue :=
  JSObject (fold_left (fun props kv => Obj.set kv.1 kv.2 props) members []).

Fixpoint parse_value (fuel : nat) (s : list ascii) {struct fuel}
  : option (JSValue * list ascii) :=
  match fuel with
  | O => None
  | S fuel =>
      match skip_ws s with
      | [] => None
      | c :: r =>
          if Ascii.eqb c "n" then
            r' ← strip_prefix (list_ascii_of_string "ull") r; Some (JSNull, r')
          else if Ascii.eqb c "t" then
            r' ← strip_prefix (list_ascii_of_string "rue") r; Some (JSBoolean true, r')
          else if Ascii.eqb c "f" then
            r' ← strip_prefix (list_ascii_of_string "alse") r; Some (JSBoolean false, r')
          else if Ascii.eqb c "034" then
            '(str, r') ← read_string (length r) r;
            Some (JSString (string_of_list_ascii str), r')
          else if Ascii.eqb c "[" then
            match skip_ws r with
            | c' :: r' =>
                if Ascii.eqb c' "]" then Some (JSArray [], r')
                else '(vs, r'') ← parse_elements fuel (c' :: r'); Some (JSArray vs, r'')
            | [] => None
            end
          else if Ascii.eqb c "{" then
            match skip_ws r with
            | c' :: r' =>
                if Ascii.eqb c' "}" then Some (JSObject [], r')
                else '(ms, r'') ← parse_members fuel (c' :: r'); Some (object_of ms, r'')
            | [] => None
            end
          else
            '(n, r') ← read_number (c :: r); Some (JSNumber n, r')
      end
  end
with parse_elements (fuel : nat) (s : list ascii) {struct fuel}
  : option (list JSValue * list ascii) :=
  match fuel with
  | O => None
  | S fuel =>
      '(v, r) ← parse_value fuel s;
      match skip_ws r with
      | c :: r' =>
          if Ascii.eqb c "," then
            '(vs, r'') ← parse_elements fuel r'; Some (v :: vs, r'')
          else if Ascii.eqb c "]" then Some ([v], r')
          else None
      | [] => None
      end
  end
with parse_members (fuel : nat) (s : list ascii) {struct fuel}
  : option (list (string * JSValue) * list ascii) :=
  match fuel with
  | O => None
  | S fuel =>
      match skip_ws s with
      | c :: r =>
          if Ascii.eqb c "034" then
            '(k, r1) ← read_string (length r) r;
            match skip_ws r1 with
            | c1 :: r2 =>
                if Ascii.eqb c1 ":" then
                  '(v, r3) ← parse_value fuel r2;
                  match skip_ws r3 with
                  | c3 :: r4 =>
                      if Ascii.eqb c3 "," then
                        '(ms, r5) ← parse_members fuel r4;
                        Some ((string_of_list_ascii k, v) :: ms, r5)
                      else if Ascii.eqb c3 "}" then
                        Some ([(string_of_list_ascii k, v)], r4)
                      else None
                  | [] => None
                  end
                else None
            | [] => None
            end
          else None
      | [] => None
      end
  end.

(** [JSON.parse(text)]: one value, surrounded by white space only. The
    fuel exceeds the length of the text, hence the nesting of any value
    in it. *)
Definition parse (text : string) : Completion JSValue :=
  let s := list_ascii_of_string text in
  match parse_value (S (length s)) s with
  | Some (v, rest) =>
      match skip_ws rest with
      | [] => Normal v
      | _ => Throw SyntaxError
      end
  | None => Throw SyntaxError
  end.
End JSON.

(** ** [JSON.stringify(value, null, space)] *)

Module JSONGap.
(** The items of an array or object, each on a line of its own at
    [indent], with the closing bracket at [stepback]. *)
Fixpoint join_with (separator : list ascii) (items : list (list ascii)) : list ascii :=
  match items with
  | [] => []
  | [x] => x
  | x :: rest => x ++ separator ++ join_with separator rest
  end.

Definition wrap (opening closing : ascii) (stepback indent : list ascii)
    (items : list (list ascii)) : list ascii :=
  match items with
  | [] => [opening; closing]
  | _ =>
      opening :: "010"%char :: indent
      ++ join_with (","%char :: "010"%char :: indent) items
      ++ "010"%char :: stepback ++ [closing]
  end.

(** The members of an object: [key: value], a property whose value is
    [undefined] being left out. *)
Definition serialize_members (serialize : JSValue -> Completion (option (list ascii)))
  : list (string * JSValue) -> Completion (list (list ascii)) :=
  fix go (props : list (string * JSValue)) :=
    match props with
    | [] => Normal []
    | (k, v) :: props' =>
        o ← serialize v;
        rest ← go props';
        Normal (match o with
                | None => rest
                | Some t => (JSON.quote k ++ ":"%char :: " "%char :: t) :: rest
                end)
    end.

(** [SerializeJSONProperty] with a gap that is not empty. *)
Fixpoint serialize (gap : list ascii) (v : JSValue) (indent : list ascii) {struct v}
  : Completion (option (list ascii)) :=
  match v with
  | JSArray elements =>
      items ← JSON.serialize_elements (fun e => serialize gap e (indent ++ gap)) elements;
      Normal (Some (wrap "[" "]" indent (indent ++ gap) items))
  | JSObject props =>
      items ← serialize_members (fun e => serialize gap e (indent ++ gap)) props;
      Normal (Some (wrap "{" "}" indent (indent ++ gap) items))
  | _ => JSON.serialize v
  end.

(** [JSON.stringify(value, null, space)] for a number [space]: the gap is
    that many spaces, ten at most, and without a gap the text is that of
    [JSON.stringify(value)]. *)
Definition stringify (v : JSValue) (space : nat) : Completion (option string) :=
  match replicate (Nat.min 10 space) " "%char with
  | [] => JSON.stringify v
  | gap =>
      o ← serialize gap v [];
      Normal (fmap (M:=option) string_of_list_ascii o)
  end.
End JSONGap.

(** ** The environment: storage, console, clock *)

(** The Web Storage interface, as far as the code calls it. Any call may
    throw (storage disabled, quota exceeded); a call that throws leaves the
    storage as it was. *)
Class Storage (Σ : Type) : Type := {
  getItem : string -> Σ -> Completion (option string);
  setItem : string -> string -> Σ -> Completion Σ;
  removeItem : string -> Σ -> Completion Σ;
}.

(** src/test/setup.ts: the Storage behind [global.localStorage] in the
    test suite, a plain record of strings. *)
Record LocalStorageMock : Type := mkLocalStorageMock {
  store : gmap string string;
}.

#[global] Instance LocalStorageMock_Storage : Storage LocalStorageMock := {|
  getItem key this := Normal (store this !! key);
  setItem key value this := Normal (mkLocalStorageMock (<[key := value]> (store this)));
  removeItem key this := Normal (mkLocalStorageMock (delete key (store this)));
|}.

Inductive LogLevel : Type := log | error.

Record LogEntry : Type := mkLogEntry {
  level : LogLevel;
  message : string;
}.

Record World (Σ : Type) : Type := mkWorld {
  localStorage : Σ;
  console : list LogEntry;
  clock : Z;
}.
Arguments mkWorld {Σ} _ _ _.
Arguments localStorage {Σ} _.
Arguments console {Σ} _.
Arguments clock {Σ} _.

(** A computation in the environment: it completes normally or throws, and
    leaves a world behind. *)
Definition M (Σ A : Type) : Type := World Σ -> Completion A * World Σ.

#[global] Instance M_ret {Σ} : MRet (M Σ) := fun A a w => (Normal a, w).
#[global] Instance M_bind {Σ} : MBind (M Σ) := fun A B f m w =>
  match m w with
  | (Normal a, w') => f a w'
  | (Throw e, w') => (Throw e, w')
  end.

Section environment.
Context {Σ : Type} `{Storage Σ}.

(** A pure step that may throw. *)
Definition lift {A} (c : Completion A) : M Σ A := fun w => (c, w).

(** [try { body } catch (error) { handler }]. *)
Definition try_catch {A} (body : M Σ A) (handler : JSError -> M Σ A) : M Σ A :=
  fun w =>
    match body w with
    | (Normal a, w') => (Normal a, w')
    | (Throw e, w') => handler e w'
    end.

Definition console_log (msg : string) : M Σ unit :=
  fun w => (Normal tt, mkWorld (localStorage w) (console w ++ [mkLogEntry log msg]) (clock w)).

Definition console_error (msg : string) : M Σ unit :=
  fun w => (Normal tt, mkWorld (localStorage w) (console w ++ [mkLogEntry error msg]) (clock w)).

(** [Date.now()]. *)
Definition Date_now : M Σ Z := fun w => (Normal (clock w), w).

Definition localStorage_getItem (key : string) : M Σ (option string) :=
  fun w => (getItem key (localStorage w), w).

Definition update_storage (c : Completion Σ) : M Σ unit :=
  fun w =>
    match c with
    | Normal σ => (Normal tt, mkWorld σ (console w) (clock w))
    | Throw e => (Throw e, w)
    end.

Definition localStorage_setItem (key value : string) : M Σ unit :=
  fun w => update_storage (setItem key value (localStorage w)) w.

Definition localStorage_removeItem (key : string) : M Σ unit :=
  fun w => update_storage (removeItem key (localStorage w)) w.

(** [array.forEach(f)]. *)
Fixpoint forEach {A} (f : A -> M Σ unit) (l : list A) : M Σ unit :=
  match l with
  | [] => mret tt
  | x :: rest => f x;; forEach f rest
  end.
End environment.

(** The string a [string | undefined] or [string | null] argument is
    converted to where a string is expected. *)
Definition ToString_undefined (o : option string) : string := default "undefined" o.
Definition ToString_null (o : option string) : string := default "null" o.

(** [schema.parse(data)]: the parsed value, or a thrown [ZodError]. *)
Definition z_parse `{ZodFormats} (t : ZodType) (data : JSValue) : Completion JSValue :=
  match z._parse t [] data with
  | OK v => Normal v
  | INVALID issues => Throw (ZodError issues)
  end.

(** ** src/utils/local-storage.ts *)

Definition STORAGE_KEYS : list (string * string) :=
  [("USER_PROFILE", "squaredance-user-profile")].

Section local_storage.
Context {Σ : Type} `{Storage Σ} `{ZodFormats}.

Definition saveToLocalStorage (key : string) (data : JSValue) : M Σ unit :=
  try_catch
    (json ← lift (JSON.stringify data);
     localStorage_setItem key (ToString_undefined json))
    (fun _ => console_error "Failed to save to localStorage:").

(** The result is the loaded value, or [JSNull] for [null]. *)
Definition loadFromLocalStorage (key : string) (schema : ZodType) : M Σ JSValue :=
  try_catch
    (json ← localStorage_getItem key;
     match json with
     | None | Some "" => mret JSNull
     | Some json =>
         data ← lift (JSON.parse json);
         match z.safeParse schema data with
         | SafeParseError _ =>
             console_error "LocalStorage validation failed:";;
             mret JSNull
         | SafeParseSuccess data => mret data
         end
     end)
    (fun _ =>
       console_error "Failed to load from localStorage:";;
       mret JSNull).

(** The value [loadFromLocalStorage] returns, as a function of the storage. *)
Definition loaded (key : string) (schema : ZodType) (σ : Σ) : JSValue :=
  match getItem key σ with
  | Normal (Some json) =>
      match JSON.parse json with
      | Normal data =>
          match z.safeParse schema data with
          | SafeParseSuccess data => data
          | SafeParseError _ => JSNull
          end
      | Throw _ => JSNull
      end
  | _ => JSNull
  end.


Definition removeFromLocalStorage (key : string) : M Σ unit :=
  try_catch
    (localStorage_removeItem key)
    (fun _ => console_error "Failed to remove from localStorage:").

Definition clearAllLocalStorage : M Σ unit :=
  try_catch
    (forEach (fun key => localStorage_removeItem key) STORAGE_KEYS.*2)
    (fun _ => console_error "Failed to clear localStorage:").

Definition isLocalStorageAvailable : M Σ bool :=
  try_catch
    (let test := "__localStorage_test__" in
     localStorage_setItem test test;;
     localStorage_removeItem test;;
     mret true)
    (fun _ => mret false).
End local_storage.

(** ** src/utils/backup.ts *)

Definition BackupDataSchema : ZodType :=
  z.object [
    ("version", z.string);
    ("timestamp", z.number);
    ("user", UserProfileSchema |> z.nullable)
  ].

Section backup.
Context {Σ : Type} `{Storage Σ} `{ZodFormats}.

Definition exportBackup : M Σ JSValue :=
  userJson ← localStorage_getItem "squaredance-user-profile";
  user ← match userJson with
         | None | Some "" => mret JSNull
         | Some userJson => lift (JSON.parse userJson)
         end;
  now ← Date_now;
  mret (JSObject [
    ("version", JSString "1.0.0");
    ("timestamp", JSNumber (Int now));
    ("user", user)
  ]).

(** The result is the validated backup, or [JSNull] for [null]. *)
Definition validateBackup (data : JSValue) : M Σ JSValue :=
  try_catch
    (lift (z_parse BackupDataSchema data))
    (fun _ =>
       console_error "Invalid backup data:";;
       mret JSNull).

Definition importBackup (data : JSValue) : M Σ bool :=
  console_log "[BACKUP] Starting import...";;
  backup ← validateBackup data;
  if negb (ToBoolean backup) then
    console_error "[BACKUP] Validation failed";;
    mret false
  else
    user ← lift (GetV backup "user");
    _ ← lift (GetV_optional user "name");
    console_log "[BACKUP] Backup validated:";;
    try_catch
      ((if ToBoolean user then
          validUser ← lift (z_parse UserProfileSchema user);
          _ ← lift (GetV validUser "name");
          console_log "[BACKUP] Saving user to localStorage:";;
          json ← lift (JSON.stringify validUser);
          localStorage_setItem "squaredance-user-profile" (ToString_undefined json);;
          saved ← localStorage_getItem "squaredance-user-profile";
          parsed ← lift (JSON.parse (ToString_null saved));
          _ ← lift (GetV parsed "name");
          console_log "[BACKUP] Verify saved:"
        else
          console_log "[BACKUP] Removing user from localStorage";;
          localStorage_removeItem "squaredance-user-profile");;
       console_log "[BACKUP] Import complete, ready to reload";;
       mret true)
      (fun _ =>
         console_error "[BACKUP] Failed to import backup:";;
         mret false).
End backup.

(** ** src/components/ProfileModal.tsx: validateName *)

(** The white space of [\s] and of [String.prototype.trim] among the code
    units below 256. *)
Definition is_space (c : ascii) : bool :=
  let n := N_of_ascii c in
  ((9 <=? n) && (n <=? 13) || (n =? 32) || (n =? 160))%N.

(** One character of the class [[a-zA-Z0-9\s_-]]. *)
Definition validChar (c : ascii) : bool :=
  let n := N_of_ascii c in
  ((97 <=? n) && (n <=? 122) || (65 <=? n) && (n <=? 90)
   || (48 <=? n) && (n <=? 57))%N
  || is_space c || Ascii.eqb c "_" || Ascii.eqb c "-".

(** [/^[a-zA-Z0-9\s_-]+$/.test(value)]. *)
Definition validCharPattern_test (value : string) : bool :=
  match list_ascii_of_string value with
  | [] => false
  | cs => forallb validChar cs
  end.

Fixpoint trimStart (cs : list ascii) : list ascii :=
  match cs with
  | c :: rest => if is_space c then trimStart rest else cs
  | [] => []
  end.

(** [value.trim()]. *)
Definition trim (value : string) : string :=
  string_of_list_ascii
    (rev (trimStart (rev (trimStart (list_ascii_of_string value))))).

(** The error message shown to the user, or [None] for [null]. *)
Definition validateName (value : string) : option string :=
  if String.eqb value "" then Some "Name is required"
  else if (20 <? String.length value)%nat then Some "Name must be 20 characters or less"
  else if negb (validCharPattern_test value) then
    Some "Only letters, numbers, spaces, dash (-), and underscore (_) allowed"
  else if negb (String.eqb value (trim value)) then
    Some "Name cannot start or end with spaces"
  else None.

(** ** src/utils/backup.ts: loadBackupFromFile, downloadBackup *)

(** A [File] as far as the code reads it: what the promise of
    [file.text()] settles to, the text or the error it rejects with. *)
Record File : Type := mkFile {
  File_text : Completion string;
}.

Section backup_file.
Context {Σ : Type} `{Storage Σ} `{ZodFormats}.

(** The result is what the returned promise settles to, with [JSNull] for
    [null]; [await] is sequencing. *)
Definition loadBackupFromFile (file : File) : M Σ JSValue :=
  try_catch
    (text ← lift (File_text file);
     data ← lift (JSON.parse text);
     validateBackup data)
    (fun _ =>
       console_error "Failed to read backup file:";;
       mret JSNull).

(** [downloadBackup]. [browser] stands for the lines that hand the text to
    the user as a file (the Blob, the object URL, the link named after the
    time of the backup, and its click); it is given the backup and the
    text, and may throw. *)
Definition downloadBackup (browser : JSValue -> string -> M Σ unit) : M Σ unit :=
  backup ← exportBackup;
  json ← lift (JSONGap.stringify backup 2);
  browser backup (ToString_undefined json).
End backup_file.

(** ** src/hooks/useLocalStorage.ts *)

Section useLocalStorage.
Context {Σ : Type} `{Storage Σ} `{ZodFormats}.

(** The initialiser of [useState], which React runs on the first render. *)
Definition initialState (key : string) (schema : ZodType) (defaultValue : JSValue)
  : M Σ JSValue :=
  loaded ← loadFromLocalStorage key schema;
  mret (match loaded with
        | JSNull => defaultValue
        | _ => loaded
        end).

(** The first render of a component that calls the hook, up to the end of
    its effect: the initial state is computed, then the effect saves it.
    The result is the state. *)
Definition useLocalStorage (key : string) (schema : ZodType) (defaultValue : JSValue)
  : M Σ JSValue :=
  state ← initialState key schema defaultValue;
  saveToLocalStorage key state;;
  mret state.

(** [setValue(value)] with a value that is not the current state (React
    compares with [Object.is], and the callers pass a new object): the
    state becomes [value] and the effect, which depends on the state,
    saves it. The result is the new state. *)
Definition setValue (key : string) (value : JSValue) : M Σ JSValue :=
  saveToLocalStorage key value;;
  mret value.
End useLocalStorage.

(** ** src/App.tsx *)

Section App.
Context {Σ : Type} `{Storage Σ} `{ZodFormats}.

(** The first render of [App]: the result is [savedUser]. *)
Definition App : M Σ JSValue :=
  useLocalStorage "squaredance-user-profile" (UserProfileSchema |> z.nullable) JSNull.

Definition handleCreateProfile (user : JSValue) : M Σ JSValue :=
  setValue "squaredance-user-profile" user.

Definition handleUpdateProfile (user : JSValue) : M Σ JSValue :=
  setValue "squaredance-user-profile" user.
End App.

(** What [App] renders: the welcome screen when [!savedUser], and the main
    screen otherwise. *)
Inductive Screen : Type := WelcomeScreen | MainScreen.

Definition App_screen (savedUser : JSValue) : Screen :=
  if negb (ToBoolean savedUser) then WelcomeScreen else MainScreen.

(** ** src/components: the forms and the restore button *)

(** The property key of an index. *)
Definition index_key (i : nat) : string := NilEmpty.string_of_uint (Nat.to_uint i).

(** The own enumerable properties that [{ ...v }] copies. *)
Definition spread (v : JSValue) : list (string * JSValue) :=
  match v with
  | JSObject props => props
  | JSArray elements => imap (fun i e => (index_key i, e)) elements
  | JSString s =>
      imap (fun i c => (index_key i, JSString (String c ""))) (list_ascii_of_string s)
  | _ => []
  end.

(** What the restore button ends in: no file was chosen, a message is
    shown ([setBackupMessage]), the page reloads, or the user said no. *)
Inductive Restore : Type :=
  | no_file
  | backupMessage (text : string)
  | reload
  | cancelled.

Section components.
Context {Σ : Type} `{Storage Σ} `{ZodFormats}.

(** WelcomeScreen.tsx, [handleSubmit], with [onCreateProfile] bound to
    [handleCreateProfile] as [App] binds it. [uuidv4] is the identifier
    that the call [uuidv4()] draws. The result is the error that
    [setError] records, or the profile that was created. *)
Definition handleSubmit (uuidv4 : string) (name : string) : M Σ (string + JSValue) :=
  match validateName name with
  | Some validationError => mret (inl validationError)
  | None =>
      now ← Date_now;
      let user := JSObject [
        ("id", JSString uuidv4);
        ("name", JSString (trim name));
        ("createdAt", JSNumber (Int now));
        ("stats", JSObject [
           ("totalSessions", JSNumber (Int 0));
           ("totalCalls", JSNumber (Int 0));
           ("successfulSequences", JSNumber (Int 0));
           ("failedSequences", JSNumber (Int 0))
         ]);
        ("preferences", JSObject [
           ("autoPlayAnimations", JSBoolean true);
           ("showFlowHints", JSBoolean true)
         ])
      ] in
      savedUser ← handleCreateProfile user;
      mret (inr savedUser)
  end.

(** ProfileModal.tsx, [handleSave], with [onUpdate] bound to
    [handleUpdateProfile]: the error that [setError] records, or the
    profile [{ ...user, name: name.trim() }] that was saved. *)
Definition handleSave (user : JSValue) (name : string) : M Σ (string + JSValue) :=
  match validateName name with
  | Some validationError => mret (inl validationError)
  | None =>
      savedUser ← handleUpdateProfile
                    (JSObject (Obj.set "name" (JSString (trim name)) (spread user)));
      mret (inr savedUser)
  end.

(** ProfileModal.tsx: the Save button is disabled when
    [!isValid || !hasChanges]. *)
Definition isValid (name : string) : bool :=
  match validateName name with
  | None => true
  | Some _ => false
  end.

Definition hasChanges (user_name name : string) : bool :=
  negb (String.eqb (trim name) user_name).

(** ProfileModal.tsx, [handleDownloadBackup]: the result is the message
    that [setBackupMessage] shows. *)
Definition handleDownloadBackup (browser : JSValue -> string -> M Σ unit) : M Σ string :=
  try_catch
    (downloadBackup browser;;
     mret "Backup downloaded successfully!")
    (fun _ => mret "Failed to download backup").

(** [handleFileChange] of both components, which differ in the [tag] of
    their console lines ([WELCOME] and [MODAL]). [file] is
    [e.target.files?.[0]] and [confirmed] the answer to [window.confirm].
    The timer that clears the message after three seconds and the reset of
    the file input are left out. *)
Definition handleFileChange (tag : string) (file : option File) (confirmed : bool)
  : M Σ Restore :=
  match file with
  | None => mret no_file
  | Some file =>
      try_catch
        (console_log (tag ++ " Loading backup from file...");;
         backup ← loadBackupFromFile file;
         if negb (ToBoolean backup) then
           console_error (tag ++ " Invalid backup file");;
           mret (backupMessage "Invalid backup file")
         else
           console_log (tag ++ " Backup loaded, showing confirmation...");;
           if confirmed then
             console_log (tag ++ " User confirmed, importing backup...");;
             success ← importBackup backup;
             if (success : bool) then
               console_log (tag ++ " Import successful, reloading...");;
               mret reload
             else
               console_error (tag ++ " Import failed");;
               mret (backupMessage "Failed to restore backup")
           else
             console_log (tag ++ " User cancelled restore");;
             mret cancelled)
        (fun _ =>
           console_error (tag ++ " Error during restore:");;
           mret (backupMessage "Error reading backup file"))
  end.
End components.

(** ** Instances used in the examples *)

(** A [uuid] test for the examples: groups of 8, 4, 4, 4 and 12 hexadecimal
    digits, with version digit 1 to 5 and variant digit 8, 9, a or b. *)
Definition is_hex (c : ascii) : bool := bool_decide (is_Some (JSON.hex_value c)).

Definition uuid_groups (s : string) : bool :=
  match list_ascii_of_string s with
  | [a1; a2; a3; a4; a5; a6; a7; a8; h1; b1; b2; b3; b4; h2; ver; c2; c3; c4; h3;
     var; g2; g3; g4; h4; e1; e2; e3; e4; e5; e6; e7; e8; e9; e10; e11; e12] =>
      forallb is_hex [a1; a2; a3; a4; a5; a6; a7; a8; b1; b2; b3; b4; c2; c3; c4;
                      g2; g3; g4; e1; e2; e3; e4; e5; e6; e7; e8; e9; e10; e11; e12]
      && forallb (Ascii.eqb "-") [h1; h2; h3; h4]
      && bool_decide (ver ∈ list_ascii_of_string "12345")
      && bool_decide (var ∈ list_ascii_of_string "89abAB")
  | _ => false
  end.

#[global] Instance zod_uuid_groups : ZodFormats := {| uuidRegex_test := uuid_groups |}.

(** A Storage that refuses every call, as a browser does when storage is
    disabled or its quota is exhausted. *)
Inductive RefusingStorage : Type := refusing.

#[global] Instance RefusingStorage_Storage : Storage RefusingStorage := {|
  getItem _ _ := Throw (DOMException "SecurityError");
  setItem _ _ _ := Throw (DOMException "QuotaExceededError");
  removeItem _ _ := Throw (DOMException "SecurityError");
|}.

(** The profile of the test suites ([mockUser]), with a given name. *)
Definition mockStats : JSValue :=
  JSObject [
    ("totalSessions", JSNumber (Int 5));
    ("totalCalls", JSNumber (Int 100));
    ("successfulSequences", JSNumber (Int 80));
    ("failedSequences", JSNumber (Int 20))
  ].

Definition mockPreferences : JSValue :=
  JSObject [
    ("autoPlayAnimations", JSBoolean true);
    ("showFlowHints", JSBoolean false)
  ].

Definition profile_named (id name : string) : JSValue :=
  JSObject [
    ("id", JSString id);
    ("name", JSString name);
    ("createdAt", JSNumber (Int 1700000000000));
    ("stats", mockStats);
    ("preferences", mockPreferences)
  ].

Definition mockUser : JSValue :=
  profile_named "123e4567-e89b-12d3-a456-426614174000" "TestUser".

Definition backup_of (version : string) (timestamp : number) (user : JSValue) : JSValue :=
  JSObject [
    ("version", JSString version);
    ("timestamp", JSNumber timestamp);
    ("user", user)
  ].

(** The text [JSON.stringify] writes for a value. *)
Definition stored_text (v : JSValue) : string :=
  match JSON.stringify v with
  | Normal (Some text) => text
  | _ => "undefined"
  end.

(** A world on the test suite's storage. *)
Definition mock_world (items : list (string * string)) (now : Z) : World LocalStorageMock :=
  mkWorld (mkLocalStorageMock (list_to_map items)) [] now.

(** ** Well-formed schemas *)

(** The keys of an object literal are distinct; so are those of every
    [z.object] shape. *)
Fixpoint wf_schema (t : ZodType) : Prop :=
  match t with
  | ZodObject shape =>
      NoDup shape.*1
      /\ (fix all (sh : list (string * ZodType)) : Prop :=
            match sh with
            | [] => True
            | (_, t') :: sh' => wf_schema t' /\ all sh'
            end) shape
  | ZodOptional t' | ZodNullable t' => wf_schema t'
  | _ => True
  end.

(** What [merge_pair] adds to the properties of the result. *)
Definition kept (key : string) (present : bool) (v : JSValue) : list (string * JSValue) :=
  match v with
  | JSUndefined => if present then [(key, JSUndefined)] else []
  | _ => [(key, v)]
  end.

(** A whole number from a bound on: [bound <= n], or [bound < n]. *)
Definition whole_from (inclusive : bool) (bound : Z) (n : number) : Prop :=
  match n with
  | Int z => if inclusive then bound <= z else bound < z
  | Dec _ _ => False
  end.

(** ** Reading back what [JSON.stringify] writes *)

(** What may follow a value inside a text: nothing, or a separator. *)
Definition delimited (rest : list ascii) : Prop :=
  match rest with
  | [] => True
  | c :: _ => c = ","%char \/ c = "]"%char \/ c = "}"%char
  end.

(** The characters a JSON value starts with. *)
Definition value_start (c : ascii) : bool :=
  bool_decide (c ∈ "034"%char :: list_ascii_of_string "ntf[{-0123456789").

(** The values [JSON.stringify] can write so that [JSON.parse] reads them
    back: no bigint, whole numbers, distinct keys in every object. *)
Fixpoint serializable (v : JSValue) : Prop :=
  match v with
  | JSNumber n => Number.isInteger n = true
  | JSBigInt _ => False
  | JSArray elements =>
      (fix all (vs : list JSValue) : Prop :=
         match vs with
         | [] => True
         | v :: vs' => serializable v /\ all vs'
         end) elements
  | JSObject props =>
      NoDup props.*1
      /\ (fix all (ps : list (string * JSValue)) : Prop :=
            match ps with
            | [] => True
            | (_, v) :: ps' => serializable v /\ all ps'
            end) props
  | _ => True
  end.

(** The properties that [JSON.stringify] writes. *)
Definition jsonify_members (jsonify : JSValue -> JSValue)
  : list (string * JSValue) -> list (string * JSValue) :=
  fix go (props : list (string * JSValue)) :=
    match props with
    | [] => []
    | (k, JSUndefined) :: props' => go props'
    | (k, v) :: props' => (k, jsonify v) :: go props'
    end.

(** What [JSON.parse] reads from the text of [JSON.stringify]: the value
    itself, but for [undefined], which is left out of an object and is
    [null] in an array. *)
Fixpoint jsonify (v : JSValue) : JSValue :=
  match v with
  | JSUndefined => JSNull
  | JSArray elements => JSArray (map jsonify elements)
  | JSObject props => JSObject (jsonify_members jsonify props)
  | _ => v
  end.

(** A text that starts a JSON value and reads back as [v], whatever
    follows it, given fuel beyond its length. *)
Definition reads_back (text : list ascii) (v : JSValue) : Prop :=
  (exists c r, text = c :: r /\ value_start c = true)
  /\ forall fuel rest,
       (length text < fuel)%nat -> delimited rest ->
       JSON.parse_value fuel (text ++ rest) = Some (v, rest).

(** A member text [ "k":t ] whose value text reads back as [kv.2]. *)
Definition member_reads_back (item : list ascii) (kv : string * JSValue) : Prop :=
  exists t, item = JSON.quote kv.1 ++ ":"%char :: t /\ reads_back t kv.2.

(** No digit follows. *)
Definition next_not_digit (rest : list ascii) : Prop :=
  match rest with
  | [] => True
  | c :: _ => JSON.digit_of c = None
  end.


(** The profile of the test suites, as a typed value. *)
Definition mockProfile : types.UserProfile := {|
  types.id := "123e4567-e89b-12d3-a456-426614174000";
  types.name := "TestUser";
  types.createdAt := Int 1700000000000;
  types.stats := {|
    types.totalSessions := Int 5;
    types.totalCalls := Int 100;
    types.successfulSequences := Int 80;
    types.failedSequences := Int 20;
  |};
  types.preferences := Some {|
    types.autoPlayAnimations := Some true;
    types.showFlowHints := Some false;
  |};
|}.

(** ** Values of JSON, indented texts, and the profiles of the forms *)

(** The values that JSON text denotes: no [undefined] and no bigint at any
    depth. *)
Fixpoint json_value (v : JSValue) : Prop :=
  match v with
  | JSUndefined | JSBigInt _ => False
  | JSArray elements =>
      (fix all (vs : list JSValue) : Prop :=
         match vs with
         | [] => True
         | v :: vs' => json_value v /\ all vs'
         end) elements
  | JSObject props =>
      (fix all (ps : list (string * JSValue)) : Prop :=
         match ps with
         | [] => True
         | (_, v) :: ps' => json_value v /\ all ps'
         end) props
  | _ => True
  end.

(** White space only. *)
Definition blank (ws : list ascii) : Prop := Forall (fun c => JSON.is_ws c = true) ws.

(** What follows a value in an indented text: nothing, a comma or a new
    line. *)
Definition follows (rest : list ascii) : Prop :=
  match rest with
  | [] => True
  | c :: _ => c = ","%char \/ c = "010"%char
  end.

(** An indented text that starts a JSON value and reads back as [v]. *)
Definition reads_back_indented (text : list ascii) (v : JSValue) : Prop :=
  (exists c r, text = c :: r /\ value_start c = true)
  /\ forall fuel rest,
       (length text < fuel)%nat -> follows rest ->
       JSON.parse_value fuel (text ++ rest) = Some (v, rest).

Definition member_reads_back_indented (item : list ascii) (kv : string * JSValue) : Prop :=
  exists t, item = JSON.quote kv.1 ++ ":"%char :: " "%char :: t
            /\ reads_back_indented t kv.2.

(** The profile that [handleSubmit] creates. *)
Definition newProfile (uuidv4 name : string) (now : Z) : types.UserProfile := {|
  types.id := uuidv4;
  types.name := name;
  types.createdAt := Int now;
  types.stats := {|
    types.totalSessions := Int 0;
    types.totalCalls := Int 0;
    types.successfulSequences := Int 0;
    types.failedSequences := Int 0;
  |};
  types.preferences := Some {|
    types.autoPlayAnimations := Some true;
    types.showFlowHints := Some true;
  |};
|}.

(** [{ ...user, name }] on a typed profile. *)
Definition renamed (user : types.UserProfile) (name : string) : types.UserProfile := {|
  types.id := types.id user;
  types.name := name;
  types.createdAt := types.createdAt user;
  types.stats := types.stats user;
  types.preferences := types.preferences user;
|}.

(** * Properties *)

(** ** Running a computation *)

Section run.
Context {Σ : Type} `{Storage Σ}.

Lemma run_bind {A B} (m : M Σ A) (f : A -> M Σ B) w :
  (m ≫= f) w =
  match m w with
  | (Normal a, w') => f a w'
  | (Throw e, w') => (Throw e, w')
  end.
Proof. reflexivity. Qed.

End run.

(** Unfolds the environment's operations in the goal. *)
Ltac run :=
  unfold try_catch, lift, console_log, console_error, Date_now,
    localStorage_getItem, localStorage_setItem, localStorage_removeItem,
    update_storage, mbind, M_bind, mret, M_ret; simpl.

(** ** Schemas: parsing is idempotent *)

Lemma ZodType_ind' (P : ZodType -> Prop)
  (Hstring : forall cs, P (ZodString cs))
  (Hnumber : forall cs, P (ZodNumber cs))
  (Hboolean : P ZodBoolean)
  (Hobject : forall shape, Forall (fun kt => P kt.2) shape -> P (ZodObject shape))
  (Hoptional : forall t, P t -> P (ZodOptional t))
  (Hnullable : forall t, P t -> P (ZodNullable t)) :
  forall t, P t.
Proof.
  fix IH 1. intros [cs | cs | | shape | t | t].
  - apply Hstring.
  - apply Hnumber.
  - apply Hboolean.
  - apply Hobject. induction shape as [| [k t] shape IHshape]; constructor.
    + apply IH.
    + apply IHshape.
  - apply Hoptional, IH.
  - apply Hnullable, IH.
Qed.

Section zod_facts.
Context `{ZodFormats}.

Lemma finish_OK input issues v : z.finish input issues = OK v -> issues = [] /\ v = input.
Proof. destruct issues; simpl; [intros [= <-]; auto | discriminate]. Qed.

Lemma string_check_path p p' s c : z.string_check p s c = [] -> z.string_check p' s c = [].
Proof. destruct c; simpl; repeat case_match; done. Qed.

Lemma number_check_path p p' n c : z.number_check p n c = [] -> z.number_check p' n c = [].
Proof. destruct c; simpl; repeat case_match; done. Qed.

Lemma concat_nil {A} (ls : list (list A)) : concat ls = [] <-> Forall (fun l => l = []) ls.
Proof.
  induction ls as [| l ls IH]; simpl; [split; auto |].
  split.
  - intros [-> Hls]%app_eq_nil. constructor; [done | by apply IH].
  - intros Hall. inversion Hall; subst. simpl. by apply IH.
Qed.

Lemma string_checks_path p p' s cs :
  concat (map (z.string_check p s) cs) = [] -> concat (map (z.string_check p' s) cs) = [].
Proof.
  rewrite !concat_nil, !Forall_map. intros Hall. eapply Forall_impl; [exact Hall |].
  intros c. apply string_check_path.
Qed.

Lemma number_checks_path p p' n cs :
  concat (map (z.number_check p n) cs) = [] -> concat (map (z.number_check p' n) cs) = [].
Proof.
  rewrite !concat_nil, !Forall_map. intros Hall. eapply Forall_impl; [exact Hall |].
  intros c. apply number_check_path.
Qed.

Lemma _parse_object shape p props :
  z._parse (ZodObject shape) p (JSObject props) =
  match (z.object_pairs z._parse p props shape).1 with
  | [] => OK (JSObject (z.object_pairs z._parse p props shape).2)
  | issues => INVALID issues
  end.
Proof. reflexivity. Qed.

Lemma object_pairs_cons parse p props key t shape :
  z.object_pairs parse p props ((key, t) :: shape) =
  z.merge_pair key (Obj.has key props) (parse t (p ++ [key]) (Obj.get key props))
    (z.object_pairs parse p props shape).
Proof. reflexivity. Qed.

(** A rejection carries at least one issue. *)
Lemma _parse_issues_nonempty t p input : z._parse t p input <> INVALID [].
Proof.
  revert p input. induction t as [cs | cs | | shape _ | t IH | t IH] using ZodType_ind';
    intros p input.
  - destruct input; simpl; try discriminate.
    destruct (concat _); simpl; discriminate.
  - destruct input; simpl; try discriminate.
    destruct (concat _); simpl; discriminate.
  - destruct input; simpl; discriminate.
  - destruct input; try (simpl; discriminate).
    rewrite _parse_object. destruct (z.object_pairs _ _ _ _).1; discriminate.
  - destruct input; simpl; solve [discriminate | apply IH].
  - destruct input; simpl; solve [discriminate | apply IH].
Qed.

Lemma merge_pair_OK key present v rest :
  z.merge_pair key present (OK v) rest = (rest.1, kept key present v ++ rest.2).
Proof. destruct v; simpl; try reflexivity. destruct present; reflexivity. Qed.

Lemma merge_pair_nil key present r rest :
  r <> INVALID [] ->
  (z.merge_pair key present r rest).1 = [] ->
  exists v, r = OK v /\ rest.1 = [].
Proof.
  destruct r as [v | issues]; intros Hne.
  - rewrite merge_pair_OK. simpl. eauto.
  - simpl. intros [-> _]%app_eq_nil. done.
Qed.

Lemma kept_keys key present v k : k ∈ (kept key present v).*1 -> k = key.
Proof.
  destruct v; simpl; try (intros ->%list_elem_of_singleton; done).
  destruct present; simpl; [intros ->%list_elem_of_singleton; done | intros []%elem_of_nil].
Qed.

Lemma object_pairs_keys parse p props shape k :
  k ∈ (z.object_pairs parse p props shape).2.*1 -> k ∈ shape.*1.
Proof.
  induction shape as [| [key t] shape IH]; [simpl; done |].
  rewrite object_pairs_cons.
  destruct (parse t (p ++ [key]) (Obj.get key props)) as [v | issues].
  - rewrite merge_pair_OK. simpl. rewrite fmap_app, elem_of_app.
    intros [->%kept_keys | Hk]; [left | right; auto].
  - simpl. right; auto.
Qed.

Lemma Obj_get_app_r k pre props :
  k ∉ pre.*1 -> Obj.get k (pre ++ props) = Obj.get k props.
Proof.
  induction pre as [| [k' v] pre IH]; simpl; [done |].
  intros Hk. apply not_elem_of_cons in Hk as [Hne Hk].
  destruct (String.eqb_spec k' k); [congruence | auto].
Qed.

Lemma Obj_get_absent k props : k ∉ props.*1 -> Obj.get k props = JSUndefined.
Proof.
  induction props as [| [k' v] props IH]; simpl; [done |].
  intros Hk. apply not_elem_of_cons in Hk as [Hne Hk].
  destruct (String.eqb_spec k' k); [congruence | auto].
Qed.

Lemma Obj_get_head k v props : Obj.get k ((k, v) :: props) = v.
Proof. simpl. by rewrite String.eqb_refl. Qed.

Lemma Obj_has_spec k props : Obj.has k props = true <-> k ∈ props.*1.
Proof.
  induction props as [| [k' v] props IH]; simpl.
  - split; [discriminate | intros []%elem_of_nil].
  - rewrite orb_true_iff, IH, elem_of_cons.
    destruct (String.eqb_spec k' k); split; intros [|]; auto; congruence.
Qed.

Lemma Obj_has_true k props : k ∈ props.*1 -> Obj.has k props = true.
Proof. apply Obj_has_spec. Qed.

Lemma Obj_has_false k props : k ∉ props.*1 -> Obj.has k props = false.
Proof. rewrite <- Obj_has_spec. by destruct (Obj.has k props). Qed.

(** Parsing the result of a [z.object] again, property by property. *)
Lemma object_pairs_rebuild shape p p' props pre :
  Forall (fun kt => forall p input v, z._parse kt.2 p input = OK v ->
                    forall p', z._parse kt.2 p' v = OK v) shape ->
  NoDup shape.*1 ->
  (forall k, k ∈ shape.*1 -> k ∉ pre.*1) ->
  (z.object_pairs z._parse p props shape).1 = [] ->
  z.object_pairs z._parse p' (pre ++ (z.object_pairs z._parse p props shape).2) shape
  = ([], (z.object_pairs z._parse p props shape).2).
Proof.
  revert pre. induction shape as [| [key t] shape IH]; intros pre Hidem Hnodup Hpre Hnil.
  { reflexivity. }
  apply Forall_cons in Hidem as [Ht Hidem]. simpl in Ht.
  rewrite fmap_cons in Hnodup. apply NoDup_cons in Hnodup as [Hkey Hnodup].
  rewrite object_pairs_cons in Hnil. rewrite (object_pairs_cons _ p props).
  destruct (merge_pair_nil _ _ _ _ (_parse_issues_nonempty _ _ _) Hnil) as (v & Hv & Hrest).
  rewrite Hv, merge_pair_OK. cbn [fst snd].
  set (out' := (z.object_pairs z._parse p props shape).2) in *.
  set (present := Obj.has key props).
  assert (Hout' : key ∉ out'.*1).
  { intros Hin. apply Hkey. by eapply object_pairs_keys. }
  assert (Hkpre : key ∉ pre.*1) by (apply Hpre; left).
  rewrite object_pairs_cons.
  rewrite (app_assoc pre), (IH (pre ++ kept key present v)); [| done | done | | done].
  2:{ intros k Hk. rewrite fmap_app, not_elem_of_app. split.
      - apply Hpre. by right.
      - intros ->%kept_keys. done. }
  rewrite <- (app_assoc pre), (Obj_get_app_r _ _ _ Hkpre).
  assert (Hget : Obj.get key (kept key present v ++ out') = v).
  { destruct v; try apply Obj_get_head.
    simpl. destruct present; [apply Obj_get_head | by apply Obj_get_absent]. }
  rewrite Hget, (Ht _ _ _ Hv), merge_pair_OK. cbn [fst snd]. f_equal. f_equal.
  destruct v; try reflexivity. simpl. destruct present; simpl.
  - rewrite Obj_has_true; [done |]. rewrite fmap_app, elem_of_app. right. by left.
  - rewrite Obj_has_false; [done |]. rewrite fmap_app, not_elem_of_app. done.
Qed.

Lemma wf_schema_object shape :
  wf_schema (ZodObject shape) <-> NoDup shape.*1 /\ Forall (fun kt => wf_schema kt.2) shape.
Proof.
  simpl. apply and_iff_compat_l.
  induction shape as [| [k t] shape IH]; [split; auto |].
  rewrite Forall_cons, IH. reflexivity.
Qed.

(** A value that a schema has accepted is accepted again, unchanged. *)
Theorem _parse_idempotent t :
  wf_schema t ->
  forall p input v, z._parse t p input = OK v -> forall p', z._parse t p' v = OK v.
Proof.
  induction t as [cs | cs | | shape IH | t IH | t IH] using ZodType_ind'; intros Hwf p input v Hv p'.
  - destruct input; try discriminate. simpl in Hv.
    apply finish_OK in Hv as [Hnil ->]. simpl.
    by rewrite (string_checks_path _ p' _ _ Hnil).
  - destruct input; try discriminate. simpl in Hv.
    apply finish_OK in Hv as [Hnil ->]. simpl.
    by rewrite (number_checks_path _ p' _ _ Hnil).
  - destruct input; try discriminate. simpl in Hv. by injection Hv as <-.
  - apply wf_schema_object in Hwf as [Hnodup Hwf].
    destruct input; try discriminate. rewrite _parse_object in Hv.
    destruct (z.object_pairs z._parse p props shape).1 eqn:Hnil; [| discriminate].
    injection Hv as <-. rewrite _parse_object.
    assert (Hidem : Forall (fun kt => forall p input v, z._parse kt.2 p input = OK v ->
                              forall p', z._parse kt.2 p' v = OK v) shape).
    { rewrite Forall_forall in IH, Hwf |- *. intros kt Hkt. apply IH; auto. }
    pose proof (object_pairs_rebuild shape p p' props [] Hidem Hnodup
                  (fun k _ => not_elem_of_nil k) Hnil) as Hre.
    rewrite app_nil_l in Hre. rewrite Hre. reflexivity.
  - simpl in Hwf, Hv.
    destruct input; simpl in *;
      try (injection Hv as <-; reflexivity);
      specialize (IH Hwf _ _ _ Hv p'); destruct v; auto.
  - simpl in Hwf, Hv.
    destruct input; simpl in *;
      try (injection Hv as <-; reflexivity);
      specialize (IH Hwf _ _ _ Hv p'); destruct v; auto.
Qed.
Lemma wf_UserProfileSchema : wf_schema UserProfileSchema.
Proof. simpl. repeat split; by apply (bool_decide_unpack _). Qed.

Lemma parse_string_OK cs p input v :
  z._parse (ZodString cs) p input = OK v -> exists s, input = JSString s /\ v = JSString s.
Proof.
  destruct input; try discriminate. simpl. intros [_ ->]%finish_OK. eauto.
Qed.

Lemma parse_number_OK cs p input v :
  z._parse (ZodNumber cs) p input = OK v -> exists n, input = JSNumber n /\ v = JSNumber n.
Proof.
  destruct input; try discriminate. simpl. intros [_ ->]%finish_OK. eauto.
Qed.

Lemma parse_object_OK shape p input v :
  z._parse (ZodObject shape) p input = OK v ->
  exists props, input = JSObject props
    /\ (z.object_pairs z._parse p props shape).1 = []
    /\ v = JSObject (z.object_pairs z._parse p props shape).2.
Proof.
  destruct input; try discriminate. rewrite _parse_object.
  destruct (z.object_pairs z._parse p props shape).1 eqn:Hnil; [| discriminate].
  intros [= <-]. eauto.
Qed.

Lemma parse_nullable_OK t p input v :
  z._parse (ZodNullable t) p input = OK v ->
  (input = JSNull /\ v = JSNull) \/ z._parse t p input = OK v.
Proof. destruct input; simpl; auto. intros [= <-]. auto. Qed.

Lemma z_parse_OK t data v : z_parse t data = Normal v <-> z._parse t [] data = OK v.
Proof. unfold z_parse. destruct (z._parse t [] data); split; congruence. Qed.

Lemma safeParse_OK t data v : z.safeParse t data = SafeParseSuccess v <-> z._parse t [] data = OK v.
Proof. unfold z.safeParse. destruct (z._parse t [] data); split; congruence. Qed.
End zod_facts.

(** ** What the schemas accept *)

Section outputs.
Context `{ZodFormats}.

Lemma int_schema_object shape :
  int_schema (ZodObject shape) <-> Forall (fun kt => int_schema kt.2) shape.
Proof.
  simpl. induction shape as [| [k t] shape IH]; [split; auto |].
  rewrite Forall_cons, IH. reflexivity.
Qed.

Lemma serializable_object props :
  serializable (JSObject props)
  <-> NoDup props.*1 /\ Forall (fun kv => serializable kv.2) props.
Proof.
  simpl. apply and_iff_compat_l.
  induction props as [| [k v] props IH]; [split; auto |].
  rewrite Forall_cons, IH. reflexivity.
Qed.

Lemma kept_serializable key present v :
  serializable v -> Forall (fun kv => serializable kv.2) (kept key present v).
Proof.
  intros Hv. destruct v; simpl; try (constructor; [exact Hv | constructor]).
  destruct present; by repeat constructor.
Qed.

Lemma object_pairs_NoDup parse p props shape :
  NoDup shape.*1 -> NoDup (z.object_pairs parse p props shape).2.*1.
Proof.
  induction shape as [| [key t] shape IH]; [simpl; constructor |].
  rewrite fmap_cons. intros [Hkey Hnodup]%NoDup_cons. rewrite object_pairs_cons.
  destruct (parse t (p ++ [key]) (Obj.get key props)) as [v | issues]; [| simpl; auto].
  rewrite merge_pair_OK. cbn [fst snd]. rewrite fmap_app. apply NoDup_app. split_and!.
  - destruct v; simpl; try (apply NoDup_singleton).
    destruct (Obj.has key props); [apply NoDup_singleton | constructor].
  - intros k ->%kept_keys Hin. by apply Hkey, (object_pairs_keys parse p props).
  - auto.
Qed.

(** What a schema with integer numbers accepts can be written as JSON. *)
Theorem _parse_serializable t :
  wf_schema t -> int_schema t ->
  forall p input v, z._parse t p input = OK v -> serializable v.
Proof.
  induction t as [cs | cs | | shape IH | t IH | t IH] using ZodType_ind';
    intros Hwf Hint p input v Hv.
  - by apply parse_string_OK in Hv as (s & _ & ->).
  - destruct input; try discriminate. simpl in Hv.
    apply finish_OK in Hv as [Hnil ->]. simpl.
    rewrite concat_nil, Forall_map, Forall_forall in Hnil.
    specialize (Hnil _ Hint). simpl in Hnil. by destruct (Number.isInteger n).
  - destruct input; try discriminate. by injection Hv as <-.
  - apply wf_schema_object in Hwf as [Hnodup Hwf].
    apply int_schema_object in Hint.
    apply parse_object_OK in Hv as (props & -> & Hnil & ->).
    apply serializable_object. split; [by apply object_pairs_NoDup |].
    clear Hnodup. revert Hnil.
    induction shape as [| [key t] shape IHshape]; [constructor |].
    rewrite object_pairs_cons. intros Hnil.
    apply merge_pair_nil in Hnil as (v & Hv & Hrest); [| apply _parse_issues_nonempty].
    rewrite Hv, merge_pair_OK. cbn [fst snd].
    apply Forall_cons in IH as [IHt IH], Hwf as [Hwft Hwf], Hint as [Hintt Hint].
    apply Forall_app. split; [| by apply IHshape].
    apply kept_serializable. by eapply IHt.
  - simpl in Hwf, Hint. destruct input; simpl in Hv;
      try (injection Hv as <-; exact I); by eapply IH.
  - simpl in Hwf, Hint. destruct input; simpl in Hv;
      try (injection Hv as <-; exact I); by eapply IH.
Qed.

Lemma int_UserProfileSchema : int_schema UserProfileSchema.
Proof. simpl. split_and!; try done; apply list_elem_of_In; simpl; auto. Qed.
End outputs.

Section profiles.
Context `{ZodFormats}.

Lemma object_pairs_step p props key t shape :
  (z.object_pairs z._parse p props ((key, t) :: shape)).1 = [] ->
  exists v,
    z._parse t (p ++ [key]) (Obj.get key props) = OK v
    /\ (z.object_pairs z._parse p props shape).1 = []
    /\ (z.object_pairs z._parse p props ((key, t) :: shape)).2
       = kept key (Obj.has key props) v ++ (z.object_pairs z._parse p props shape).2.
Proof.
  rewrite object_pairs_cons. intros Hnil.
  destruct (merge_pair_nil _ _ _ _ (_parse_issues_nonempty _ _ _) Hnil) as (v & Hv & Hrest).
  exists v. by rewrite Hv, merge_pair_OK.
Qed.

Lemma parse_number_checks cs p n v :
  z._parse (ZodNumber cs) p (JSNumber n) = OK v ->
  v = JSNumber n /\ concat (map (z.number_check p n) cs) = [].
Proof. simpl. by intros [? ->]%finish_OK. Qed.

Lemma parse_int_checks p n v cs :
  z._parse (ZodNumber (check_int :: cs)) p (JSNumber n) = OK v ->
  v = JSNumber n /\ Number.isInteger n = true.
Proof.
  intros [-> Hchecks]%parse_number_checks. split; [done |].
  simpl in Hchecks. by destruct (Number.isInteger n).
Qed.

Lemma parse_optional_undefined t p : z._parse (ZodOptional t) p JSUndefined = OK JSUndefined.
Proof. reflexivity. Qed.

Lemma parse_optional_boolean p b :
  z._parse (ZodOptional ZodBoolean) p (JSBoolean b) = OK (JSBoolean b).
Proof. reflexivity. Qed.

Local Arguments z._parse : simpl never.
Local Arguments z.object_pairs : simpl never.

(** Takes the next property of the shape off the hypothesis [H] and the goal. *)
Ltac next_property H v Hv :=
  apply object_pairs_step in H as (v & Hv & H & ->); simpl in Hv.

Lemma UserStats_value_parse p s v :
  z._parse UserStatsSchema p (UserStats_value s) = OK v ->
  v = UserStats_value s
  /\ Number.isInteger (types.totalSessions s) = true
  /\ Number.isInteger (types.totalCalls s) = true
  /\ Number.isInteger (types.successfulSequences s) = true
  /\ Number.isInteger (types.failedSequences s) = true.
Proof.
  intros (props & [= <-] & Hnil & ->)%parse_object_OK.
  next_property Hnil v1 Hv1. apply parse_int_checks in Hv1 as [-> H1].
  next_property Hnil v2 Hv2. apply parse_int_checks in Hv2 as [-> H2].
  next_property Hnil v3 Hv3. apply parse_int_checks in Hv3 as [-> H3].
  next_property Hnil v4 Hv4. apply parse_int_checks in Hv4 as [-> H4].
  done.
Qed.

Lemma UserPreferences_value_parse p pr v :
  z._parse UserPreferencesSchema p (UserPreferences_value pr) = OK v ->
  v = UserPreferences_value pr.
Proof.
  intros (props & [= <-] & Hnil & ->)%parse_object_OK.
  destruct pr as [[a |] [f |]];
    next_property Hnil v1 Hv1; next_property Hnil v2 Hv2;
    rewrite ?parse_optional_boolean, ?parse_optional_undefined in Hv1, Hv2;
    injection Hv1 as <-; injection Hv2 as <-; reflexivity.
Qed.

Lemma UserProfile_value_parse p u v :
  z._parse UserProfileSchema p (UserProfile_value u) = OK v ->
  v = UserProfile_value u /\ serializable v /\ jsonify v = v.
Proof.
  intros (props & [= <-] & Hnil & ->)%parse_object_OK.
  next_property Hnil v1 Hv1. apply parse_string_OK in Hv1 as (s1 & [= <-] & ->).
  next_property Hnil v2 Hv2. apply parse_string_OK in Hv2 as (s2 & [= <-] & ->).
  next_property Hnil v3 Hv3. apply parse_int_checks in Hv3 as [-> H3].
  next_property Hnil v4 Hv4.
  apply UserStats_value_parse in Hv4 as (-> & Hts & Htc & Hss & Hfs).
  apply object_pairs_step in Hnil as (v5 & Hv5 & Hnil & ->).
  destruct u as [id name createdAt [ts tc ss fs] prefs]. simpl in *.
  assert (Hprefs : v5 = match prefs with
                        | Some pr => UserPreferences_value pr
                        | None => JSUndefined
                        end).
  { destruct prefs as [pr |]; simpl in Hv5.
    - change (z._parse UserPreferencesSchema (p ++ ["preferences"]) (UserPreferences_value pr)
              = OK v5) in Hv5.
      by apply UserPreferences_value_parse in Hv5.
    - change (OK JSUndefined = OK v5) in Hv5. by injection Hv5. }
  subst v5. clear Hv5.
  destruct prefs as [[[a |] [f |]] |]; simpl.
  all: split; [reflexivity |]; split; [| reflexivity].
  all: simpl; split_and!; try done; by apply (bool_decide_unpack _).
Qed.
End profiles.

(** ** Valid profiles, field by field *)

Section valid.
Context `{ZodFormats}.

Lemma parse_whole_from p n inclusive bound :
  z._parse (ZodNumber [check_int; check_num_min bound inclusive]) p (JSNumber n)
  = OK (JSNumber n) <-> whole_from inclusive bound n.
Proof.
  destruct n as [z | c k]; simpl; [| split; [discriminate | done]].
  destruct inclusive; simpl.
  - destruct (Z.ltb_spec z bound); simpl; split; (done || lia).
  - destruct (Z.leb_spec z bound); simpl; split; (done || lia).
Qed.

Lemma parse_whole_from_OK p n inclusive bound v :
  z._parse (ZodNumber [check_int; check_num_min bound inclusive]) p (JSNumber n) = OK v ->
  whole_from inclusive bound n.
Proof.
  intros Hv. pose proof Hv as [-> _]%parse_number_checks. by apply parse_whole_from in Hv.
Qed.

Lemma object_pairs_OK p props key t shape v :
  z._parse t (p ++ [key]) (Obj.get key props) = OK v ->
  z.object_pairs z._parse p props ((key, t) :: shape)
  = ((z.object_pairs z._parse p props shape).1,
     kept key (Obj.has key props) v ++ (z.object_pairs z._parse p props shape).2).
Proof. intros Hv. by rewrite object_pairs_cons, Hv, merge_pair_OK. Qed.

Local Arguments z._parse : simpl never.
Local Arguments z.object_pairs : simpl never.

(** Takes the next property of the shape off the hypothesis [H]. *)
Ltac take_property H v Hv :=
  apply object_pairs_step in H as (v & Hv & H & _); simpl in Hv.

Lemma UserStats_value_valid p s :
  z._parse UserStatsSchema p (UserStats_value s) = OK (UserStats_value s)
  <-> whole_from true 0 (types.totalSessions s)
      /\ whole_from true 0 (types.totalCalls s)
      /\ whole_from true 0 (types.successfulSequences s)
      /\ whole_from true 0 (types.failedSequences s).
Proof.
  split.
  - intros (props & [= <-] & Hnil & _)%parse_object_OK.
    take_property Hnil v1 Hv1. apply parse_whole_from_OK in Hv1.
    take_property Hnil v2 Hv2. apply parse_whole_from_OK in Hv2.
    take_property Hnil v3 Hv3. apply parse_whole_from_OK in Hv3.
    take_property Hnil v4 Hv4. apply parse_whole_from_OK in Hv4.
    done.
  - intros (H1 & H2 & H3 & H4).
    unfold UserStatsSchema, z.object, UserStats_value. rewrite _parse_object.
    do 4 (erewrite object_pairs_OK by (simpl; by apply parse_whole_from)).
    reflexivity.
Qed.

Lemma UserPreferences_value_valid p pr :
  z._parse UserPreferencesSchema p (UserPreferences_value pr) = OK (UserPreferences_value pr).
Proof.
  by destruct pr as [[a |] [f |]].
Qed.

(** The valid profiles, field by field: a [uuid] for [id], a [name] of 1
    to 20 characters, a whole [createdAt] above zero and whole counters
    from zero on. *)
Theorem valid_profile_iff u :
  valid_profile u
  <-> uuidRegex_test (types.id u) = true
      /\ (1 <= String.length (types.name u) <= 20)%nat
      /\ whole_from false 0 (types.createdAt u)
      /\ whole_from true 0 (types.totalSessions (types.stats u))
      /\ whole_from true 0 (types.totalCalls (types.stats u))
      /\ whole_from true 0 (types.successfulSequences (types.stats u))
      /\ whole_from true 0 (types.failedSequences (types.stats u)).
Proof.
  split.
  - intros [data Hdata%safeParse_OK].
    apply parse_object_OK in Hdata as (props & [= <-] & Hnil & _).
    take_property Hnil v1 Hv1. take_property Hnil v2 Hv2.
    take_property Hnil v3 Hv3. apply parse_whole_from_OK in Hv3.
    take_property Hnil v4 Hv4.
    pose proof Hv4 as (-> & _)%UserStats_value_parse.
    apply UserStats_value_valid in Hv4 as (? & ? & ? & ?).
    unfold z._parse in Hv1, Hv2. simpl in Hv1, Hv2.
    apply finish_OK in Hv1 as [Hid _], Hv2 as [Hname _].
    destruct (uuidRegex_test (types.id u)); [| discriminate Hid].
    destruct (Z.ltb_spec (Z.of_nat (String.length (types.name u))) 1); [discriminate Hname |].
    destruct (Z.ltb_spec 20 (Z.of_nat (String.length (types.name u)))); [discriminate Hname |].
    split_and!; try done; lia.
  - intros (Hid & Hname & Hcreated & Hstats).
    exists (UserProfile_value u). apply safeParse_OK.
    unfold UserProfileSchema, z.object, UserProfile_value. rewrite _parse_object.
    erewrite object_pairs_OK by (unfold z._parse; simpl; by rewrite Hid).
    erewrite object_pairs_OK.
    2:{ unfold z._parse. simpl.
        destruct (Z.ltb_spec (Z.of_nat (String.length (types.name u))) 1); [lia |].
        destruct (Z.ltb_spec 20 (Z.of_nat (String.length (types.name u)))); [lia | done]. }
    erewrite object_pairs_OK by (simpl; by apply parse_whole_from).
    erewrite object_pairs_OK by (simpl; by apply UserStats_value_valid).
    destruct (types.preferences u) as [pr |].
    + erewrite object_pairs_OK by (simpl; apply UserPreferences_value_valid). reflexivity.
    + erewrite object_pairs_OK by reflexivity. reflexivity.
Qed.
End valid.

(** ** JSON: parse after stringify *)

Lemma JSValue_ind' (P : JSValue -> Prop)
  (Hundefined : P JSUndefined)
  (Hnull : P JSNull)
  (Hboolean : forall b, P (JSBoolean b))
  (Hnumber : forall n, P (JSNumber n))
  (Hbigint : forall z, P (JSBigInt z))
  (Hstring : forall s, P (JSString s))
  (Harray : forall elements, Forall P elements -> P (JSArray elements))
  (Hobject : forall props, Forall (fun kv => P kv.2) props -> P (JSObject props)) :
  forall v, P v.
Proof.
  fix IH 1. intros [| | b | n | z | s | elements | props].
  - apply Hundefined.
  - apply Hnull.
  - apply Hboolean.
  - apply Hnumber.
  - apply Hbigint.
  - apply Hstring.
  - apply Harray. induction elements as [| v vs IHvs]; constructor; [apply IH | apply IHvs].
  - apply Hobject. induction props as [| [k v] ps IHps]; constructor; [apply IH | apply IHps].
Qed.

Module JSONFacts.
Import JSON.

Lemma value_start_spec c :
  value_start c = true ->
  is_ws c = false /\ Ascii.eqb c "]" = false /\ Ascii.eqb c "}" = false
  /\ Ascii.eqb c "," = false /\ Ascii.eqb c ":" = false.
Proof.
  destruct c as [[] [] [] [] [] [] [] []]; vm_compute; intros; try discriminate; auto.
Qed.

(** *** Strings *)

Lemma read_string_quote_char c n rest :
  read_string (S n) (quote_char c ++ rest)
  = '(str, r) ← read_string n rest; Some (c :: str, r).
Proof.
  destruct c as [[] [] [] [] [] [] [] []]; reflexivity.
Qed.

Lemma quote_char_length c : (1 <= length (quote_char c))%nat.
Proof. destruct c as [[] [] [] [] [] [] [] []]; vm_compute; lia. Qed.

Lemma flat_map_quote_length s : (length s <= length (flat_map quote_char s))%nat.
Proof.
  induction s as [| c s IH]; simpl; [lia |].
  rewrite length_app. pose proof (quote_char_length c). lia.
Qed.

Lemma read_string_quoted s n rest :
  (length s < n)%nat ->
  read_string n (flat_map quote_char s ++ "034"%char :: rest) = Some (s, rest).
Proof.
  revert n. induction s as [| c s IH]; intros [| n] Hn; simpl in Hn; try lia.
  - reflexivity.
  - cbn [flat_map]. rewrite <- app_assoc, read_string_quote_char, IH by lia. reflexivity.
Qed.

Lemma quote_read s rest :
  exists body, quote s ++ rest = "034"%char :: body
    /\ read_string (length body) body = Some (list_ascii_of_string s, rest).
Proof.
  exists (flat_map quote_char (list_ascii_of_string s) ++ "034"%char :: rest). split.
  - unfold quote. simpl. rewrite <- app_assoc. reflexivity.
  - apply read_string_quoted.
    rewrite length_app. pose proof (flat_map_quote_length (list_ascii_of_string s)).
    simpl. lia.
Qed.

(** *** Numbers *)

Lemma delimited_not_digit rest : delimited rest -> next_not_digit rest.
Proof. destruct rest as [| c rest]; [done |]. by intros [-> | [-> | ->]]. Qed.

Lemma read_digits_stop rest : next_not_digit rest -> read_digits rest = (Nil, rest).
Proof. destruct rest as [| c rest]; simpl; [done |]. by intros ->. Qed.

Lemma read_digits_uint_chars d rest :
  next_not_digit rest -> read_digits (uint_chars d ++ rest) = (d, rest).
Proof.
  intros Hrest. induction d; simpl; rewrite ?IHd; try reflexivity.
  by apply read_digits_stop.
Qed.

Lemma to_uint_normal n : N.to_uint n <> Nil /\ leading_zero (N.to_uint n) = false.
Proof.
  pose proof (DecimalN.Unsigned.to_of (N.to_uint n)) as Hnorm.
  rewrite DecimalN.Unsigned.of_to in Hnorm.
  destruct (N.to_uint n) as [| d | d | d | d | d | d | d | d | d | d] eqn:Hd;
    try (split; [discriminate | reflexivity]).
  split; [discriminate |]. destruct d; try reflexivity; exfalso.
  all: rewrite unorm_D0 in Hnorm;
      match type of Hnorm with _ = unorm ?u =>
        assert (Hlen : (nb_digits (unorm u) <= nb_digits u)%nat)
          by (apply nb_digits_unorm; discriminate)
      end; rewrite <- Hnorm in Hlen; simpl in Hlen; lia.
Qed.

Lemma read_magnitude_uint neg n rest :
  delimited rest ->
  read_magnitude neg (uint_chars (N.to_uint n) ++ rest)
  = Some (Int (if neg then - Z.of_N n else Z.of_N n), rest).
Proof.
  intros Hrest. unfold read_magnitude.
  rewrite read_digits_uint_chars by by apply delimited_not_digit.
  destruct (to_uint_normal n) as [Hnil Hzero].
  destruct (N.to_uint n) eqn:Hn; try done; rewrite Hzero.
  all: assert (Hfrac : read_fraction rest = Some (Nil, rest))
         by (destruct rest as [| c rest]; [done |];
             by destruct Hrest as [-> | [-> | ->]]).
  all: assert (Hexp : read_exponent rest = Some (0, rest))
         by (destruct rest as [| c rest]; [done |];
             by destruct Hrest as [-> | [-> | ->]]).
  all: rewrite Hfrac; cbn [mbind option_bind]; rewrite Hexp; cbn [mbind option_bind].
  all: rewrite DecimalFacts.app_nil_r, <- Hn; unfold make_number.
  all: rewrite DecimalN.Unsigned.of_to; simpl.
  all: change (10 ^ (- (Z.of_nat 0 - 0))) with 1; by rewrite Z.mul_1_r.
Qed.

Lemma uint_chars_start d :
  d <> Nil -> exists c r, uint_chars d = c :: r /\ value_start c = true
                          /\ Ascii.eqb c "-" = false.
Proof. destruct d; [done | ..]; intros _; simpl; eauto. Qed.

(** Reading back an integer. *)
Lemma read_number_int z rest :
  delimited rest ->
  read_number (number_chars (Int z) ++ rest) = Some (Int z, rest).
Proof.
  intros Hrest. unfold number_chars, sign_chars.
  destruct (Z.ltb_spec z 0) as [Hneg | Hpos].
  - simpl. rewrite read_magnitude_uint by done. f_equal. f_equal. f_equal. lia.
  - simpl. destruct (uint_chars_start (N.to_uint (Z.abs_N z))) as (c & r & Hc & _ & Hminus).
    { apply to_uint_normal. }
    pose proof (read_magnitude_uint false (Z.abs_N z) rest Hrest) as Hread.
    rewrite Hc in Hread |- *. simpl in Hread |- *.
    rewrite Hminus, Hread. f_equal. f_equal. f_equal. lia.
Qed.

(** *** Values *)

Lemma number_chars_dispatch z :
  exists c r, number_chars (Int z) = c :: r /\ value_start c = true
    /\ forall fuel rest,
         parse_value (S fuel) (c :: r ++ rest)
         = '(n, r') ← read_number (c :: r ++ rest); Some (JSNumber n, r').
Proof.
  unfold number_chars, sign_chars. destruct (z <? 0); simpl.
  { eexists _, _. split; [reflexivity |]. split; reflexivity. }
  destruct (N.to_uint (Z.abs_N z)) eqn:Hn.
  { by destruct (to_uint_normal (Z.abs_N z)) as [Hnil _]. }
  all: eexists _, _; (split; [reflexivity |]); split; reflexivity.
Qed.

Lemma reads_back_literals :
  reads_back (list_ascii_of_string "null") JSNull
  /\ reads_back (list_ascii_of_string "true") (JSBoolean true)
  /\ reads_back (list_ascii_of_string "false") (JSBoolean false).
Proof.
  split_and!; (split; [eexists _, _; split; reflexivity |]);
    intros [| fuel] rest Hfuel _; simpl in Hfuel; try lia; reflexivity.
Qed.

Lemma reads_back_int z : reads_back (number_chars (Int z)) (JSNumber (Int z)).
Proof.
  destruct (number_chars_dispatch z) as (c & r & Hc & Hstart & Hdispatch).
  split; [eauto |]. intros [| fuel] rest Hfuel Hrest; [lia |].
  pose proof (read_number_int z rest Hrest) as Hread.
  rewrite Hc in Hread |- *. simpl app in *. by rewrite Hdispatch, Hread.
Qed.

Lemma parse_value_string fuel body :
  parse_value (S fuel) ("034"%char :: body)
  = '(str, r) ← read_string (length body) body;
    Some (JSString (string_of_list_ascii str), r).
Proof. reflexivity. Qed.

Lemma reads_back_string s : reads_back (quote s) (JSString s).
Proof.
  split; [unfold quote; simpl; eexists _, _; split; reflexivity |].
  intros [| fuel] rest Hfuel _; [lia |].
  destruct (quote_read s rest) as (body & -> & Hbody).
  rewrite parse_value_string, Hbody. cbn. by rewrite string_of_list_ascii_of_string.
Qed.

(** *** Arrays *)

Lemma join_cons2 x y l : join (x :: y :: l) = x ++ ","%char :: join (y :: l).
Proof. reflexivity. Qed.

Lemma parse_elements_eq fuel s :
  parse_elements (S fuel) s
  = '(v, r) ← parse_value fuel s;
    match skip_ws r with
    | c :: r' =>
        if Ascii.eqb c "," then
          '(vs, r'') ← parse_elements fuel r'; Some (v :: vs, r'')
        else if Ascii.eqb c "]" then Some ([v], r')
        else None
    | [] => None
    end.
Proof. reflexivity. Qed.

Lemma parse_value_array fuel c r :
  is_ws c = false -> Ascii.eqb c "]" = false ->
  parse_value (S fuel) ("["%char :: c :: r)
  = '(vs, r') ← parse_elements fuel (c :: r); Some (JSArray vs, r').
Proof. intros Hws Hc. simpl. rewrite Hws, Hc. reflexivity. Qed.

Local Arguments join : simpl never.
Local Arguments quote : simpl never.
Local Arguments parse_value : simpl never.
Local Arguments parse_elements : simpl never.
Local Arguments parse_members : simpl never.

Lemma parse_elements_join items vs :
  Forall2 reads_back items vs -> items <> [] ->
  forall fuel rest,
    (length (join items) + 1 < fuel)%nat ->
    parse_elements fuel (join items ++ "]"%char :: rest) = Some (vs, rest).
Proof.
  induction 1 as [| item v items vs [_ Hitem] Hitems IH]; [done |]. intros _.
  intros [| fuel] rest Hfuel; [lia |]. rewrite parse_elements_eq.
  destruct items as [| item' items].
  - apply Forall2_nil_inv_l in Hitems as ->. unfold join in Hfuel |- *.
    rewrite Hitem; [reflexivity | lia | simpl; auto].
  - rewrite join_cons2 in Hfuel |- *. rewrite length_app in Hfuel. simpl in Hfuel.
    rewrite <- app_assoc. simpl app.
    rewrite Hitem; [| lia | simpl; auto]. simpl.
    rewrite IH; [reflexivity | done | lia].
Qed.

Lemma join_start {B} (R : list ascii -> B -> Prop) items vs :
  Forall2 R items vs -> items <> [] ->
  (forall item v, R item v -> exists c r, item = c :: r /\ value_start c = true) ->
  exists c r, join items = c :: r /\ value_start c = true.
Proof.
  intros [| item v items' vs' Hitem Hitems] Hne Hstart; [done |].
  destruct (Hstart _ _ Hitem) as (c & r & -> & Hc).
  destruct items'; simpl; eauto.
Qed.

Lemma reads_back_array items vs :
  Forall2 reads_back items vs ->
  reads_back ("["%char :: join items ++ ["]"%char]) (JSArray vs).
Proof.
  intros Hitems. split; [eexists _, _; split; reflexivity |].
  intros [| fuel] rest Hfuel _; [lia |].
  simpl in Hfuel. rewrite length_app in Hfuel. simpl in Hfuel.
  simpl app. rewrite <- app_assoc. simpl app.
  destruct (decide (items = [])) as [-> | Hne].
  { apply Forall2_nil_inv_l in Hitems as ->. reflexivity. }
  destruct (join_start reads_back items vs Hitems Hne) as (c & r & Hc & Hstart).
  { by intros item v [? _]. }
  pose proof (parse_elements_join items vs Hitems Hne fuel rest ltac:(lia)) as Hparse.
  rewrite Hc in Hparse |- *. simpl app in *.
  apply value_start_spec in Hstart as (Hws & Hclose & _).
  by rewrite parse_value_array, Hparse.
Qed.

(** *** Objects *)

Lemma parse_members_eq fuel body :
  parse_members (S fuel) ("034"%char :: body)
  = '(k, r1) ← read_string (length body) body;
    match skip_ws r1 with
    | c1 :: r2 =>
        if Ascii.eqb c1 ":" then
          '(v, r3) ← parse_value fuel r2;
          match skip_ws r3 with
          | c3 :: r4 =>
              if Ascii.eqb c3 "," then
                '(ms, r5) ← parse_members fuel r4;
                Some ((string_of_list_ascii k, v) :: ms, r5)
              else if Ascii.eqb c3 "}" then
                Some ([(string_of_list_ascii k, v)], r4)
              else None
          | [] => None
          end
        else None
    | [] => None
    end.
Proof. reflexivity. Qed.

Lemma quote_length s : (2 <= length (quote s))%nat.
Proof. unfold quote. rewrite length_app. simpl. lia. Qed.

Lemma parse_members_join items ms :
  Forall2 member_reads_back items ms -> items <> [] ->
  forall fuel rest,
    (length (join items) + 1 < fuel)%nat ->
    parse_members fuel (join items ++ "}"%char :: rest) = Some (ms, rest).
Proof.
  induction 1 as [| item [k v] items ms (t & -> & _ & Hitem) Hitems IH]; [done |]. intros _.
  intros [| fuel] rest Hfuel; [lia |]. simpl fst in *. simpl snd in *.
  pose proof (quote_length k) as Hk.
  destruct items as [| item' items].
  - apply Forall2_nil_inv_l in Hitems as ->.
    unfold join in *. rewrite length_app in Hfuel. simpl in Hfuel.
    rewrite <- app_assoc.
    destruct (quote_read k ((":"%char :: t) ++ "}"%char :: rest)) as (body & -> & Hbody).
    rewrite parse_members_eq, Hbody. simpl.
    rewrite Hitem; [| lia | simpl; auto]. cbn.
    by rewrite string_of_list_ascii_of_string.
  - rewrite join_cons2 in Hfuel |- *. rewrite !length_app in Hfuel. simpl in Hfuel.
    rewrite length_app in Hfuel. simpl in Hfuel.
    rewrite <- !app_assoc, <- !app_comm_cons.
    destruct (quote_read k (":"%char :: t ++ ","%char :: join (item' :: items) ++ "}"%char :: rest))
      as (body & -> & Hbody).
    rewrite parse_members_eq, Hbody. simpl.
    rewrite Hitem; [| lia | simpl; auto]. simpl.
    rewrite IH; [| done | lia]. cbn.
    by rewrite string_of_list_ascii_of_string.
Qed.

Lemma Obj_set_fresh k v props : k ∉ props.*1 -> Obj.set k v props = props ++ [(k, v)].
Proof.
  induction props as [| [k' w] props IH]; simpl; [done |].
  intros [Hne Hk]%not_elem_of_cons.
  destruct (String.eqb_spec k' k); [congruence |]. by rewrite IH.
Qed.

Lemma object_of_members ms : NoDup ms.*1 -> object_of ms = JSObject ms.
Proof.
  unfold object_of. intros Hnodup. f_equal.
  enough (Hgen : forall acc, NoDup (acc ++ ms).*1 ->
            fold_left (fun props kv => Obj.set kv.1 kv.2 props) ms acc = acc ++ ms)
    by (by apply (Hgen [])).
  clear Hnodup. induction ms as [| [k v] ms IH]; intros acc Hnodup; simpl.
  - by rewrite app_nil_r.
  - rewrite Obj_set_fresh, IH.
    + by rewrite <- app_assoc.
    + by rewrite <- app_assoc.
    + rewrite fmap_app in Hnodup. apply NoDup_app in Hnodup as (_ & Hdisj & _).
      intros Hk. apply (Hdisj _ Hk). by left.
Qed.

Lemma parse_value_object fuel body :
  parse_value (S fuel) ("{"%char :: "034"%char :: body)
  = '(ms, r) ← parse_members fuel ("034"%char :: body); Some (object_of ms, r).
Proof. reflexivity. Qed.

Lemma reads_back_object items ms :
  Forall2 member_reads_back items ms -> NoDup ms.*1 ->
  reads_back ("{"%char :: join items ++ ["}"%char]) (JSObject ms).
Proof.
  intros Hitems Hnodup. split; [eexists _, _; split; reflexivity |].
  intros [| fuel] rest Hfuel _; [lia |].
  simpl in Hfuel. rewrite length_app in Hfuel. simpl in Hfuel.
  rewrite <- app_comm_cons, <- app_assoc, <- app_comm_cons, app_nil_l.
  destruct items as [| item items].
  { apply Forall2_nil_inv_l in Hitems as ->. reflexivity. }
  pose proof (parse_members_join _ _ Hitems ltac:(done) fuel rest ltac:(lia)) as Hparse.
  apply Forall2_cons_inv_l in Hitems as ([k v] & ms' & Hitem & _ & ->).
  destruct Hitem as (t & -> & _). cbn [fst snd] in *.
  assert (Hq : exists body, join ((quote k ++ ":"%char :: t) :: items) = "034"%char :: body).
  { unfold quote. destruct items; unfold join; simpl; eauto. }
  destruct Hq as [body Hbody]. rewrite Hbody in Hparse |- *.
  rewrite <- app_comm_cons in Hparse |- *.
  rewrite parse_value_object, Hparse. simpl. by rewrite object_of_members.
Qed.

(** *** [JSON.parse] after [JSON.stringify] *)

Lemma jsonify_members_keys props k :
  k ∈ (jsonify_members jsonify props).*1 -> k ∈ props.*1.
Proof.
  induction props as [| [k' v] props IH]; [done |].
  destruct v; simpl; rewrite ?elem_of_cons; intuition.
Qed.

Lemma jsonify_members_NoDup props :
  NoDup props.*1 -> NoDup (jsonify_members jsonify props).*1.
Proof.
  induction props as [| [k v] props IH]; [done |].
  simpl. intros [Hk Hnodup]%NoDup_cons.
  assert (k ∉ (jsonify_members jsonify props).*1)
    by (intros Hin; by apply Hk, jsonify_members_keys).
  destruct v; simpl; auto; apply NoDup_cons; auto.
Qed.

(** The text [JSON.stringify] writes for a serializable value reads back
    as the value, up to the places of [undefined]. *)
Theorem serialize_reads_back v :
  serializable v ->
  exists o, serialize v = Normal o
    /\ (o = None <-> v = JSUndefined)
    /\ reads_back (default (list_ascii_of_string "null") o) (jsonify v).
Proof.
  induction v as [| | b | n | z | s | elements IH | props IH] using JSValue_ind';
    intros Hser.
  - exists None. split_and!; [done | done | apply reads_back_literals].
  - eexists (Some _). split_and!; [done | done | apply reads_back_literals].
  - destruct b; eexists (Some _); (split_and!; [done | done | apply reads_back_literals]).
  - destruct n as [z | c k]; [| discriminate Hser].
    eexists (Some _). split_and!; [done | done | apply reads_back_int].
  - destruct Hser.
  - eexists (Some _). split_and!; [done | done | apply reads_back_string].
  - assert (Hitems : exists items,
              serialize_elements serialize elements = Normal items
              /\ Forall2 reads_back items (map jsonify elements)).
    { induction IH as [| v vs IHv _ IHvs]; [by exists [] |].
      destruct Hser as [Hv Hvs].
      destruct (IHv Hv) as (o & Ho & _ & Hback).
      destruct (IHvs Hvs) as (items & Hitems & Hbacks).
      eexists (_ :: items). cbn [serialize_elements]. rewrite Ho. cbn.
      fold (serialize_elements serialize vs). rewrite Hitems. cbn.
      split; [reflexivity |]. by constructor. }
    destruct Hitems as (items & Hitems & Hback).
    eexists (Some _). cbn [serialize]. rewrite Hitems. cbn.
    split_and!; [done | done | by apply reads_back_array].
  - destruct Hser as [Hnodup Hser].
    assert (Hitems : exists items,
              serialize_members serialize props = Normal items
              /\ Forall2 member_reads_back items (jsonify_members jsonify props)).
    { clear Hnodup. induction IH as [| [k v] ps IHv _ IHps]; [by exists [] |].
      destruct Hser as [Hv Hps]. simpl in IHv.
      destruct (IHv Hv) as (o & Ho & Hnone & Hback).
      destruct (IHps Hps) as (items & Hitems & Hbacks).
      cbn [serialize_members]. rewrite Ho. cbn.
      fold (serialize_members serialize ps). rewrite Hitems. cbn.
      destruct o as [t |].
      - eexists (_ :: items). split; [reflexivity |].
        assert (v <> JSUndefined) by (intros ->; by destruct Hnone as [_ Hnone]).
        destruct v; try done; constructor; try done; by exists t.
      - destruct Hnone as [Hnone _]. rewrite (Hnone eq_refl). by exists items. }
    destruct Hitems as (items & Hitems & Hback).
    eexists (Some _). cbn [serialize]. rewrite Hitems. cbn.
    split_and!; [done | done |].
    apply reads_back_object; [done | by apply jsonify_members_NoDup].
Qed.

(** [JSON.parse(JSON.stringify(v))] for a serializable [v]. *)
Theorem parse_stringify v :
  serializable v -> v <> JSUndefined ->
  exists text, JSON.stringify v = Normal (Some text)
    /\ text <> ""
    /\ JSON.parse text = Normal (jsonify v).
Proof.
  intros Hser Hdef. destruct (serialize_reads_back v Hser) as (o & Ho & Hnone & Hstart & Hback).
  destruct o as [chars |]; [| by destruct Hnone as [Hnone _]; destruct Hdef; auto].
  simpl in Hstart, Hback.
  exists (string_of_list_ascii chars). unfold JSON.stringify, JSON.parse. rewrite Ho.
  split; [reflexivity |]. split.
  - destruct Hstart as (c & r & -> & _). discriminate.
  - rewrite list_ascii_of_string_of_list_ascii.
    rewrite <- (app_nil_r chars) at 2. rewrite Hback; [reflexivity | lia | done].
Qed.
End JSONFacts.

(** ** JSON: the fuel of the parser *)

Module FuelFacts.
Import JSON.

Lemma skip_ws_length s : (length (skip_ws s) <= length s)%nat.
Proof. induction s as [| c s IH]; simpl; [lia |]. destruct (is_ws c); simpl; lia. Qed.

Lemma strip_prefix_length lit s r : strip_prefix lit s = Some r -> (length r <= length s)%nat.
Proof.
  revert s. induction lit as [| a lit IH]; intros [| c s]; simpl; try discriminate.
  - intros [= <-]. simpl. lia.
  - intros [= <-]. simpl. lia.
  - destruct (Ascii.eqb a c); [| discriminate]. intros Hr%IH. lia.
Qed.

Lemma read_digits_length s : (length (read_digits s).2 <= length s)%nat.
Proof.
  induction s as [| c s IH]; simpl; [lia |].
  destruct (digit_of c); simpl; [| lia]. destruct (read_digits s). simpl in *. lia.
Qed.

Lemma read_escape_length s a r : read_escape s = Some (a, r) -> (length r < length s)%nat.
Proof.
  destruct s as [| c s]; simpl; [discriminate |].
  repeat (match goal with
          | |- context [if ?b then _ else _] => destruct b
          end; [intros [= _ <-]; lia |]).
  destruct (Ascii.eqb c "u"); [| discriminate].
  destruct s as [| h1 [| h2 [| h3 [| h4 s]]]]; try discriminate.
  destruct (hex_value h1); [| discriminate]. destruct (hex_value h2); [| discriminate].
  destruct (hex_value h3); [| discriminate]. destruct (hex_value h4); [| discriminate].
  simpl. case_match; [| discriminate]. intros [= _ <-]. simpl. lia.
Qed.

Lemma read_string_length n s str r :
  read_string n s = Some (str, r) -> (length r < length s)%nat.
Proof.
  revert s str r. induction n as [| n IH]; intros [| c s] str r; simpl; try discriminate.
  destruct (Ascii.eqb c "034"); [intros [= _ <-]; lia |].
  destruct (Ascii.eqb c "092").
  - destruct (read_escape s) as [[a r'] |] eqn:Hesc; [| discriminate]. simpl.
    destruct (read_string n r') as [[str' r''] |] eqn:Hrec; [| discriminate]. simpl.
    intros [= _ <-]. apply read_escape_length in Hesc. apply IH in Hrec. lia.
  - destruct (N_of_ascii c <? 32)%N; [discriminate |].
    destruct (read_string n s) as [[str' r'] |] eqn:Hrec; [| discriminate]. simpl.
    intros [= _ <-]. apply IH in Hrec. lia.
Qed.

(** The fuel of [read_string], the length of its input, is enough. *)
Lemma read_string_fuel n s res :
  read_string n s = Some res ->
  forall n', (length s <= n')%nat -> read_string n' s = Some res.
Proof.
  revert s res. induction n as [| n IH]; intros [| c s] res; simpl; try discriminate.
  intros Hres [| n'] Hn'; simpl in Hn'; [lia |]. simpl.
  destruct (Ascii.eqb c "034"); [done |].
  destruct (Ascii.eqb c "092").
  - destruct (read_escape s) as [[a r'] |] eqn:Hesc; [| discriminate]. simpl in *.
    destruct (read_string n r') as [[str' r''] |] eqn:Hrec; [| discriminate].
    apply read_escape_length in Hesc. rewrite (IH _ _ Hrec) by lia. done.
  - destruct (N_of_ascii c <? 32)%N; [discriminate |].
    destruct (read_string n s) as [[str' r'] |] eqn:Hrec; [| discriminate].
    rewrite (IH _ _ Hrec) by lia. done.
Qed.

Lemma read_fraction_length s f r : read_fraction s = Some (f, r) -> (length r <= length s)%nat.
Proof.
  destruct s as [| c s]; simpl; [by intros [= _ <-] |].
  destruct (Ascii.eqb c "."); [| by intros [= _ <-]].
  pose proof (read_digits_length s). destruct (read_digits s) as [[] r']; simpl in *;
    try discriminate; intros [= _ <-]; lia.
Qed.

Lemma read_exponent_length s e r : read_exponent s = Some (e, r) -> (length r <= length s)%nat.
Proof.
  destruct s as [| c s]; simpl; [by intros [= _ <-] |].
  destruct (Ascii.eqb c "e" || Ascii.eqb c "E"); [| by intros [= _ <-]].
  destruct s as [| c' s]; simpl; [discriminate |].
  destruct (Ascii.eqb c' "-"); [| destruct (Ascii.eqb c' "+")].
  - pose proof (read_digits_length s). destruct (read_digits s) as [[] r']; simpl in *;
      try discriminate; intros [= _ <-]; lia.
  - pose proof (read_digits_length s). destruct (read_digits s) as [[] r']; simpl in *;
      try discriminate; intros [= _ <-]; lia.
  - pose proof (read_digits_length (c' :: s)). destruct (read_digits (c' :: s)) as [[] r'];
      simpl in *; try discriminate; intros [= _ <-]; lia.
Qed.

Lemma read_magnitude_length neg s n r :
  read_magnitude neg s = Some (n, r) -> (length r < length s)%nat.
Proof.
  unfold read_magnitude. pose proof (read_digits_length s) as Hlen.
  destruct s as [| c s]; [simpl; discriminate |].
  assert (Hstep : (read_digits (c :: s)).1 <> Nil -> (length (read_digits (c :: s)).2 < length (c :: s))%nat).
  { simpl. destruct (digit_of c); [| done]. intros _.
    pose proof (read_digits_length s). destruct (read_digits s). simpl in *. lia. }
  destruct (read_digits (c :: s)) as [i r1]. simpl in Hstep, Hlen.
  destruct i; try discriminate.
  all: destruct (leading_zero _); [discriminate |].
  all: destruct (read_fraction r1) as [[f r2] |] eqn:Hf; [| discriminate]; simpl.
  all: destruct (read_exponent r2) as [[e r3] |] eqn:He; [| discriminate]; simpl.
  all: intros [= _ <-]; apply read_fraction_length in Hf; apply read_exponent_length in He.
  all: specialize (Hstep ltac:(discriminate)); lia.
Qed.

Lemma read_number_length s n r : read_number s = Some (n, r) -> (length r < length s)%nat.
Proof.
  destruct s as [| c s]; simpl; [discriminate |].
  destruct (Ascii.eqb c "-"); intros Hr%read_magnitude_length; simpl in *; lia.
Qed.

Lemma parse_value_unfold fuel s :
  parse_value (S fuel) s =
  match skip_ws s with
  | [] => None
  | c :: r =>
      if Ascii.eqb c "n" then
        r' ← strip_prefix (list_ascii_of_string "ull") r; Some (JSNull, r')
      else if Ascii.eqb c "t" then
        r' ← strip_prefix (list_ascii_of_string "rue") r; Some (JSBoolean true, r')
      else if Ascii.eqb c "f" then
        r' ← strip_prefix (list_ascii_of_string "alse") r; Some (JSBoolean false, r')
      else if Ascii.eqb c "034" then
        '(str, r') ← read_string (length r) r;
        Some (JSString (string_of_list_ascii str), r')
      else if Ascii.eqb c "[" then
        match skip_ws r with
        | c' :: r' =>
            if Ascii.eqb c' "]" then Some (JSArray [], r')
            else '(vs, r'') ← parse_elements fuel (c' :: r'); Some (JSArray vs, r'')
        | [] => None
        end
      else if Ascii.eqb c "{" then
        match skip_ws r with
        | c' :: r' =>
            if Ascii.eqb c' "}" then Some (JSObject [], r')
            else '(ms, r'') ← parse_members fuel (c' :: r'); Some (object_of ms, r'')
        | [] => None
        end
      else
        '(n, r') ← read_number (c :: r); Some (JSNumber n, r')
  end.
Proof. reflexivity. Qed.

Lemma parse_members_unfold fuel s :
  parse_members (S fuel) s =
  match skip_ws s with
  | c :: r =>
      if Ascii.eqb c "034" then
        '(k, r1) ← read_string (length r) r;
        match skip_ws r1 with
        | c1 :: r2 =>
            if Ascii.eqb c1 ":" then
              '(v, r3) ← parse_value fuel r2;
              match skip_ws r3 with
              | c3 :: r4 =>
                  if Ascii.eqb c3 "," then
                    '(ms, r5) ← parse_members fuel r4;
                    Some ((string_of_list_ascii k, v) :: ms, r5)
                  else if Ascii.eqb c3 "}" then
                    Some ([(string_of_list_ascii k, v)], r4)
                  else None
              | [] => None
              end
            else None
        | [] => None
        end
      else None
  | [] => None
  end.
Proof. reflexivity. Qed.

Local Arguments parse_value : simpl never.
Local Arguments parse_elements : simpl never.
Local Arguments parse_members : simpl never.

Lemma parse_elements_unfold fuel s :
  parse_elements (S fuel) s
  = '(v, r) ← parse_value fuel s;
    match skip_ws r with
    | c :: r' =>
        if Ascii.eqb c "," then
          '(vs, r'') ← parse_elements fuel r'; Some (v :: vs, r'')
        else if Ascii.eqb c "]" then Some ([v], r')
        else None
    | [] => None
    end.
Proof. reflexivity. Qed.

(** Takes the next step of the parser in the hypothesis [H] apart, keeping
    the equation of the step and what it says about lengths. *)
Ltac parser_step H :=
  match type of H with
  | context [skip_ws ?s] =>
      let Hws := fresh "Hws" in
      pose proof (skip_ws_length s) as Hws;
      destruct (skip_ws s) eqn:?; cbn [mbind option_bind] in Hws; [discriminate H |]
  | context [parse_value ?f ?s] =>
      let Hp := fresh "Hp" in
      destruct (parse_value f s) as [[? ?] |] eqn:Hp; [| discriminate H];
      match goal with
      | IH : forall s v r, parse_value f s = Some (v, r) -> _ |- _ =>
          destruct (IH _ _ _ Hp) as [? ?]
      end; cbn [mbind option_bind] in H
  | context [parse_elements ?f ?s] =>
      let Hp := fresh "Hp" in
      destruct (parse_elements f s) as [[? ?] |] eqn:Hp; [| discriminate H];
      match goal with
      | IH : forall s v r, parse_elements f s = Some (v, r) -> _ |- _ =>
          destruct (IH _ _ _ Hp) as [? ?]
      end; cbn [mbind option_bind] in H
  | context [parse_members ?f ?s] =>
      let Hp := fresh "Hp" in
      destruct (parse_members f s) as [[? ?] |] eqn:Hp; [| discriminate H];
      match goal with
      | IH : forall s v r, parse_members f s = Some (v, r) -> _ |- _ =>
          destruct (IH _ _ _ Hp) as [? ?]
      end; cbn [mbind option_bind] in H
  | context [strip_prefix ?l ?s] =>
      let Hp := fresh "Hp" in
      destruct (strip_prefix l s) eqn:Hp; [| discriminate H];
      pose proof (strip_prefix_length _ _ _ Hp); cbn [mbind option_bind] in H
  | context [read_string ?n ?s] =>
      let Hp := fresh "Hp" in
      destruct (read_string n s) as [[? ?] |] eqn:Hp; [| discriminate H];
      pose proof (read_string_length _ _ _ _ Hp); cbn [mbind option_bind] in H
  | context [read_number ?s] =>
      let Hp := fresh "Hp" in
      destruct (read_number s) as [[? ?] |] eqn:Hp; [| discriminate H];
      pose proof (read_number_length _ _ _ Hp); cbn [mbind option_bind] in H
  | context [if ?b then _ else _] => destruct b eqn:?; try discriminate H
  end.

(** Runs the same steps in the goal, with the equations [parser_step] kept. *)
Ltac replay :=
  repeat match goal with
         | Heq : ?lhs = _ |- context [?lhs] => rewrite Heq; cbn [mbind option_bind]
         | Hfuel : forall f', _ -> ?p f' ?s = _ |- context [?p ?g ?s] =>
             rewrite (Hfuel g) by (simpl in *; lia); cbn [mbind option_bind]
         end.

(** A value that is parsed with some fuel is parsed, to the same result,
    with any fuel that is at least the number of characters it takes. *)
Lemma parse_fuel f :
  (forall s v r, parse_value f s = Some (v, r) ->
     (length r < length s)%nat
     /\ forall f', (length s - length r <= f')%nat -> parse_value f' s = Some (v, r))
  /\ (forall s vs r, parse_elements f s = Some (vs, r) ->
        (length r < length s)%nat
        /\ forall f', (length s - length r <= f')%nat -> parse_elements f' s = Some (vs, r))
  /\ (forall s ms r, parse_members f s = Some (ms, r) ->
        (length r < length s)%nat
        /\ forall f', (length s - length r <= f')%nat -> parse_members f' s = Some (ms, r)).
Proof.
  induction f as [| f (IHv & IHe & IHm)]; [split_and!; intros; discriminate |].
  split_and!.
  - intros s v r H. rewrite parse_value_unfold in H.
    repeat parser_step H.
    all: injection H as <- <-; (split; [simpl in *; lia |]); intros [| g] Hg;
      [simpl in *; lia |]; rewrite parse_value_unfold; replay; reflexivity.
  - intros s v r H. rewrite parse_elements_unfold in H.
    repeat parser_step H.
    all: injection H as <- <-; (split; [simpl in *; lia |]); intros [| g] Hg;
      [simpl in *; lia |]; rewrite parse_elements_unfold; replay; reflexivity.
  - intros s v r H. rewrite parse_members_unfold in H.
    repeat parser_step H.
    all: injection H as <- <-; (split; [simpl in *; lia |]); intros [| g] Hg;
      [simpl in *; lia |]; rewrite parse_members_unfold; replay; reflexivity.
Qed.

(** The fuel [JSON.parse] takes is enough: more fuel parses no more texts. *)
Theorem parse_fuel_adequate f s v r :
  parse_value f s = Some (v, r) -> parse_value (S (length s)) s = Some (v, r).
Proof.
  intros H. destruct (parse_fuel f) as (Hv & _ & _).
  destruct (Hv _ _ _ H) as [_ Hfuel]. apply Hfuel. lia.
Qed.

(** [JSON.parse] returns [v] exactly when some amount of fuel parses the
    text to [v] with white space only after it: a [SyntaxError] is never
    for lack of fuel. *)
Theorem parse_complete text v :
  JSON.parse text = Normal v
  <-> exists fuel rest,
        parse_value fuel (list_ascii_of_string text) = Some (v, rest)
        /\ skip_ws rest = [].
Proof.
  unfold JSON.parse. split.
  - destruct (parse_value _ _) as [[v' rest] |] eqn:Hv; [| discriminate].
    destruct (skip_ws rest) eqn:Hrest; [| discriminate]. intros [= <-]. eauto.
  - intros (fuel & rest & Hv%parse_fuel_adequate & Hrest). by rewrite Hv, Hrest.
Qed.
End FuelFacts.

(** ** Names: the schema and the caller layer *)

Section names.
Context `{ZodFormats}.

Lemma UserProfileSchema_name id name :
  uuidRegex_test id = true ->
  z.safeParse UserProfileSchema (profile_named id name) =
  if Z.of_nat (String.length name) <? 1 then SafeParseError [mkIssue too_small ["name"]]
  else if 20 <? Z.of_nat (String.length name) then SafeParseError [mkIssue too_big ["name"]]
  else SafeParseSuccess (profile_named id name).
Proof.
  intros Hid. unfold z.safeParse, profile_named. cbn. rewrite Hid. cbn.
  destruct (Z.ltb_spec (Z.of_nat (String.length name)) 1);
    destruct (Z.ltb_spec 20 (Z.of_nat (String.length name))); try reflexivity; lia.
Qed.

(** C3, as the code has it: the profile schema checks the length of the
    name only. It accepts "Bob Smith-99_" and "Bob!" alike and rejects a name
    of 21 characters as too big; the character set and the surrounding
    spaces are checked by [validateName] in the caller layer, which rejects
    "Bob!" for its characters and " Bob" for its leading space. *)
Theorem name_checks_schema_and_caller id :
  uuidRegex_test id = true ->
  z.safeParse UserProfileSchema (profile_named id "Bob Smith-99_")
  = SafeParseSuccess (profile_named id "Bob Smith-99_")
  /\ z.safeParse UserProfileSchema (profile_named id "Bob!")
     = SafeParseSuccess (profile_named id "Bob!")
  /\ z.safeParse UserProfileSchema (profile_named id "aaaaaaaaaaaaaaaaaaaaa")
     = SafeParseError [mkIssue too_big ["name"]]
  /\ z.safeParse UserProfileSchema (profile_named id " Bob")
     = SafeParseSuccess (profile_named id " Bob")
  /\ validateName "Bob Smith-99_" = None
  /\ validateName "Bob!"
     = Some "Only letters, numbers, spaces, dash (-), and underscore (_) allowed"
  /\ validateName "aaaaaaaaaaaaaaaaaaaaa" = Some "Name must be 20 characters or less"
  /\ validateName " Bob" = Some "Name cannot start or end with spaces".
Proof.
  intros Hid. rewrite !(UserProfileSchema_name _ _ Hid). repeat split; reflexivity.
Qed.
End names.

Lemma name_checks_schema_and_caller_witness :
  let id := "123e4567-e89b-12d3-a456-426614174000" in
  uuidRegex_test id = true
  /\ z.safeParse UserProfileSchema (profile_named id "Bob Smith-99_")
     = SafeParseSuccess (profile_named id "Bob Smith-99_")
  /\ z.safeParse UserProfileSchema (profile_named id "Bob!")
     = SafeParseSuccess (profile_named id "Bob!")
  /\ z.safeParse UserProfileSchema (profile_named id "aaaaaaaaaaaaaaaaaaaaa")
     = SafeParseError [mkIssue too_big ["name"]]
  /\ z.safeParse UserProfileSchema (profile_named id " Bob")
     = SafeParseSuccess (profile_named id " Bob")
  /\ validateName "Bob Smith-99_" = None
  /\ validateName "Bob!"
     = Some "Only letters, numbers, spaces, dash (-), and underscore (_) allowed"
  /\ validateName "aaaaaaaaaaaaaaaaaaaaa" = Some "Name must be 20 characters or less"
  /\ validateName " Bob" = Some "Name cannot start or end with spaces".
Proof.
  intros id. split; [reflexivity |].
  exact (name_checks_schema_and_caller id eq_refl).
Defined.

(** The schema does not reject "Bob!": it has no character-set check and
    accepts the name. *)
Lemma schema_accepts_Bob_bang :
  let bob := profile_named "123e4567-e89b-12d3-a456-426614174000" "Bob!" in
  z.safeParse UserProfileSchema bob = SafeParseSuccess bob
  /\ ~ exists issues, z.safeParse UserProfileSchema bob = SafeParseError issues.
Proof.
  split; [reflexivity |]. intros [issues Hissues]. discriminate Hissues.
Qed.


(** ** The store adapter never throws *)

Section adapter.
Context {Σ : Type} `{Storage Σ} `{ZodFormats}.

Lemma saveToLocalStorage_run key data (w : World Σ) :
  saveToLocalStorage key data w =
  match JSON.stringify data with
  | Normal json =>
      match setItem key (ToString_undefined json) (localStorage w) with
      | Normal σ => (Normal tt, mkWorld σ (console w) (clock w))
      | Throw _ =>
          (Normal tt,
           mkWorld (localStorage w)
             (console w ++ [mkLogEntry error "Failed to save to localStorage:"]) (clock w))
      end
  | Throw _ =>
      (Normal tt,
       mkWorld (localStorage w)
         (console w ++ [mkLogEntry error "Failed to save to localStorage:"]) (clock w))
  end.
Proof.
  unfold saveToLocalStorage. run.
  destruct (JSON.stringify data) as [json | e]; [| reflexivity].
  destruct (setItem key (ToString_undefined json) (localStorage w)); reflexivity.
Qed.

(** C7: [saveToLocalStorage] completes normally on every storage, key and
    value, with the same result ([undefined]) whether or not the write took
    place. When [JSON.stringify] or [setItem] throws, the error is caught:
    the storage is as before and the console has one more error line. *)
Theorem saveToLocalStorage_never_throws key data (w : World Σ) :
  (saveToLocalStorage key data w).1 = Normal tt
  /\ (forall e, JSON.stringify data = Throw e ->
        (saveToLocalStorage key data w).2
        = mkWorld (localStorage w)
            (console w ++ [mkLogEntry error "Failed to save to localStorage:"]) (clock w))
  /\ (forall json e,
        JSON.stringify data = Normal json ->
        setItem key (ToString_undefined json) (localStorage w) = Throw e ->
        (saveToLocalStorage key data w).2
        = mkWorld (localStorage w)
            (console w ++ [mkLogEntry error "Failed to save to localStorage:"]) (clock w))
  /\ (forall json σ,
        JSON.stringify data = Normal json ->
        setItem key (ToString_undefined json) (localStorage w) = Normal σ ->
        (saveToLocalStorage key data w).2 = mkWorld σ (console w) (clock w)).
Proof.
  rewrite saveToLocalStorage_run. split_and!.
  - destruct (JSON.stringify data); [destruct (setItem _ _ _) |]; reflexivity.
  - intros e ->. reflexivity.
  - intros json e -> ->. reflexivity.
  - intros json σ -> ->. reflexivity.
Qed.

Lemma loadFromLocalStorage_run key schema (w : World Σ) :
  exists lines,
    loadFromLocalStorage key schema w
    = (Normal (loaded key schema (localStorage w)),
       mkWorld (localStorage w) (console w ++ lines) (clock w)).
Proof.
  unfold loadFromLocalStorage, loaded. run.
  destruct (getItem key (localStorage w)) as [[json |] | e]; simpl.
  - destruct json as [| c json]; simpl.
    { exists []. rewrite app_nil_r. by destruct w. }
    destruct (JSON.parse (String c json)) as [data | e]; simpl.
    + destruct (z.safeParse schema data); simpl.
      * exists []. rewrite app_nil_r. by destruct w.
      * eexists [_]. reflexivity.
    + eexists [_]. reflexivity.
  - exists []. rewrite app_nil_r. by destruct w.
  - eexists [_]. reflexivity.
Qed.

(** C6: [loadFromLocalStorage] completes normally for every storage, key
    and schema and leaves the storage alone. It returns [null] when the key
    is not set, when the stored string is not JSON, and when the parsed
    value fails the schema; a result other than [null] is the validated
    value of a stored string that parses. *)
Theorem loadFromLocalStorage_never_throws key schema (w : World Σ) :
  exists v,
    (loadFromLocalStorage key schema w).1 = Normal v
    /\ localStorage (loadFromLocalStorage key schema w).2 = localStorage w
    /\ (getItem key (localStorage w) = Normal None -> v = JSNull)
    /\ (forall json e,
          getItem key (localStorage w) = Normal (Some json) ->
          JSON.parse json = Throw e -> v = JSNull)
    /\ (forall json data issues,
          getItem key (localStorage w) = Normal (Some json) ->
          JSON.parse json = Normal data ->
          z.safeParse schema data = SafeParseError issues -> v = JSNull)
    /\ (forall e, getItem key (localStorage w) = Throw e -> v = JSNull)
    /\ (v <> JSNull ->
        exists json data,
          getItem key (localStorage w) = Normal (Some json)
          /\ JSON.parse json = Normal data
          /\ z.safeParse schema data = SafeParseSuccess v).
Proof.
  destruct (loadFromLocalStorage_run key schema w) as [lines ->].
  exists (loaded key schema (localStorage w)). unfold loaded.
  split_and!; [reflexivity | reflexivity | ..].
  - intros ->. reflexivity.
  - intros json e -> ->. reflexivity.
  - intros json data issues -> -> ->. reflexivity.
  - intros e ->. reflexivity.
  - destruct (getItem key (localStorage w)) as [[json |] | e]; try done.
    destruct (JSON.parse json) as [data | e] eqn:Hdata; try done.
    destruct (z.safeParse schema data) as [v | issues] eqn:Hv; try done.
    intros _. exists json, data. auto.
Qed.
End adapter.

(** The cases of the test suite, on its storage (a key that was never set,
    a string that is not JSON, a value that fails the schema), and a storage
    that refuses the read. *)
Lemma loadFromLocalStorage_never_throws_witness :
  (loadFromLocalStorage "non-existent" UserProfileSchema (mock_world [] 0)).1 = Normal JSNull
  /\ (loadFromLocalStorage "test-key" UserProfileSchema
        (mock_world [("test-key", "not valid json")] 0)).1 = Normal JSNull
  /\ (loadFromLocalStorage "test-key" UserProfileSchema
        (mock_world [("test-key", "{}")] 0)).1 = Normal JSNull
  /\ (loadFromLocalStorage "test-key" UserProfileSchema (mkWorld refusing [] 0)).1
     = Normal JSNull.
Proof.
  split_and!.
  - destruct (loadFromLocalStorage_never_throws "non-existent" UserProfileSchema
                (mock_world [] 0)) as (v & -> & _ & Habsent & _).
    f_equal. exact (Habsent eq_refl).
  - destruct (loadFromLocalStorage_never_throws "test-key" UserProfileSchema
                (mock_world [("test-key", "not valid json")] 0)) as (v & -> & _ & _ & Htext & _).
    f_equal. exact (Htext _ _ eq_refl eq_refl).
  - destruct (loadFromLocalStorage_never_throws "test-key" UserProfileSchema
                (mock_world [("test-key", "{}")] 0)) as (v & -> & _ & _ & _ & Hschema & _).
    f_equal. exact (Hschema _ _ _ eq_refl eq_refl eq_refl).
  - destruct (loadFromLocalStorage_never_throws "test-key" UserProfileSchema
                (mkWorld refusing [] 0)) as (v & -> & _ & _ & _ & _ & Hthrow & _).
    f_equal. exact (Hthrow _ eq_refl).
Defined.

(** A write that the storage refuses and a value that cannot be
    serialised both end in a console line, not in an exception; a write
    that takes place returns the same [undefined]. *)
Lemma saveToLocalStorage_never_throws_witness :
  saveToLocalStorage "k" mockUser (mkWorld refusing [] 0)
  = (Normal tt, mkWorld refusing [mkLogEntry error "Failed to save to localStorage:"] 0)
  /\ saveToLocalStorage "k" (JSBigInt 1) (mock_world [] 0)
     = (Normal tt,
        mkWorld (mkLocalStorageMock ∅) [mkLogEntry error "Failed to save to localStorage:"] 0)
  /\ saveToLocalStorage "k" JSNull (mock_world [] 0)
     = (Normal tt, mkWorld (mkLocalStorageMock (<["k" := "null"]> ∅)) [] 0).
Proof.
  split_and!; apply injective_projections.
  - apply (saveToLocalStorage_never_throws "k" mockUser (mkWorld refusing [] 0)).
  - destruct (saveToLocalStorage_never_throws "k" mockUser (mkWorld refusing [] 0))
      as (_ & _ & Hrefused & _).
    exact (Hrefused _ _ eq_refl eq_refl).
  - apply (saveToLocalStorage_never_throws "k" (JSBigInt 1) (mock_world [] 0)).
  - destruct (saveToLocalStorage_never_throws "k" (JSBigInt 1) (mock_world [] 0))
      as (_ & Hbigint & _).
    exact (Hbigint _ eq_refl).
  - apply (saveToLocalStorage_never_throws "k" JSNull (mock_world [] 0)).
  - destruct (saveToLocalStorage_never_throws "k" JSNull (mock_world [] 0))
      as (_ & _ & _ & Hwritten).
    exact (Hwritten _ _ eq_refl eq_refl).
Defined.

(** ** Clearing the known keys *)

(** C8: on the key-value storage, [clearAllLocalStorage] deletes the keys
    listed in [STORAGE_KEYS], at present the one profile key, and every
    other key keeps its value. *)
Theorem clearAllLocalStorage_frame (w : World LocalStorageMock) :
  clearAllLocalStorage w
  = (Normal tt,
     mkWorld (mkLocalStorageMock (delete "squaredance-user-profile" (store (localStorage w))))
       (console w) (clock w))
  /\ forall key,
       store (localStorage (clearAllLocalStorage w).2) !! key
       = if bool_decide (key ∈ STORAGE_KEYS.*2) then None
         else store (localStorage w) !! key.
Proof.
  assert (Hrun : clearAllLocalStorage w
    = (Normal tt,
       mkWorld (mkLocalStorageMock (delete "squaredance-user-profile" (store (localStorage w))))
         (console w) (clock w))) by reflexivity.
  split; [exact Hrun |]. rewrite Hrun. simpl. intros key.
  case_bool_decide as Hkey.
  - apply list_elem_of_singleton in Hkey as ->. apply lookup_delete_eq.
  - apply lookup_delete_ne. intros <-. apply Hkey. by left.
Qed.

(** The test of the suite: the profile key goes, another application's key
    stays. *)
Example clearAllLocalStorage_test :
  let w := (clearAllLocalStorage
              (mock_world [("squaredance-user-profile", "test1"); ("other-app-key", "test2")] 0)).2 in
  store (localStorage w) !! "squaredance-user-profile" = None
  /\ store (localStorage w) !! "other-app-key" = Some "test2".
Proof. split; reflexivity. Qed.

Section adapter_rest.
Context {Σ : Type} `{Storage Σ}.

(** [removeFromLocalStorage] and [clearAllLocalStorage] complete normally
    on every storage, and [isLocalStorageAvailable] answers with a boolean. *)
Lemma adapter_never_throws key (w : World Σ) :
  (removeFromLocalStorage key w).1 = Normal tt
  /\ (clearAllLocalStorage w).1 = Normal tt
  /\ exists b, (isLocalStorageAvailable w).1 = Normal b.
Proof.
  unfold removeFromLocalStorage, clearAllLocalStorage, isLocalStorageAvailable. run.
  split_and!.
  - by destruct (removeItem key (localStorage w)).
  - unfold forEach. run. by destruct (removeItem "squaredance-user-profile" (localStorage w)).
  - destruct (setItem _ _ (localStorage w)) as [σ |]; simpl; [| eauto].
    destruct (removeItem _ σ); simpl; eauto.
Qed.
End adapter_rest.

(** Removing a key that is not there changes nothing in the key-value
    storage, and the storage is then reported available. *)
Example removeFromLocalStorage_absent (w : World LocalStorageMock) key :
  store (localStorage w) !! key = None ->
  removeFromLocalStorage key w = (Normal tt, w)
  /\ (isLocalStorageAvailable w).1 = Normal true.
Proof.
  intros Hkey. split; [| reflexivity].
  unfold removeFromLocalStorage. run. rewrite delete_id by done. by destruct w as [[]].
Qed.

(** ** Round trip of a profile *)

Section round_trip.
Context `{ZodFormats}.

Lemma mock_save_load key text v data schema (w : World LocalStorageMock) :
  JSON.stringify v = Normal (Some text) -> text <> "" ->
  JSON.parse text = Normal data ->
  z.safeParse schema data = SafeParseSuccess data ->
  (saveToLocalStorage key v;; loadFromLocalStorage key schema) w
  = (Normal data,
     mkWorld (mkLocalStorageMock (<[key := text]> (store (localStorage w))))
       (console w) (clock w)).
Proof.
  intros Htext Hne Hdata Hsafe. unfold saveToLocalStorage, loadFromLocalStorage. run.
  rewrite Htext. simpl. rewrite lookup_insert_eq.
  destruct text as [| c text]; [done |]. simpl. rewrite Hdata. simpl. rewrite Hsafe.
  reflexivity.
Qed.

(** C4: a valid profile, written with [JSON.stringify] and read with
    [JSON.parse], validates to the profile itself; so saving it with
    [saveToLocalStorage] and loading it with the profile schema returns
    it. *)
Theorem profile_round_trip (u : types.UserProfile) :
  valid_profile u ->
  exists text,
    JSON.stringify (UserProfile_value u) = Normal (Some text)
    /\ (exists data,
          JSON.parse text = Normal data
          /\ z.safeParse UserProfileSchema data = SafeParseSuccess (UserProfile_value u))
    /\ forall key (w : World LocalStorageMock),
         (saveToLocalStorage key (UserProfile_value u);;
          loadFromLocalStorage key UserProfileSchema) w
         = (Normal (UserProfile_value u),
            mkWorld (mkLocalStorageMock (<[key := text]> (store (localStorage w))))
              (console w) (clock w)).
Proof.
  intros [data Hdata]. pose proof Hdata as Hvalid.
  apply safeParse_OK, UserProfile_value_parse in Hdata as (-> & Hser & Hjson).
  destruct (JSONFacts.parse_stringify _ Hser ltac:(done)) as (text & Htext & Hne & Hparse).
  rewrite Hjson in Hparse. exists text. split_and!; [done | eauto |].
  intros key w. by apply mock_save_load.
Qed.
End round_trip.

Lemma profile_round_trip_witness :
  valid_profile mockProfile
  /\ exists text,
       JSON.stringify (UserProfile_value mockProfile) = Normal (Some text)
       /\ (exists data,
             JSON.parse text = Normal data
             /\ z.safeParse UserProfileSchema data = SafeParseSuccess (UserProfile_value mockProfile))
       /\ forall key (w : World LocalStorageMock),
            (saveToLocalStorage key (UserProfile_value mockProfile);;
             loadFromLocalStorage key UserProfileSchema) w
            = (Normal (UserProfile_value mockProfile),
               mkWorld (mkLocalStorageMock (<[key := text]> (store (localStorage w))))
                 (console w) (clock w)).
Proof.
  assert (Hvalid : valid_profile mockProfile) by (eexists; reflexivity).
  split; [exact Hvalid |]. exact (profile_round_trip mockProfile Hvalid).
Defined.

(** ** Import of an invalid payload *)

Section import_invalid.
Context {Σ : Type} `{Storage Σ} `{ZodFormats}.

Lemma validateBackup_invalid data issues (w : World Σ) :
  z.safeParse BackupDataSchema data = SafeParseError issues ->
  validateBackup data w =
  (Normal JSNull,
   mkWorld (localStorage w) (console w ++ [mkLogEntry error "Invalid backup data:"])
     (clock w)).
Proof.
  unfold z.safeParse, validateBackup, z_parse, try_catch, lift.
  destruct (z._parse BackupDataSchema [] data); [discriminate | reflexivity].
Qed.

Lemma validateBackup_valid data backup (w : World Σ) :
  z.safeParse BackupDataSchema data = SafeParseSuccess backup ->
  validateBackup data w = (Normal backup, w).
Proof.
  unfold z.safeParse, validateBackup, z_parse, try_catch, lift.
  destruct (z._parse BackupDataSchema [] data); [| discriminate].
  intros [= ->]. reflexivity.
Qed.

Lemma importBackup_invalid data issues (w : World Σ) :
  z.safeParse BackupDataSchema data = SafeParseError issues ->
  importBackup data w =
  (Normal false,
   mkWorld (localStorage w)
     (console w ++ [mkLogEntry log "[BACKUP] Starting import..."]
                ++ [mkLogEntry error "Invalid backup data:"]
                ++ [mkLogEntry error "[BACKUP] Validation failed"])
     (clock w)).
Proof.
  intros Hinvalid. unfold importBackup.
  rewrite run_bind. unfold console_log at 1.
  rewrite run_bind, (validateBackup_invalid _ _ _ Hinvalid).
  run. rewrite <- !app_assoc. reflexivity.
Qed.

(** C1: when the input fails the envelope validation, [importBackup]
    returns [false] and the storage is the one it started with, so the
    profile key reads as before; the call only writes to the console. *)
Theorem importBackup_invalid_is_noop data issues (w : World Σ) :
  z.safeParse BackupDataSchema data = SafeParseError issues ->
  (importBackup data w).1 = Normal false
  /\ localStorage (importBackup data w).2 = localStorage w
  /\ getItem "squaredance-user-profile" (localStorage (importBackup data w).2)
     = getItem "squaredance-user-profile" (localStorage w).
Proof.
  intros Hinvalid. rewrite (importBackup_invalid _ _ _ Hinvalid). auto.
Qed.
End import_invalid.

(** The payload of the specification's scenario, [{ "version": "1.0.0" }],
    imported over a stored profile. *)
Lemma importBackup_invalid_is_noop_witness :
  let data := JSObject [("version", JSString "1.0.0")] in
  let w := mock_world [("squaredance-user-profile", "{}")] 0 in
  z.safeParse BackupDataSchema data
  = SafeParseError [mkIssue invalid_type ["timestamp"]; mkIssue invalid_type ["user"]]
  /\ (importBackup data w).1 = Normal false
  /\ localStorage (importBackup data w).2 = localStorage w
  /\ getItem "squaredance-user-profile" (localStorage (importBackup data w).2)
     = Normal (Some "{}").
Proof.
  intros data w.
  pose proof (importBackup_invalid_is_noop data _ w eq_refl) as (H1 & H2 & H3).
  split; [reflexivity |]. split; [exact H1 |]. split; [exact H2 |].
  rewrite H3. reflexivity.
Defined.

(** ** Validated envelopes *)

Section envelope.
Context `{ZodFormats}.

(** The envelopes that pass [BackupDataSchema]. *)
Lemma BackupDataSchema_OK p data backup :
  z._parse BackupDataSchema p data = OK backup ->
  exists props version timestamp user,
    data = JSObject props
    /\ backup = backup_of version timestamp user
    /\ Obj.get "version" props = JSString version
    /\ Obj.get "timestamp" props = JSNumber timestamp
    /\ z._parse (ZodNullable UserProfileSchema) (p ++ ["user"]) (Obj.get "user" props) = OK user.
Proof.
  intros (props & -> & Hnil & ->)%parse_object_OK. exists props.
  revert Hnil. rewrite !object_pairs_cons.
  set (rest := z.object_pairs z._parse p props []).
  intros Hnil.
  apply merge_pair_nil in Hnil as (v1 & Hv1 & Hnil); [| apply _parse_issues_nonempty].
  apply merge_pair_nil in Hnil as (v2 & Hv2 & Hnil); [| apply _parse_issues_nonempty].
  apply merge_pair_nil in Hnil as (v3 & Hv3 & _); [| apply _parse_issues_nonempty].
  rewrite Hv1, Hv2, Hv3, !merge_pair_OK. cbn [fst snd].
  apply parse_string_OK in Hv1 as (version & Hversion & ->).
  apply parse_number_OK in Hv2 as (timestamp & Htimestamp & ->).
  exists version, timestamp, v3. split; [done |]. split; [| done].
  unfold backup_of, rest. simpl.
  apply parse_nullable_OK in Hv3 as [[_ ->] | (? & _ & _ & ->)%parse_object_OK]; reflexivity.
Qed.

(** C9: the profile of a validated envelope passes the second validation
    in [importBackup], which hands it back as it is; that step never throws. *)
Theorem revalidation_never_fails data backup user :
  z_parse BackupDataSchema data = Normal backup ->
  GetV backup "user" = Normal user ->
  ToBoolean user = true ->
  z_parse UserProfileSchema user = Normal user.
Proof.
  intros Hbackup%z_parse_OK Huser Htruthy.
  apply BackupDataSchema_OK in Hbackup
    as (props & version & timestamp & user' & -> & -> & _ & _ & Huser').
  injection Huser as <-.
  apply parse_nullable_OK in Huser' as [[_ ->] | Huser']; [discriminate |].
  apply z_parse_OK. eapply _parse_idempotent; [apply wf_UserProfileSchema | exact Huser'].
Qed.

Local Arguments z._parse : simpl never.

(** C10: an envelope is accepted whatever string its version is and
    whatever number its timestamp is. *)
Theorem validateBackup_any_version_and_timestamp {Σ} `{Storage Σ}
    (version : string) (timestamp : number) user user' (w : World Σ) :
  z._parse (ZodNullable UserProfileSchema) ["user"] user = OK user' ->
  validateBackup (backup_of version timestamp user) w
  = (Normal (backup_of version timestamp user'), w).
Proof.
  intros Huser. apply validateBackup_valid.
  unfold z.safeParse, BackupDataSchema, z.object, backup_of.
  rewrite _parse_object, !object_pairs_cons. simpl.
  unfold z.string, z.number, z.nullable.
  rewrite Huser, !merge_pair_OK. simpl.
  apply parse_nullable_OK in Huser as [[_ ->] | (? & _ & _ & ->)%parse_object_OK]; reflexivity.
Qed.
End envelope.

Lemma revalidation_never_fails_witness :
  let data := backup_of "1.0.0" (Int 1700000000000) mockUser in
  z_parse BackupDataSchema data = Normal data
  /\ GetV data "user" = Normal mockUser
  /\ ToBoolean mockUser = true
  /\ z_parse UserProfileSchema mockUser = Normal mockUser.
Proof.
  intros data. do 3 (split; [reflexivity |]).
  exact (revalidation_never_fails data data mockUser eq_refl eq_refl eq_refl).
Defined.

Lemma validateBackup_any_version_and_timestamp_witness :
  validateBackup (backup_of "next" (Dec (-5) 1) JSNull) (mock_world [] 0)
  = (Normal (backup_of "next" (Dec (-5) 1) JSNull), mock_world [] 0)
  /\ validateBackup (backup_of "" (Int 0) JSNull) (mock_world [] 0)
     = (Normal (backup_of "" (Int 0) JSNull), mock_world [] 0).
Proof.
  split; apply validateBackup_any_version_and_timestamp; reflexivity.
Defined.

(** ** Import of a valid envelope *)

Section import_valid.
Context `{ZodFormats}.

Lemma importBackup_null data version timestamp (w : World LocalStorageMock) :
  z.safeParse BackupDataSchema data = SafeParseSuccess (backup_of version timestamp JSNull) ->
  importBackup data w
  = (Normal true,
     mkWorld (mkLocalStorageMock (delete "squaredance-user-profile" (store (localStorage w))))
       (console w ++ [mkLogEntry log "[BACKUP] Starting import...";
                      mkLogEntry log "[BACKUP] Backup validated:";
                      mkLogEntry log "[BACKUP] Removing user from localStorage";
                      mkLogEntry log "[BACKUP] Import complete, ready to reload"])
       (clock w)).
Proof.
  intros Hvalid. unfold importBackup.
  rewrite run_bind. unfold console_log at 1.
  rewrite run_bind, (validateBackup_valid _ _ _ Hvalid).
  run. rewrite <- !app_assoc. reflexivity.
Qed.

Lemma importBackup_user data version timestamp props text (w : World LocalStorageMock) :
  z.safeParse BackupDataSchema data
  = SafeParseSuccess (backup_of version timestamp (JSObject props)) ->
  z_parse UserProfileSchema (JSObject props) = Normal (JSObject props) ->
  JSON.stringify (JSObject props) = Normal (Some text) ->
  JSON.parse text = Normal (jsonify (JSObject props)) ->
  importBackup data w
  = (Normal true,
     mkWorld (mkLocalStorageMock (<["squaredance-user-profile" := text]> (store (localStorage w))))
       (console w ++ [mkLogEntry log "[BACKUP] Starting import...";
                      mkLogEntry log "[BACKUP] Backup validated:";
                      mkLogEntry log "[BACKUP] Saving user to localStorage:";
                      mkLogEntry log "[BACKUP] Verify saved:";
                      mkLogEntry log "[BACKUP] Import complete, ready to reload"])
       (clock w)).
Proof.
  intros Hvalid Hagain Htext Hparse. unfold importBackup.
  rewrite run_bind. unfold console_log at 1.
  rewrite run_bind, (validateBackup_valid _ _ _ Hvalid).
  run. rewrite Hagain. simpl. rewrite Htext. simpl. rewrite lookup_insert_eq. simpl.
  rewrite Hparse. simpl. rewrite <- !app_assoc. reflexivity.
Qed.

(** C2: for an input that passes the envelope validation, [importBackup]
    returns [true]; when the envelope's user is [null] the profile key is
    deleted, and otherwise the key holds the JSON text of that user and of
    nothing else, whatever was stored before. *)
Theorem importBackup_replaces data backup (w : World LocalStorageMock) :
  z.safeParse BackupDataSchema data = SafeParseSuccess backup ->
  exists user,
    GetV backup "user" = Normal user
    /\ (importBackup data w).1 = Normal true
    /\ match user with
       | JSNull =>
           store (localStorage (importBackup data w).2)
           = delete "squaredance-user-profile" (store (localStorage w))
       | _ =>
           exists text,
             JSON.stringify user = Normal (Some text)
             /\ JSON.parse text = Normal (jsonify user)
             /\ z.safeParse UserProfileSchema user = SafeParseSuccess user
             /\ store (localStorage (importBackup data w).2)
                = <["squaredance-user-profile" := text]> (store (localStorage w))
       end.
Proof.
  intros Hvalid. pose proof Hvalid as Hbackup.
  apply safeParse_OK, BackupDataSchema_OK in Hbackup
    as (props & version & timestamp & user & -> & -> & _ & _ & Huser).
  exists user. split; [reflexivity |].
  apply parse_nullable_OK in Huser as [[_ ->] | Huser].
  { by rewrite (importBackup_null _ _ _ _ Hvalid). }
  pose proof (_parse_idempotent _ wf_UserProfileSchema _ _ _ Huser []) as Hagain.
  pose proof (_parse_serializable _ wf_UserProfileSchema int_UserProfileSchema _ _ _ Huser)
    as Hser.
  apply parse_object_OK in Huser as (input & _ & _ & Hout).
  set (out := (z.object_pairs z._parse ([] ++ ["user"]) input _).2) in Hout. subst user.
  destruct (JSONFacts.parse_stringify (JSObject out) Hser ltac:(done))
    as (text & Htext & _ & Hparse).
  rewrite (importBackup_user _ _ _ _ text _ Hvalid); [| by apply z_parse_OK | done | done].
  split; [reflexivity |]. exists text. split_and!; try done. by apply safeParse_OK.
Qed.
End import_valid.

Lemma importBackup_replaces_witness :
  let data := backup_of "1.0.0" (Int 1) mockUser in
  let w := mock_world [("squaredance-user-profile", stored_text (JSObject [("name", JSString "Old")]))] 0 in
  z.safeParse BackupDataSchema data = SafeParseSuccess data
  /\ exists user,
       GetV data "user" = Normal user
       /\ (importBackup data w).1 = Normal true
       /\ match user with
          | JSNull =>
              store (localStorage (importBackup data w).2)
              = delete "squaredance-user-profile" (store (localStorage w))
          | _ =>
              exists text,
                JSON.stringify user = Normal (Some text)
                /\ JSON.parse text = Normal (jsonify user)
                /\ z.safeParse UserProfileSchema user = SafeParseSuccess user
                /\ store (localStorage (importBackup data w).2)
                   = <["squaredance-user-profile" := text]> (store (localStorage w))
          end.
Proof.
  intros data w. split; [reflexivity |].
  exact (importBackup_replaces data data w eq_refl).
Defined.

(** The two imports of the test suite, over a stored profile: with a
    [null] user the key is gone, with [mockUser] the key holds [mockUser]
    and nothing of the old profile. *)
Example importBackup_test :
  let w := mock_world [("squaredance-user-profile", stored_text (JSObject [("name", JSString "Old")]))] 0 in
  let w1 := (importBackup (backup_of "1.0.0" (Int 1) JSNull) w).2 in
  let w2 := (importBackup (backup_of "1.0.0" (Int 1) mockUser) w).2 in
  store (localStorage w1) !! "squaredance-user-profile" = None
  /\ JSON.parse <$> store (localStorage w2) !! "squaredance-user-profile"
     = Some (Normal mockUser).
Proof. split; reflexivity. Qed.

(** On a storage that refuses the write, the same import ends in the
    [catch] branch: it returns [false] and the storage is as before. *)
Example importBackup_write_refused :
  importBackup (backup_of "1.0.0" (Int 1) mockUser) (mkWorld refusing [] 0)
  = (Normal false,
     mkWorld refusing
       [mkLogEntry log "[BACKUP] Starting import...";
        mkLogEntry log "[BACKUP] Backup validated:";
        mkLogEntry log "[BACKUP] Saving user to localStorage:";
        mkLogEntry error "[BACKUP] Failed to import backup:"] 0).
Proof. reflexivity. Qed.

(** ** Export *)

Section export.
Context `{ZodFormats}.

Lemma exportBackup_run (w : World LocalStorageMock) :
  exportBackup w =
  match store (localStorage w) !! "squaredance-user-profile" with
  | None | Some "" => (Normal (backup_of "1.0.0" (Int (clock w)) JSNull), w)
  | Some userJson =>
      match JSON.parse userJson with
      | Normal user => (Normal (backup_of "1.0.0" (Int (clock w)) user), w)
      | Throw e => (Throw e, w)
      end
  end.
Proof.
  unfold exportBackup. run.
  destruct (store (localStorage w) !! "squaredance-user-profile") as [[| c userJson] |];
    simpl; reflexivity.
Qed.

(** C5, as the code has it: [exportBackup] applies no schema. With no
    stored profile (or an empty string) the envelope has a [null] user;
    with a stored text that is JSON the envelope carries the parsed value,
    whatever its shape, so every serializable value that was stored is
    exported; in both cases the version is "1.0.0", the timestamp is the
    clock and the world is unchanged. With a stored text that is not JSON
    the [SyntaxError] of [JSON.parse] leaves [exportBackup]. *)
Theorem exportBackup_tolerant (w : World LocalStorageMock) :
  let stored := store (localStorage w) !! "squaredance-user-profile" in
  (stored = None \/ stored = Some "" ->
     exportBackup w = (Normal (backup_of "1.0.0" (Int (clock w)) JSNull), w))
  /\ (forall userJson user,
        stored = Some userJson -> JSON.parse userJson = Normal user ->
        exportBackup w = (Normal (backup_of "1.0.0" (Int (clock w)) user), w))
  /\ (forall v userJson,
        serializable v -> JSON.stringify v = Normal (Some userJson) ->
        stored = Some userJson ->
        exportBackup w = (Normal (backup_of "1.0.0" (Int (clock w)) (jsonify v)), w))
  /\ (forall userJson e,
        stored = Some userJson -> JSON.parse userJson = Throw e ->
        userJson <> "" ->
        exportBackup w = (Throw e, w)).
Proof.
  intros stored. rewrite exportBackup_run. fold stored.
  assert (Hparsed : forall userJson user,
            stored = Some userJson -> JSON.parse userJson = Normal user ->
            match stored with
            | None | Some "" => (Normal (backup_of "1.0.0" (Int (clock w)) JSNull), w)
            | Some userJson =>
                match JSON.parse userJson with
                | Normal user => (Normal (backup_of "1.0.0" (Int (clock w)) user), w)
                | Throw e => (Throw e, w)
                end
            end = (Normal (backup_of "1.0.0" (Int (clock w)) user), w)).
  { intros userJson user -> Huser. destruct userJson; [discriminate Huser |].
    by rewrite Huser. }
  split_and!.
  - by intros [-> | ->].
  - exact Hparsed.
  - intros v userJson Hser Htext Hstored.
    destruct (JSONFacts.parse_stringify v Hser) as (text & Htext' & _ & Hparse).
    { intros ->. discriminate Htext. }
    rewrite Htext in Htext'. injection Htext' as <-. by apply (Hparsed userJson).
  - intros userJson e -> He Hne. destruct userJson; [done |]. by rewrite He.
Qed.
End export.

(** [exportBackup] does not succeed in every store state: with the profile
    key holding "test1", as [clearAllLocalStorage]'s test sets it,
    [JSON.parse] throws and [exportBackup] has no handler. *)
Lemma exportBackup_throws_on_malformed :
  let w := mock_world [("squaredance-user-profile", "test1")] 1700000000000 in
  exportBackup w = (Throw SyntaxError, w)
  /\ ~ exists backup w', exportBackup w = (Normal backup, w').
Proof.
  intros w. split; [reflexivity |]. intros (backup & w' & Hexport). discriminate Hexport.
Qed.

(** The scenario of the empty store, a stored profile, a stored value that
    is JSON but no profile, and a stored text that is not JSON. *)
Lemma exportBackup_tolerant_witness :
  let key := "squaredance-user-profile" in
  let drifted := JSObject [("name", JSNumber (Int 42))] in
  exportBackup (mock_world [] 5) = (Normal (backup_of "1.0.0" (Int 5) JSNull), mock_world [] 5)
  /\ exportBackup (mock_world [(key, stored_text mockUser)] 5)
     = (Normal (backup_of "1.0.0" (Int 5) mockUser), mock_world [(key, stored_text mockUser)] 5)
  /\ exportBackup (mock_world [(key, stored_text drifted)] 5)
     = (Normal (backup_of "1.0.0" (Int 5) drifted), mock_world [(key, stored_text drifted)] 5)
  /\ exportBackup (mock_world [(key, "not valid json")] 5)
     = (Throw SyntaxError, mock_world [(key, "not valid json")] 5).
Proof.
  intros key drifted. split_and!.
  - apply (exportBackup_tolerant (mock_world [] 5)). by left.
  - by eapply (exportBackup_tolerant (mock_world [(key, stored_text mockUser)] 5)).
  - apply (proj1 (proj2 (proj2 (exportBackup_tolerant (mock_world [(key, stored_text drifted)] 5))))
             drifted (stored_text drifted)); [| reflexivity | reflexivity].
    simpl. split; [| done]. by apply (bool_decide_unpack _).
  - by eapply (exportBackup_tolerant (mock_world [(key, "not valid json")] 5)).
Defined.

(** ** Names that the forms accept *)

Lemma trimStart_length cs : (length (trimStart cs) <= length cs)%nat.
Proof.
  induction cs as [| c cs IH]; simpl; [lia |]. destruct (is_space c); simpl; lia.
Qed.

Lemma trimStart_id cs :
  trimStart cs = cs <-> forall c, head cs = Some c -> is_space c = false.
Proof.
  destruct cs as [| c cs]; simpl; [split; [discriminate | done] |].
  destruct (is_space c) eqn:Hc; split.
  - intros Hcs. pose proof (trimStart_length cs) as Hlen. rewrite Hcs in Hlen.
    simpl in Hlen. lia.
  - intros Hhead. specialize (Hhead c eq_refl). congruence.
  - by intros _ c' [= <-].
  - done.
Qed.

Lemma trimStart_shorter cs : trimStart cs <> cs -> (length (trimStart cs) < length cs)%nat.
Proof.
  destruct cs as [| c cs]; simpl; [done |].
  destruct (is_space c); [| done]. intros _. pose proof (trimStart_length cs). lia.
Qed.

Lemma head_rev {A} (l : list A) : head (rev l) = last l.
Proof.
  induction l as [| a l IH] using rev_ind; [done |].
  by rewrite rev_app_distr, last_snoc.
Qed.

(** [value.trim()] is [value] when neither end of [value] is a space. *)
Lemma trim_id value :
  trim value = value
  <-> (forall c, head (list_ascii_of_string value) = Some c -> is_space c = false)
      /\ (forall c, last (list_ascii_of_string value) = Some c -> is_space c = false).
Proof.
  unfold trim. set (cs := list_ascii_of_string value).
  rewrite <- (trimStart_id cs), <- head_rev. rewrite <- (trimStart_id (rev cs)).
  split.
  - intros Heq. apply (f_equal list_ascii_of_string) in Heq.
    rewrite list_ascii_of_string_of_list_ascii in Heq. fold cs in Heq.
    assert (Hlen : length (trimStart (rev (trimStart cs))) = length cs).
    { rewrite <- Heq at 2. by rewrite length_rev. }
    pose proof (trimStart_length (rev (trimStart cs))) as H1.
    pose proof (trimStart_length cs) as H2. rewrite length_rev in H1.
    assert (Hstart : trimStart cs = cs).
    { destruct (decide (trimStart cs = cs)) as [| Hne]; [done |].
      apply trimStart_shorter in Hne. lia. }
    split; [done |]. rewrite Hstart in Hlen.
    destruct (decide (trimStart (rev cs) = rev cs)) as [| Hne]; [done |].
    apply trimStart_shorter in Hne. rewrite length_rev in Hne. lia.
  - intros [-> ->]. rewrite rev_involutive. apply string_of_list_ascii_of_string.
Qed.

Lemma string_length_list value : String.length value = length (list_ascii_of_string value).
Proof. induction value; simpl; congruence. Qed.

(** X1: [validateName] returns [null] exactly for the names of 1 to 20
    characters, all of them letters, digits, white space, dash or
    underscore, that neither start nor end with white space. *)
Theorem validateName_accepts value :
  validateName value = None
  <-> (1 <= String.length value <= 20)%nat
      /\ forallb validChar (list_ascii_of_string value) = true
      /\ (forall c, head (list_ascii_of_string value) = Some c -> is_space c = false)
      /\ (forall c, last (list_ascii_of_string value) = Some c -> is_space c = false).
Proof.
  unfold validateName, validCharPattern_test.
  pose proof (trim_id value) as Htrim_id.
  destruct (String.eqb_spec value "") as [-> | Hempty].
  { split; [discriminate | simpl; lia]. }
  assert (Hlen : (1 <= String.length value)%nat).
  { destruct value; [done | simpl; lia]. }
  destruct (Nat.ltb_spec 20 (String.length value)).
  { split; [discriminate | lia]. }
  destruct (list_ascii_of_string value) as [| c cs] eqn:Hcs.
  { rewrite string_length_list, Hcs in Hlen. simpl in Hlen. lia. }
  destruct (forallb validChar (c :: cs)); simpl.
  - destruct (String.eqb_spec value (trim value)) as [Htrim | Htrim]; simpl.
    + symmetry in Htrim. apply Htrim_id in Htrim as [? ?].
      split; [intros _ | done]. split_and!; try done; lia.
    + split; [discriminate |]. intros (_ & _ & ? & ?). destruct Htrim. symmetry.
      by apply Htrim_id.
  - split; [discriminate | intros (_ & ? & _); discriminate].
Qed.

Lemma validateName_accepts_witness :
  validateName "Bob Smith-99_" = None
  /\ (1 <= String.length "Bob Smith-99_" <= 20)%nat.
Proof.
  split; [reflexivity |].
  apply (proj1 (validateName_accepts "Bob Smith-99_") eq_refl).
Defined.


(** ** What [JSON.parse] returns *)

Lemma json_value_array elements :
  json_value (JSArray elements) <-> Forall json_value elements.
Proof.
  simpl. induction elements as [| v vs IH]; [split; auto |].
  rewrite Forall_cons, IH. reflexivity.
Qed.

Lemma json_value_object props :
  json_value (JSObject props) <-> Forall (fun kv => json_value kv.2) props.
Proof.
  simpl. induction props as [| [k v] props IH]; [split; auto |].
  rewrite Forall_cons, IH. reflexivity.
Qed.

Lemma jsonify_json v : json_value v -> jsonify v = v.
Proof.
  induction v as [| | b | n | z | s | elements IH | props IH] using JSValue_ind';
    try done.
  - intros Hjson%json_value_array. simpl. f_equal.
    induction IH as [| v vs IHv _ IHvs]; [done |].
    apply Forall_cons in Hjson as [Hv Hvs]. simpl. by rewrite IHv, IHvs.
  - intros Hjson%json_value_object. simpl. f_equal.
    induction IH as [| [k v] ps IHv _ IHps]; [done |].
    apply Forall_cons in Hjson as [Hv Hps]. simpl in *.
    rewrite (IHps Hps). destruct v; try done; by rewrite (IHv Hv).
Qed.

Lemma Obj_set_json k v props :
  json_value v -> Forall (fun kv => json_value kv.2) props ->
  Forall (fun kv => json_value kv.2) (Obj.set k v props).
Proof.
  intros Hv. induction 1 as [| [k' w] props Hw Hprops IH]; simpl.
  - by repeat constructor.
  - destruct (String.eqb k' k); constructor; auto.
Qed.

Lemma object_of_json ms :
  Forall (fun kv => json_value kv.2) ms -> json_value (JSON.object_of ms).
Proof.
  unfold JSON.object_of. intros Hms. apply json_value_object.
  enough (Hgen : forall acc, Forall (fun kv => json_value kv.2) acc ->
            Forall (fun kv => json_value kv.2)
              (fold_left (fun props kv => Obj.set kv.1 kv.2 props) ms acc))
    by (apply Hgen; constructor).
  induction Hms as [| [k v] ms Hv Hms IH]; intros acc Hacc; simpl; [done |].
  apply IH. by apply Obj_set_json.
Qed.

Module ParseFacts.
Import JSON.

Local Arguments parse_value : simpl never.
Local Arguments parse_elements : simpl never.
Local Arguments parse_members : simpl never.

Ltac parser_case H :=
  match type of H with
  | context [skip_ws ?s] => destruct (skip_ws s) eqn:?; [discriminate H |]
  | context [parse_value ?f ?s] =>
      let Hp := fresh "Hp" in
      destruct (parse_value f s) as [[? ?] |] eqn:Hp; [| discriminate H];
      match goal with
      | IH : forall s v r, parse_value f s = Some (v, r) -> _ |- _ => apply IH in Hp
      end; cbn [mbind option_bind] in H
  | context [parse_elements ?f ?s] =>
      let Hp := fresh "Hp" in
      destruct (parse_elements f s) as [[? ?] |] eqn:Hp; [| discriminate H];
      match goal with
      | IH : forall s v r, parse_elements f s = Some (v, r) -> _ |- _ => apply IH in Hp
      end; cbn [mbind option_bind] in H
  | context [parse_members ?f ?s] =>
      let Hp := fresh "Hp" in
      destruct (parse_members f s) as [[? ?] |] eqn:Hp; [| discriminate H];
      match goal with
      | IH : forall s v r, parse_members f s = Some (v, r) -> _ |- _ => apply IH in Hp
      end; cbn [mbind option_bind] in H
  | context [strip_prefix ?l ?s] =>
      destruct (strip_prefix l s); [| discriminate H]; cbn [mbind option_bind] in H
  | context [read_string ?n ?s] =>
      destruct (read_string n s) as [[? ?] |]; [| discriminate H];
      cbn [mbind option_bind] in H
  | context [read_number ?s] =>
      destruct (read_number s) as [[? ?] |]; [| discriminate H];
      cbn [mbind option_bind] in H
  | context [if ?b then _ else _] => destruct b; try discriminate H
  end.

Lemma parse_value_json f :
  (forall s v r, parse_value f s = Some (v, r) -> json_value v)
  /\ (forall s vs r, parse_elements f s = Some (vs, r) -> Forall json_value vs)
  /\ (forall s ms r, parse_members f s = Some (ms, r) ->
        Forall (fun kv => json_value kv.2) ms).
Proof.
  induction f as [| f (IHv & IHe & IHm)]; [split_and!; intros; discriminate |].
  split_and!.
  - intros s v r H. rewrite FuelFacts.parse_value_unfold in H.
    repeat parser_case H.
    all: injection H as <- _; try done.
    + by apply json_value_array.
    + by apply object_of_json.
  - intros s v r H. rewrite FuelFacts.parse_elements_unfold in H.
    repeat parser_case H.
    all: injection H as <- _; by repeat constructor.
  - intros s v r H. rewrite FuelFacts.parse_members_unfold in H.
    repeat parser_case H.
    all: injection H as <- _; by repeat constructor.
Qed.

(** [JSON.parse] returns a value of JSON. *)
Lemma parse_json text v : JSON.parse text = Normal v -> json_value v.
Proof.
  unfold JSON.parse. destruct (parse_value _ _) as [[v' rest] |] eqn:Hv; [| discriminate].
  destruct (skip_ws rest); [| discriminate]. intros [= <-].
  by eapply (parse_value_json _).
Qed.
End ParseFacts.

(** ** Schemas on values of JSON *)

Section schema_json.
Context `{ZodFormats}.

Lemma Obj_get_json k props :
  Forall (fun kv => json_value kv.2) props ->
  json_value (Obj.get k props)
  \/ (Obj.get k props = JSUndefined /\ Obj.has k props = false).
Proof.
  induction 1 as [| [k' v] props Hv Hprops IH]; simpl; [auto |].
  destruct (String.eqb k' k); simpl; auto.
Qed.

(** A schema turns a value of JSON into a value of JSON; [undefined], the
    value of a property that is not there, stays [undefined]. *)
Lemma _parse_json t p input v :
  json_value input \/ input = JSUndefined ->
  z._parse t p input = OK v ->
  json_value v \/ (v = JSUndefined /\ input = JSUndefined).
Proof.
  revert p input v.
  induction t as [cs | cs | | shape IH | t IH | t IH] using ZodType_ind';
    intros p input v Hinput Hv.
  - apply parse_string_OK in Hv as (s & _ & ->). by left.
  - apply parse_number_OK in Hv as (n & _ & ->). by left.
  - destruct input; try discriminate. injection Hv as <-. by left.
  - apply parse_object_OK in Hv as (props & -> & Hnil & ->). left.
    destruct Hinput as [Hprops%json_value_object | ?]; [| done].
    apply json_value_object. revert Hnil.
    induction shape as [| [key t] shape IHshape]; [constructor |].
    apply Forall_cons in IH as [IHt IH]. intros Hnil.
    apply object_pairs_step in Hnil as (w & Hw & Hnil & ->).
    apply Forall_app. split; [| by apply IHshape].
    simpl in IHt. apply IHt in Hw.
    + destruct Hw as [Hw | [-> Hget]].
      * destruct w; try done; by repeat constructor.
      * destruct (Obj_get_json key props Hprops) as [Hjson | [_ ->]]; [| constructor].
        rewrite Hget in Hjson. destruct Hjson.
    + destruct (Obj_get_json key props Hprops) as [? | [? _]]; auto.
  - destruct input; simpl in Hv; try (by eapply IH).
    injection Hv as <-. by right.
  - destruct input; simpl in Hv; try (by eapply IH).
    injection Hv as <-. by left.
Qed.

Lemma safeParse_json t data v :
  json_value data -> z.safeParse t data = SafeParseSuccess v -> json_value v.
Proof.
  intros Hdata Hv%safeParse_OK.
  destruct (_parse_json t [] data v (or_introl Hdata) Hv) as [| [_ ->]]; [done |].
  destruct Hdata.
Qed.

Lemma safeParse_nullable t data :
  z.safeParse (ZodNullable t) data
  = match data with
    | JSNull => SafeParseSuccess JSNull
    | _ => z.safeParse t data
    end.
Proof. by destruct data. Qed.

(** What [loadFromLocalStorage] returns under a nullable schema is a value
    that the schema accepts as it is, can be written as JSON and is read
    back from that text. *)
Lemma loaded_nullable {Σ} `{Storage Σ} key t (σ : Σ) :
  wf_schema t -> int_schema t ->
  let v := loaded key (ZodNullable t) σ in
  z.safeParse (ZodNullable t) v = SafeParseSuccess v
  /\ serializable v /\ json_value v.
Proof.
  intros Hwf Hint. unfold loaded.
  destruct (getItem key σ) as [[json |] | e]; try done.
  destruct (JSON.parse json) as [data | e] eqn:Hdata; try done.
  destruct (z.safeParse (ZodNullable t) data) as [v | issues] eqn:Hv; try done.
  apply ParseFacts.parse_json in Hdata. split_and!.
  - apply safeParse_OK. apply safeParse_OK in Hv.
    by eapply (_parse_idempotent (ZodNullable t)).
  - apply safeParse_OK in Hv. by eapply (_parse_serializable (ZodNullable t)).
  - by eapply safeParse_json.
Qed.
End schema_json.

(** ** [App]: the first render *)

Section App_facts.
Context `{ZodFormats}.

Lemma initialState_null {Σ} `{Storage Σ} key schema (w : World Σ) :
  exists lines,
    initialState key schema JSNull w
    = (Normal (loaded key schema (localStorage w)),
       mkWorld (localStorage w) (console w ++ lines) (clock w)).
Proof.
  unfold initialState. rewrite run_bind.
  destruct (loadFromLocalStorage_run key schema w) as [lines ->].
  exists lines. unfold mret, M_ret. by destruct (loaded _ _ _).
Qed.

Lemma App_run (w : World LocalStorageMock) :
  let savedUser :=
    loaded "squaredance-user-profile" (ZodNullable UserProfileSchema) (localStorage w) in
  exists text lines,
    App w
    = (Normal savedUser,
       mkWorld (mkLocalStorageMock
                  (<["squaredance-user-profile" := text]> (store (localStorage w))))
         (console w ++ lines) (clock w))
    /\ JSON.stringify savedUser = Normal (Some text)
    /\ text <> ""
    /\ JSON.parse text = Normal savedUser
    /\ z.safeParse (ZodNullable UserProfileSchema) savedUser = SafeParseSuccess savedUser.
Proof.
  intros savedUser.
  destruct (loaded_nullable "squaredance-user-profile" UserProfileSchema (localStorage w)
              wf_UserProfileSchema int_UserProfileSchema) as (Hvalid & Hser & Hjson).
  fold savedUser in Hvalid, Hser, Hjson.
  destruct (JSONFacts.parse_stringify savedUser Hser) as (text & Htext & Hne & Hparse).
  { intros Heq. rewrite Heq in Hjson. destruct Hjson. }
  rewrite (jsonify_json _ Hjson) in Hparse.
  destruct (initialState_null "squaredance-user-profile" (ZodNullable UserProfileSchema) w)
    as [lines Hinit].
  exists text, lines. split_and!; try done.
  unfold App, useLocalStorage, z.nullable. rewrite run_bind, Hinit. fold savedUser.
  rewrite run_bind, saveToLocalStorage_run, Htext. reflexivity.
Qed.

(** X2: [App] starts on the key-value storage with [savedUser] the stored
    profile if the schema accepts it and [null] otherwise; the effect then
    writes [savedUser] back, so the profile key holds the JSON text of
    [savedUser] whatever it held before, and the other keys are as they
    were. *)
Theorem App_start (w : World LocalStorageMock) :
  exists savedUser text,
    (App w).1 = Normal savedUser
    /\ savedUser
       = loaded "squaredance-user-profile" (ZodNullable UserProfileSchema) (localStorage w)
    /\ z.safeParse (ZodNullable UserProfileSchema) savedUser = SafeParseSuccess savedUser
    /\ store (localStorage (App w).2)
       = <["squaredance-user-profile" := text]> (store (localStorage w))
    /\ JSON.stringify savedUser = Normal (Some text)
    /\ JSON.parse text = Normal savedUser
    /\ (App_screen savedUser = WelcomeScreen <-> savedUser = JSNull).
Proof.
  destruct (App_run w) as (text & lines & Hrun & Htext & _ & Hparse & Hvalid).
  eexists _, text. rewrite Hrun. split_and!; try done.
  set (savedUser := loaded _ _ _) in *. clearbody savedUser.
  apply safeParse_OK, parse_nullable_OK in Hvalid as [[-> _] | Hvalid]; [done |].
  apply parse_object_OK in Hvalid as (props & -> & _). done.
Qed.

(** X3: a stored text that the profile schema does not accept is lost when
    [App] starts: the welcome screen is shown and the profile key then
    holds the text "null". *)
Theorem App_discards_invalid_profile userJson (w : World LocalStorageMock) :
  store (localStorage w) !! "squaredance-user-profile" = Some userJson ->
  (forall data, JSON.parse userJson = Normal data ->
     exists issues, z.safeParse UserProfileSchema data = SafeParseError issues) ->
  (App w).1 = Normal JSNull
  /\ App_screen JSNull = WelcomeScreen
  /\ store (localStorage (App w).2)
     = <["squaredance-user-profile" := "null"]> (store (localStorage w)).
Proof.
  intros Hstored Hinvalid.
  destruct (App_run w) as (text & lines & Hrun & Htext & _ & _ & _). revert Hrun Htext.
  assert (Hloaded : loaded "squaredance-user-profile" (ZodNullable UserProfileSchema)
                      (localStorage w) = JSNull).
  { unfold loaded. cbn [getItem LocalStorageMock_Storage]. rewrite Hstored.
    destruct (JSON.parse userJson) as [data | e]; [| done].
    destruct (Hinvalid data eq_refl) as [issues Hissues].
    rewrite safeParse_nullable. destruct data; try done; by rewrite Hissues. }
  rewrite Hloaded. intros -> [= <-]. done.
Qed.

(** X4: starting [App] a second time changes neither [savedUser] nor the
    storage. *)
Theorem App_restart (w : World LocalStorageMock) :
  (App (App w).2).1 = (App w).1
  /\ localStorage (App (App w).2).2 = localStorage (App w).2.
Proof.
  destruct (App_run w) as (text & lines & Hrun & Htext & Hne & Hparse & Hvalid).
  rewrite Hrun. cbn [fst snd].
  set (w1 := mkWorld _ _ _).
  destruct (App_run w1) as (text1 & lines1 & Hrun1 & Htext1 & _).
  rewrite Hrun1. cbn [fst snd localStorage].
  assert (Hloaded : loaded "squaredance-user-profile" (ZodNullable UserProfileSchema)
                      (localStorage w1)
                    = loaded "squaredance-user-profile" (ZodNullable UserProfileSchema)
                        (localStorage w)).
  { unfold loaded at 1. cbn [getItem LocalStorageMock_Storage w1 localStorage store].
    rewrite lookup_insert_eq, Hparse, Hvalid. done. }
  rewrite Hloaded in Htext1 |- *. split; [done |].
  rewrite Htext in Htext1. injection Htext1 as <-.
  unfold w1. simpl. by rewrite insert_insert_eq.
Qed.
End App_facts.

Lemma App_discards_invalid_profile_witness :
  let drifted := stored_text (JSObject [("name", JSString "Old")]) in
  let w := mock_world [("squaredance-user-profile", drifted)] 0 in
  (App w).1 = Normal JSNull
  /\ store (localStorage (App w).2) !! "squaredance-user-profile" = Some "null".
Proof.
  intros drifted w.
  destruct (App_discards_invalid_profile drifted w eq_refl) as (Hnull & _ & Hstore).
  { intros data [= <-]. by eexists. }
  split; [exact Hnull |]. rewrite Hstore. reflexivity.
Defined.

Section App_any_storage.
Context {Σ : Type} `{Storage Σ} `{ZodFormats}.

(** X5: [App] starts on every storage without throwing, with [savedUser]
    [null] or a profile that the schema accepts. When the storage refuses to
    be read, [savedUser] is [null] and the welcome screen is shown; when it
    refuses the write of the effect, it is left as it was. *)
Theorem App_never_throws (w : World Σ) :
  exists savedUser,
    (App w).1 = Normal savedUser
    /\ savedUser
       = loaded "squaredance-user-profile" (ZodNullable UserProfileSchema) (localStorage w)
    /\ (savedUser = JSNull
        \/ z.safeParse UserProfileSchema savedUser = SafeParseSuccess savedUser)
    /\ (forall e, getItem "squaredance-user-profile" (localStorage w) = Throw e ->
          savedUser = JSNull /\ App_screen savedUser = WelcomeScreen)
    /\ (forall text e,
          JSON.stringify savedUser = Normal text ->
          setItem "squaredance-user-profile" (ToString_undefined text) (localStorage w)
          = Throw e ->
          localStorage (App w).2 = localStorage w).
Proof.
  destruct (loaded_nullable "squaredance-user-profile" UserProfileSchema (localStorage w)
              wf_UserProfileSchema int_UserProfileSchema) as (Hvalid & _ & _).
  destruct (initialState_null "squaredance-user-profile" (ZodNullable UserProfileSchema) w)
    as [lines Hinit].
  set (savedUser := loaded _ _ _) in *.
  assert (Hrun : App w
            = (Normal savedUser,
               (saveToLocalStorage "squaredance-user-profile" savedUser
                  (mkWorld (localStorage w) (console w ++ lines) (clock w))).2)).
  { unfold App, useLocalStorage, z.nullable. rewrite run_bind, Hinit, run_bind.
    rewrite saveToLocalStorage_run.
    destruct (JSON.stringify savedUser); [destruct (setItem _ _ _) |]; reflexivity. }
  exists savedUser. rewrite Hrun. cbn [fst snd]. split_and!; try done.
  - rewrite safeParse_nullable in Hvalid. destruct savedUser; auto.
  - intros e He. unfold savedUser, loaded. by rewrite He.
  - intros text e Htext Hset. rewrite saveToLocalStorage_run, Htext.
    cbn [localStorage]. by rewrite Hset.
Qed.
End App_any_storage.



(** ** The forms: creating and renaming a profile *)

Lemma validateName_length value :
  validateName value = None -> (1 <= String.length value <= 20)%nat.
Proof.
  unfold validateName. destruct (String.eqb_spec value ""); [discriminate |].
  destruct (Nat.ltb_spec 20 (String.length value)); [discriminate |]. intros _.
  destruct value; [done | simpl in *; lia].
Qed.

Lemma validateName_trim value : validateName value = None -> trim value = value.
Proof.
  unfold validateName. repeat case_match; try discriminate. intros _.
  match goal with Heq : negb (value =? trim value)%string = false |- _ =>
    apply negb_false_iff, String.eqb_eq in Heq end. done.
Qed.

Section forms.
Context `{ZodFormats}.

Lemma valid_profile_text u :
  valid_profile u ->
  exists text,
    JSON.stringify (UserProfile_value u) = Normal (Some text)
    /\ JSON.parse text = Normal (UserProfile_value u)
    /\ z.safeParse UserProfileSchema (UserProfile_value u)
       = SafeParseSuccess (UserProfile_value u).
Proof.
  intros [data Hdata]. pose proof Hdata as Hvalid.
  apply safeParse_OK, UserProfile_value_parse in Hdata as (-> & Hser & Hjson).
  destruct (JSONFacts.parse_stringify _ Hser ltac:(done)) as (text & Htext & _ & Hparse).
  rewrite Hjson in Hparse. eauto.
Qed.

(** Saving a valid profile as the state of [App], and what the next start
    of [App] finds. *)
Lemma setValue_profile u (w : World LocalStorageMock) :
  valid_profile u ->
  exists text,
    setValue "squaredance-user-profile" (UserProfile_value u) w
    = (Normal (UserProfile_value u),
       mkWorld (mkLocalStorageMock
                  (<["squaredance-user-profile" := text]> (store (localStorage w))))
         (console w) (clock w))
    /\ JSON.stringify (UserProfile_value u) = Normal (Some text)
    /\ JSON.parse text = Normal (UserProfile_value u)
    /\ forall lines now,
         (App (mkWorld (mkLocalStorageMock
                          (<["squaredance-user-profile" := text]> (store (localStorage w))))
                 lines now)).1
         = Normal (UserProfile_value u).
Proof.
  intros (text & Htext & Hparse & Hvalid)%valid_profile_text. exists text.
  split_and!; try done.
  - unfold setValue. rewrite run_bind, saveToLocalStorage_run, Htext. reflexivity.
  - intros lines now.
    destruct (App_run (mkWorld (mkLocalStorageMock
                (<["squaredance-user-profile" := text]> (store (localStorage w)))) lines now))
      as (text' & lines' & -> & _).
    cbn [fst]. f_equal. unfold loaded.
    cbn [getItem LocalStorageMock_Storage localStorage store].
    rewrite lookup_insert_eq, Hparse, safeParse_nullable.
    unfold UserProfile_value at 1. by rewrite Hvalid.
Qed.

(** X6: a name that the welcome form accepts makes a profile that the
    schema accepts, given an identifier in [uuid] format and a clock past
    the epoch: [handleSubmit] stores that profile under the profile key, and
    the next start of [App] has it as [savedUser]. *)
Theorem handleSubmit_creates_valid_profile uuidv4 name (w : World LocalStorageMock) :
  uuidRegex_test uuidv4 = true -> 0 < clock w -> validateName name = None ->
  let user := UserProfile_value (newProfile uuidv4 name (clock w)) in
  exists text,
    (handleSubmit uuidv4 name w).1 = Normal (inr user)
    /\ z.safeParse UserProfileSchema user = SafeParseSuccess user
    /\ store (localStorage (handleSubmit uuidv4 name w).2)
       = <["squaredance-user-profile" := text]> (store (localStorage w))
    /\ JSON.parse text = Normal user
    /\ (App (handleSubmit uuidv4 name w).2).1 = Normal user.
Proof.
  intros Hid Hnow Hname user.
  assert (Hvalid : valid_profile (newProfile uuidv4 name (clock w))).
  { apply valid_profile_iff. pose proof (validateName_length _ Hname). simpl. split_and!; try done; lia. }
  pose proof (valid_profile_text _ Hvalid) as (_ & _ & _ & Hsafe).
  destruct (setValue_profile _ w Hvalid) as (text & Hset & _ & Hparse & HApp).
  exists text.
  assert (Hrun : handleSubmit uuidv4 name w
                 = (Normal (inr user),
                    mkWorld (mkLocalStorageMock
                      (<["squaredance-user-profile" := text]> (store (localStorage w))))
                      (console w) (clock w))).
  { unfold handleSubmit. rewrite Hname, (validateName_trim _ Hname).
    rewrite run_bind. unfold Date_now. rewrite run_bind. unfold handleCreateProfile.
    change (JSObject _) with user. unfold user. rewrite Hset. reflexivity. }
  rewrite Hrun. split_and!; try done. apply HApp.
Qed.

Lemma spread_set_name u name :
  JSObject (Obj.set "name" (JSString name) (spread (UserProfile_value u)))
  = UserProfile_value (renamed u name).
Proof. reflexivity. Qed.

(** X7: saving the profile form with a name it accepts keeps every field of
    a valid profile but the name, and the result is a valid profile again:
    [handleSave] stores it under the profile key, and the next start of [App]
    has it as [savedUser]. *)
Theorem handleSave_keeps_profile_valid u name (w : World LocalStorageMock) :
  valid_profile u -> validateName name = None ->
  let user := UserProfile_value (renamed u name) in
  exists text,
    (handleSave (UserProfile_value u) name w).1 = Normal (inr user)
    /\ z.safeParse UserProfileSchema user = SafeParseSuccess user
    /\ store (localStorage (handleSave (UserProfile_value u) name w).2)
       = <["squaredance-user-profile" := text]> (store (localStorage w))
    /\ JSON.parse text = Normal user
    /\ (App (handleSave (UserProfile_value u) name w).2).1 = Normal user.
Proof.
  intros Hu Hname user.
  assert (Hvalid : valid_profile (renamed u name)).
  { apply valid_profile_iff. apply valid_profile_iff in Hu.
    pose proof (validateName_length _ Hname). simpl. by destruct Hu as (? & _ & ?). }
  pose proof (valid_profile_text _ Hvalid) as (_ & _ & _ & Hsafe).
  destruct (setValue_profile _ w Hvalid) as (text & Hset & _ & Hparse & HApp).
  exists text.
  assert (Hrun : handleSave (UserProfile_value u) name w
                 = (Normal (inr user),
                    mkWorld (mkLocalStorageMock
                      (<["squaredance-user-profile" := text]> (store (localStorage w))))
                      (console w) (clock w))).
  { unfold handleSave. rewrite Hname, (validateName_trim _ Hname), spread_set_name.
    rewrite run_bind. unfold handleUpdateProfile. fold user. unfold user.
    rewrite Hset. reflexivity. }
  rewrite Hrun. split_and!; try done. apply HApp.
Qed.
End forms.

Lemma handleSubmit_creates_valid_profile_witness :
  let id := "123e4567-e89b-12d3-a456-426614174000" in
  let w := mock_world [] 1700000000000 in
  let user := UserProfile_value (newProfile id "Bob Smith-99_" 1700000000000) in
  (uuidRegex_test id = true /\ 0 < clock w /\ validateName "Bob Smith-99_" = None)
  /\ exists text,
       (handleSubmit id "Bob Smith-99_" w).1 = Normal (inr user)
       /\ z.safeParse UserProfileSchema user = SafeParseSuccess user
       /\ store (localStorage (handleSubmit id "Bob Smith-99_" w).2)
          = <["squaredance-user-profile" := text]> (store (localStorage w))
       /\ JSON.parse text = Normal user
       /\ (App (handleSubmit id "Bob Smith-99_" w).2).1 = Normal user.
Proof.
  intros id w user. split; [split_and!; reflexivity |].
  exact (handleSubmit_creates_valid_profile id "Bob Smith-99_" w eq_refl eq_refl eq_refl).
Defined.

Lemma handleSave_keeps_profile_valid_witness :
  let w := mock_world [] 0 in
  let user := UserProfile_value (renamed mockProfile "Caller Two") in
  (valid_profile mockProfile /\ validateName "Caller Two" = None)
  /\ exists text,
       (handleSave (UserProfile_value mockProfile) "Caller Two" w).1 = Normal (inr user)
       /\ z.safeParse UserProfileSchema user = SafeParseSuccess user
       /\ store (localStorage (handleSave (UserProfile_value mockProfile) "Caller Two" w).2)
          = <["squaredance-user-profile" := text]> (store (localStorage w))
       /\ JSON.parse text = Normal user
       /\ (App (handleSave (UserProfile_value mockProfile) "Caller Two" w).2).1 = Normal user.
Proof.
  intros w user.
  assert (Hvalid : valid_profile mockProfile) by (eexists; reflexivity).
  split; [split; [exact Hvalid | reflexivity] |].
  exact (handleSave_keeps_profile_valid mockProfile "Caller Two" w Hvalid eq_refl).
Defined.

Section forms_any_storage.
Context {Σ : Type} `{Storage Σ} `{ZodFormats}.

(** X8: the welcome form is not told of a failed save. For a name that the
    form accepts, when the storage refuses the write, [handleSubmit] still
    hands the new profile on as the state of [App]; the storage is as before
    and the failure is one line on the console. *)
Theorem handleSubmit_not_told_of_failed_save uuidv4 name text e (w : World Σ) :
  validateName name = None ->
  let user := UserProfile_value (newProfile uuidv4 name (clock w)) in
  JSON.stringify user = Normal text ->
  setItem "squaredance-user-profile" (ToString_undefined text) (localStorage w) = Throw e ->
  handleSubmit uuidv4 name w
  = (Normal (inr user),
     mkWorld (localStorage w)
       (console w ++ [mkLogEntry error "Failed to save to localStorage:"]) (clock w)).
Proof.
  intros Hname user Htext Hset.
  unfold handleSubmit. rewrite Hname, (validateName_trim _ Hname).
  rewrite run_bind. unfold Date_now. rewrite run_bind.
  unfold handleCreateProfile, setValue. rewrite run_bind.
  change (JSObject _) with user.
  by rewrite saveToLocalStorage_run, Htext, Hset.
Qed.
End forms_any_storage.

Lemma handleSubmit_not_told_of_failed_save_witness :
  let id := "123e4567-e89b-12d3-a456-426614174000" in
  let user := UserProfile_value (newProfile id "Bob" 7) in
  handleSubmit id "Bob" (mkWorld refusing [] 7)
  = (Normal (inr user),
     mkWorld refusing [mkLogEntry error "Failed to save to localStorage:"] 7).
Proof.
  intros id user.
  by eapply (handleSubmit_not_told_of_failed_save id "Bob" _ _ (mkWorld refusing [] 7)).
Defined.

(** X9: the Save button of the profile form, which is disabled when
    [!isValid || !hasChanges], is enabled exactly when the name is one that
    [validateName] accepts and is not the profile's current name; white
    space around the name plays no part, since an accepted name has none. *)
Theorem save_button_enabled user_name name :
  isValid name && hasChanges user_name name = true
  <-> validateName name = None /\ name <> user_name.
Proof.
  unfold isValid, hasChanges.
  destruct (validateName name) as [message |] eqn:Hname; simpl.
  { split; [discriminate | by intros [? _]]. }
  rewrite (validateName_trim _ Hname), negb_true_iff.
  destruct (String.eqb_spec name user_name); split; try done. by intros [_ ?].
Qed.

Lemma save_button_enabled_witness :
  isValid "Caller Two" && hasChanges "TestUser" "Caller Two" = true
  /\ isValid "TestUser" && hasChanges "TestUser" "TestUser" = false.
Proof.
  split.
  - by apply save_button_enabled.
  - reflexivity.
Defined.

(** ** Envelopes: validation, files, import *)

Lemma wf_BackupDataSchema : wf_schema BackupDataSchema.
Proof. simpl. repeat split; by apply (bool_decide_unpack _). Qed.

Section envelopes.
Context `{ZodFormats}.

(** The envelopes that pass [BackupDataSchema]: the three fields and no
    other, with a user that is [null] or a profile the schema accepts as
    it is. *)
Lemma BackupDataSchema_accepted data backup :
  z.safeParse BackupDataSchema data = SafeParseSuccess backup ->
  z.safeParse BackupDataSchema backup = SafeParseSuccess backup
  /\ exists version timestamp user,
       backup = backup_of version timestamp user
       /\ (user = JSNull
           \/ (exists props, user = JSObject props)
              /\ z.safeParse UserProfileSchema user = SafeParseSuccess user
              /\ serializable user).
Proof.
  intros Hdata%safeParse_OK. split.
  { apply safeParse_OK. by eapply (_parse_idempotent _ wf_BackupDataSchema). }
  apply BackupDataSchema_OK in Hdata
    as (props & version & timestamp & user & _ & -> & _ & _ & Huser).
  exists version, timestamp, user. split; [done |].
  apply parse_nullable_OK in Huser as [[_ ->] | Huser]; [by left | right].
  split_and!.
  - apply parse_object_OK in Huser as (? & _ & _ & ->). eauto.
  - apply safeParse_OK. by eapply (_parse_idempotent _ wf_UserProfileSchema).
  - by eapply (_parse_serializable _ wf_UserProfileSchema int_UserProfileSchema).
Qed.

Section any_storage.
Context {Σ : Type} `{Storage Σ}.

(** X10: [validateBackup] never throws and leaves the storage alone. Its
    result is [null], for an input the envelope schema rejects, or an
    envelope of exactly the fields [version], [timestamp] and [user], other
    fields of the input being dropped, whose user is [null] or a profile the
    profile schema accepts; validating the result again returns it. *)
Theorem validateBackup_result data (w : World Σ) :
  exists backup lines,
    validateBackup data w
    = (Normal backup, mkWorld (localStorage w) (console w ++ lines) (clock w))
    /\ (backup = JSNull <-> exists issues, z.safeParse BackupDataSchema data = SafeParseError issues)
    /\ (backup <> JSNull ->
        z.safeParse BackupDataSchema data = SafeParseSuccess backup
        /\ (exists version timestamp user,
              backup = backup_of version timestamp user
              /\ (user = JSNull
                  \/ z.safeParse UserProfileSchema user = SafeParseSuccess user))
        /\ validateBackup backup w = (Normal backup, w)).
Proof.
  destruct (z.safeParse BackupDataSchema data) as [backup | issues] eqn:Hdata.
  - exists backup, []. rewrite (validateBackup_valid _ _ _ Hdata), app_nil_r.
    destruct (BackupDataSchema_accepted _ _ Hdata)
      as (Hagain & version & timestamp & user & -> & Huser).
    split; [by destruct w |]. split.
    + split; [discriminate | by intros [? ?]].
    + intros _. split_and!; [done | | by apply validateBackup_valid].
      exists version, timestamp, user. split; [done |].
      destruct Huser as [| (_ & ? & _)]; auto.
  - eexists JSNull, [_]. rewrite (validateBackup_invalid _ _ _ Hdata).
    split; [done |]. split; [| done]. split; eauto.
Qed.

Lemma loadBackupFromFile_run file (w : World Σ) :
  exists lines,
    loadBackupFromFile file w
    = (Normal match File_text file with
              | Normal text =>
                  match JSON.parse text with
                  | Normal data =>
                      match z.safeParse BackupDataSchema data with
                      | SafeParseSuccess backup => backup
                      | SafeParseError _ => JSNull
                      end
                  | Throw _ => JSNull
                  end
              | Throw _ => JSNull
              end,
       mkWorld (localStorage w) (console w ++ lines) (clock w)).
Proof.
  unfold loadBackupFromFile, try_catch at 1. rewrite run_bind. unfold lift at 1.
  destruct (File_text file) as [text | e]; [| eexists [_]; reflexivity].
  rewrite run_bind. unfold lift at 1.
  destruct (JSON.parse text) as [data | e]; [| eexists [_]; reflexivity].
  destruct (z.safeParse BackupDataSchema data) as [backup | issues] eqn:Hdata.
  - rewrite (validateBackup_valid _ _ _ Hdata). exists []. rewrite app_nil_r. by destruct w.
  - rewrite (validateBackup_invalid _ _ _ Hdata). eexists [_]. reflexivity.
Qed.

(** X11: the promise of [loadBackupFromFile] never rejects, and the storage
    is left alone. It resolves to [null] when the file cannot be read, when
    its text is not JSON and when the envelope schema rejects the parsed
    value; a result other than [null] is the validated envelope of the
    file's text. *)
Theorem loadBackupFromFile_never_rejects file (w : World Σ) :
  exists backup,
    (loadBackupFromFile file w).1 = Normal backup
    /\ localStorage (loadBackupFromFile file w).2 = localStorage w
    /\ (forall e, File_text file = Throw e -> backup = JSNull)
    /\ (forall text e,
          File_text file = Normal text -> JSON.parse text = Throw e -> backup = JSNull)
    /\ (forall text data issues,
          File_text file = Normal text -> JSON.parse text = Normal data ->
          z.safeParse BackupDataSchema data = SafeParseError issues -> backup = JSNull)
    /\ (backup <> JSNull ->
        exists text data,
          File_text file = Normal text
          /\ JSON.parse text = Normal data
          /\ z.safeParse BackupDataSchema data = SafeParseSuccess backup).
Proof.
  destruct (loadBackupFromFile_run file w) as [lines ->]. eexists. split; [reflexivity |].
  split; [reflexivity |]. split_and!.
  - by intros e ->.
  - by intros text e -> ->.
  - by intros text data issues -> -> ->.
  - destruct (File_text file) as [text | e]; [| done].
    destruct (JSON.parse text) as [data | e] eqn:Hparse; [| done].
    destruct (z.safeParse BackupDataSchema data) as [backup | issues] eqn:Hdata; [| done].
    intros _. by exists text, data.
Qed.
End any_storage.
End envelopes.

Lemma validateBackup_result_witness :
  let data := JSObject [("version", JSString "1.0.0"); ("exported", JSBoolean true);
                        ("timestamp", JSNumber (Int 7)); ("user", JSNull)] in
  (validateBackup data (mock_world [] 0)).1 = Normal (backup_of "1.0.0" (Int 7) JSNull)
  /\ validateBackup (backup_of "1.0.0" (Int 7) JSNull) (mock_world [] 0)
     = (Normal (backup_of "1.0.0" (Int 7) JSNull), mock_world [] 0).
Proof.
  intros data.
  destruct (validateBackup_result data (mock_world [] 0))
    as (backup & lines & Hrun & _ & Hvalid).
  assert (Hbackup : backup = backup_of "1.0.0" (Int 7) JSNull).
  { assert (Heq : (validateBackup data (mock_world [] 0)).1
                  = Normal (backup_of "1.0.0" (Int 7) JSNull)) by reflexivity.
    rewrite Hrun in Heq. by injection Heq. }
  subst backup. split; [by rewrite Hrun |].
  by destruct Hvalid as (_ & _ & Hagain).
Defined.

Lemma loadBackupFromFile_never_rejects_witness :
  (loadBackupFromFile (mkFile (Throw (DOMException "NotReadableError"))) (mock_world [] 0)).1
  = Normal JSNull
  /\ (loadBackupFromFile (mkFile (Normal "not valid json")) (mock_world [] 0)).1 = Normal JSNull
  /\ (loadBackupFromFile (mkFile (Normal "{}")) (mock_world [] 0)).1 = Normal JSNull.
Proof.
  split_and!.
  - destruct (loadBackupFromFile_never_rejects
                (mkFile (Throw (DOMException "NotReadableError"))) (mock_world [] 0))
      as (backup & -> & _ & Hfile & _).
    f_equal. exact (Hfile _ eq_refl).
  - destruct (loadBackupFromFile_never_rejects
                (mkFile (Normal "not valid json")) (mock_world [] 0))
      as (backup & -> & _ & _ & Htext & _).
    f_equal. exact (Htext _ _ eq_refl eq_refl).
  - destruct (loadBackupFromFile_never_rejects (mkFile (Normal "{}")) (mock_world [] 0))
      as (backup & -> & _ & _ & _ & Hschema & _).
    f_equal. exact (Hschema _ _ _ eq_refl eq_refl eq_refl).
Defined.

(** ** Import on any storage *)

Section import_any_storage.
Context {Σ : Type} `{Storage Σ} `{ZodFormats}.

(** The steps of [importBackup] after the validation, for a validated
    envelope. *)
Lemma importBackup_validated data version timestamp user (w : World Σ) :
  z.safeParse BackupDataSchema data = SafeParseSuccess (backup_of version timestamp user) ->
  user = JSNull \/ (exists props, user = JSObject props)
                   /\ z.safeParse UserProfileSchema user = SafeParseSuccess user
                   /\ serializable user ->
  exists b σ lines,
    importBackup data w = (Normal b, mkWorld σ (console w ++ lines) (clock w)).
Proof.
  intros Hvalid Huser. unfold importBackup.
  rewrite run_bind. unfold console_log at 1.
  rewrite run_bind, (validateBackup_valid _ _ _ Hvalid).
  destruct Huser as [-> | ([props ->] & Hagain & Hser)].
  - run. destruct (removeItem _ _) as [σ |]; simpl; eexists _, _, _;
      rewrite <- !app_assoc; reflexivity.
  - apply safeParse_OK, z_parse_OK in Hagain.
    destruct (JSONFacts.parse_stringify _ Hser ltac:(done)) as (text & Htext & _).
    run. rewrite Hagain. simpl. rewrite Htext. simpl.
    destruct (setItem _ _ _) as [σ |]; simpl;
      [| eexists _, _, _; rewrite <- !app_assoc; reflexivity].
    destruct (getItem _ σ) as [saved |]; simpl;
      [| eexists _, _, _; rewrite <- !app_assoc; reflexivity].
    destruct (JSON.parse (ToString_null saved)) as [parsed |]; simpl;
      [| eexists _, _, _; rewrite <- !app_assoc; reflexivity].
    destruct (GetV parsed "name"); simpl;
      eexists _, _, _; rewrite <- !app_assoc; reflexivity.
Qed.

(** X12: [importBackup] never throws, whatever the input and whatever the
    storage does: it returns a boolean, and [true] only for an input that
    the envelope schema accepts. *)
Theorem importBackup_never_throws data (w : World Σ) :
  exists b,
    (importBackup data w).1 = Normal b
    /\ clock (importBackup data w).2 = clock w
    /\ (b = true -> exists backup, z.safeParse BackupDataSchema data = SafeParseSuccess backup).
Proof.
  destruct (z.safeParse BackupDataSchema data) as [backup | issues] eqn:Hdata.
  - destruct (BackupDataSchema_accepted _ _ Hdata)
      as (_ & version & timestamp & user & -> & Huser).
    destruct (importBackup_validated _ _ _ _ w Hdata Huser) as (b & σ & lines & ->).
    exists b. eauto.
  - rewrite (importBackup_invalid _ _ _ Hdata). exists false. by split_and!.
Qed.
End import_any_storage.

Lemma importBackup_never_throws_witness :
  (importBackup (backup_of "1.0.0" (Int 1) mockUser) (mkWorld refusing [] 0)).1 = Normal false
  /\ (importBackup (backup_of "1.0.0" (Int 1) mockUser) (mock_world [] 0)).1 = Normal true.
Proof.
  split.
  - destruct (importBackup_never_throws (backup_of "1.0.0" (Int 1) mockUser)
                (mkWorld refusing [] 0)) as (b & Hb & _).
    rewrite Hb. assert (Heq : (importBackup (backup_of "1.0.0" (Int 1) mockUser)
                                 (mkWorld refusing [] 0)).1 = Normal false) by reflexivity.
    by rewrite Hb in Heq.
  - destruct (importBackup_never_throws (backup_of "1.0.0" (Int 1) mockUser)
                (mock_world [] 0)) as (b & Hb & _).
    rewrite Hb. assert (Heq : (importBackup (backup_of "1.0.0" (Int 1) mockUser)
                                 (mock_world [] 0)).1 = Normal true) by reflexivity.
    by rewrite Hb in Heq.
Defined.

(** ** The envelope of a user *)

Section paths.
Context `{ZodFormats}.

(** The path only labels the issues: what a schema accepts, and the value
    it returns, do not depend on it. *)
Lemma _parse_path t p p' input v : z._parse t p input = OK v -> z._parse t p' input = OK v.
Proof.
  revert p p' input v.
  induction t as [cs | cs | | shape IH | t IH | t IH] using ZodType_ind';
    intros p p' input v Hv.
  - destruct input; try discriminate. simpl in *.
    apply finish_OK in Hv as [Hnil ->]. by rewrite (string_checks_path _ p' _ _ Hnil).
  - destruct input; try discriminate. simpl in *.
    apply finish_OK in Hv as [Hnil ->]. by rewrite (number_checks_path _ p' _ _ Hnil).
  - by destruct input.
  - apply parse_object_OK in Hv as (props & -> & Hnil & ->). rewrite _parse_object.
    enough (Hpairs : z.object_pairs z._parse p' props shape
                     = ([], (z.object_pairs z._parse p props shape).2)) by by rewrite Hpairs.
    revert Hnil. induction shape as [| [key t] shape IHshape]; [done |].
    apply Forall_cons in IH as [IHt IH]. simpl in IHt. intros Hnil.
    apply object_pairs_step in Hnil as (w & Hw & Hnil & ->).
    rewrite (object_pairs_cons _ p'), (IHt _ (p' ++ [key]) _ _ Hw), merge_pair_OK.
    by rewrite (IHshape IH Hnil).
  - destruct input; simpl in *; try done; by eapply IH.
  - destruct input; simpl in *; try done; by eapply IH.
Qed.

Lemma _parse_path_invalid t p p' input issues :
  z._parse t p input = INVALID issues -> exists issues', z._parse t p' input = INVALID issues'.
Proof.
  intros Hinvalid. destruct (z._parse t p' input) as [v | issues'] eqn:Hv; [| eauto].
  apply (_parse_path _ _ p) in Hv. congruence.
Qed.

(** The envelope of a user is accepted, with the user as the nullable
    profile schema returns it, or rejected as that schema rejects the
    user. *)
Lemma envelope_valid version timestamp user user' :
  z.safeParse (ZodNullable UserProfileSchema) user = SafeParseSuccess user' ->
  z.safeParse BackupDataSchema (backup_of version timestamp user)
  = SafeParseSuccess (backup_of version timestamp user').
Proof.
  intros Huser%safeParse_OK. apply (_parse_path _ _ ["user"]) in Huser.
  apply safeParse_OK. unfold BackupDataSchema, z.object, backup_of.
  rewrite _parse_object, !object_pairs_cons.
  cbn [Obj.get Obj.has String.eqb Ascii.eqb Bool.eqb orb app].
  unfold z.nullable. rewrite Huser.
  change (z._parse z.string ["version"] (JSString version)) with (OK (JSString version)).
  change (z._parse z.number ["timestamp"] (JSNumber timestamp)) with (OK (JSNumber timestamp)).
  rewrite !merge_pair_OK. cbn [fst snd z.object_pairs kept app].
  apply parse_nullable_OK in Huser as [[_ ->] | (? & _ & _ & ->)%parse_object_OK];
    reflexivity.
Qed.

Lemma envelope_invalid version timestamp user issues :
  z.safeParse (ZodNullable UserProfileSchema) user = SafeParseError issues ->
  exists issues',
    z.safeParse BackupDataSchema (backup_of version timestamp user) = SafeParseError issues'.
Proof.
  intros Huser.
  destruct (z.safeParse BackupDataSchema _) as [backup |] eqn:Hbackup; [| eauto].
  exfalso. apply safeParse_OK, BackupDataSchema_OK in Hbackup
    as (props & ? & ? & user' & [= <-] & _ & _ & _ & Huser').
  cbn [Obj.get String.eqb Ascii.eqb Bool.eqb app] in Huser'.
  apply (_parse_path _ _ []) in Huser'.
  apply safeParse_OK in Huser'. congruence.
Qed.
End paths.

(** ** Restore: from a file to the next start of [App] *)

Section restore.
Context `{ZodFormats}.

(** What [importBackup] leaves under the profile key of the key-value
    storage, and what the next start of [App] finds there. *)
Lemma importBackup_then_App data version timestamp user (w : World LocalStorageMock) :
  json_value user ->
  z.safeParse BackupDataSchema data = SafeParseSuccess (backup_of version timestamp user) ->
  exists σ lines,
    importBackup data w = (Normal true, mkWorld σ (console w ++ lines) (clock w))
    /\ (forall key, key <> "squaredance-user-profile" ->
          store σ !! key = store (localStorage w) !! key)
    /\ loaded "squaredance-user-profile" (ZodNullable UserProfileSchema) σ = user.
Proof.
  intros Hjson Hvalid.
  destruct (BackupDataSchema_accepted _ _ Hvalid)
    as (_ & ? & ? & ? & [= <- <- <-] & [-> | ([props ->] & Hagain & Hser)]).
  - rewrite (importBackup_null _ _ _ _ Hvalid). eexists _, _. split; [reflexivity |].
    split.
    + intros key Hkey. by apply lookup_delete_ne.
    + unfold loaded. cbn [getItem LocalStorageMock_Storage store].
      by rewrite lookup_delete_eq.
  - destruct (JSONFacts.parse_stringify _ Hser ltac:(done)) as (text & Htext & _ & Hparse).
    rewrite (importBackup_user _ _ _ _ text _ Hvalid); [| | done | done].
    2:{ by apply z_parse_OK, safeParse_OK. }
    eexists _, _. split; [reflexivity |]. split.
    + intros key Hkey. by apply lookup_insert_ne.
    + unfold loaded. cbn [getItem LocalStorageMock_Storage store].
      rewrite lookup_insert_eq, Hparse, (jsonify_json _ Hjson), safeParse_nullable.
      by rewrite Hagain.
Qed.

Lemma backup_of_json version timestamp user :
  json_value (backup_of version timestamp user) -> json_value user.
Proof. simpl. tauto. Qed.

Lemma handleFileChange_valid tag file text data backup (w : World LocalStorageMock) :
  File_text file = Normal text ->
  JSON.parse text = Normal data ->
  z.safeParse BackupDataSchema data = SafeParseSuccess backup ->
  exists user σ lines,
    GetV backup "user" = Normal user
    /\ handleFileChange tag (Some file) true w
       = (Normal reload, mkWorld σ (console w ++ lines) (clock w))
    /\ (forall key, key <> "squaredance-user-profile" ->
          store σ !! key = store (localStorage w) !! key)
    /\ loaded "squaredance-user-profile" (ZodNullable UserProfileSchema) σ = user.
Proof.
  intros Hfile Hparse Hvalid.
  pose proof (safeParse_json _ _ _ (ParseFacts.parse_json _ _ Hparse) Hvalid) as Hjson.
  destruct (BackupDataSchema_accepted _ _ Hvalid)
    as (Hagain & version & timestamp & user & -> & _).
  apply backup_of_json in Hjson. exists user.
  unfold handleFileChange, try_catch at 1.
  rewrite run_bind. unfold console_log at 1. rewrite run_bind.
  destruct (loadBackupFromFile_run file
              (mkWorld (localStorage w)
                 (console w ++ [mkLogEntry log (tag ++ " Loading backup from file...")])
                 (clock w))) as [lines1 ->].
  rewrite Hfile, Hparse, Hvalid. cbn [ToBoolean backup_of negb].
  rewrite run_bind. unfold console_log at 1. rewrite run_bind. unfold console_log at 1.
  rewrite run_bind.
  match goal with |- context [importBackup _ ?w1] =>
    destruct (importBackup_then_App _ _ _ _ w1 Hjson Hagain)
      as (σ & lines & -> & Hframe & Hloaded) end.
  eexists σ, _. split; [reflexivity |]. split; [| done].
  run. rewrite <- !app_assoc. reflexivity.
Qed.

(** X13: restoring a backup file on the key-value storage. When the file's
    text is JSON that the envelope schema accepts and the user confirms,
    [handleFileChange] ends in a reload, never in a failure message; the
    keys other than the profile key are as before, and the next start of
    [App] has the envelope's user as [savedUser]. *)
Theorem handleFileChange_restores tag file text data backup (w : World LocalStorageMock) :
  File_text file = Normal text ->
  JSON.parse text = Normal data ->
  z.safeParse BackupDataSchema data = SafeParseSuccess backup ->
  exists user,
    GetV backup "user" = Normal user
    /\ (handleFileChange tag (Some file) true w).1 = Normal reload
    /\ (forall key, key <> "squaredance-user-profile" ->
          store (localStorage (handleFileChange tag (Some file) true w).2) !! key
          = store (localStorage w) !! key)
    /\ (App (handleFileChange tag (Some file) true w).2).1 = Normal user.
Proof.
  intros Hfile Hparse Hvalid.
  destruct (handleFileChange_valid tag _ _ _ _ w Hfile Hparse Hvalid)
    as (user & σ & lines & Huser & -> & Hframe & Hloaded).
  exists user. cbn [fst snd localStorage]. split_and!; try done.
  destruct (App_run (mkWorld σ (console w ++ lines) (clock w))) as (? & ? & -> & _).
  cbn [fst localStorage]. by rewrite Hloaded.
Qed.
End restore.

Section restore_any_storage.
Context {Σ : Type} `{Storage Σ} `{ZodFormats}.

(** X14: [handleFileChange] never throws, and since neither
    [loadBackupFromFile] nor [importBackup] throws, its [catch] branch is
    not taken: the message "Error reading backup file" is not the outcome.
    A reload happens only after the user confirmed; without a file, with a
    file that does not hold a valid envelope, and when the user declines,
    the storage is as before. *)
Theorem handleFileChange_outcomes tag file confirmed (w : World Σ) :
  exists outcome,
    (handleFileChange tag file confirmed w).1 = Normal outcome
    /\ outcome <> backupMessage "Error reading backup file"
    /\ (outcome = reload -> confirmed = true)
    /\ (outcome = no_file <-> file = None)
    /\ (outcome = no_file \/ outcome = cancelled
        \/ outcome = backupMessage "Invalid backup file" ->
        localStorage (handleFileChange tag file confirmed w).2 = localStorage w)
    /\ (forall f, file = Some f -> (loadBackupFromFile f w).1 = Normal JSNull ->
          outcome = backupMessage "Invalid backup file").
Proof.
  destruct file as [file |]; [| exists no_file; by split_and!].
  enough (Hrun : exists outcome σ lines,
            handleFileChange tag (Some file) confirmed w
            = (Normal outcome, mkWorld σ (console w ++ lines) (clock w))
            /\ outcome <> backupMessage "Error reading backup file"
            /\ outcome <> no_file
            /\ (outcome = reload -> confirmed = true)
            /\ (outcome = cancelled \/ outcome = backupMessage "Invalid backup file" ->
                σ = localStorage w)
            /\ ((loadBackupFromFile file w).1 = Normal JSNull ->
                outcome = backupMessage "Invalid backup file")).
  { destruct Hrun as (outcome & σ & lines & -> & Herror & Hfile & Hreload & Hsame & Hnull).
    exists outcome. split_and!; try done.
    - intros [? | ?]; [done | by apply Hsame].
    - by intros f [= <-]. }
  unfold handleFileChange, try_catch at 1.
  rewrite run_bind. unfold console_log at 1. rewrite run_bind.
  destruct (loadBackupFromFile_run file w) as [lines0 Hload0].
  destruct (loadBackupFromFile_run file
              (mkWorld (localStorage w)
                 (console w ++ [mkLogEntry log (tag ++ " Loading backup from file...")])
                 (clock w))) as [lines1 ->].
  rewrite Hload0. cbn [fst].
  set (backup := match File_text file with Normal _ => _ | Throw _ => _ end) in *.
  assert (Hbackup : backup = JSNull
            \/ exists data, z.safeParse BackupDataSchema data = SafeParseSuccess backup).
  { unfold backup. destruct (File_text file) as [text |]; [| by left].
    destruct (JSON.parse text) as [data |]; [| by left].
    destruct (z.safeParse BackupDataSchema data) eqn:Hdata; eauto. }
  clearbody backup. destruct Hbackup as [-> | [data Hdata]].
  { eexists _, _, _. run. rewrite <- !app_assoc. split; [reflexivity |]. by split_and!. }
  destruct (BackupDataSchema_accepted _ _ Hdata)
    as (Hagain & version & timestamp & user & -> & Huser).
  cbn [ToBoolean backup_of negb].
  rewrite run_bind. unfold console_log at 1.
  destruct confirmed.
  - rewrite run_bind. unfold console_log at 1. rewrite run_bind.
    match goal with |- context [importBackup _ ?w1] =>
      destruct (importBackup_validated _ _ _ _ w1 Hagain Huser) as (b & σ & lines & ->) end.
    destruct b; eexists _, _, _; run; rewrite <- !app_assoc; (split; [reflexivity |]);
      split_and!; try done; by intros [|].
  - eexists _, _, _. run. rewrite <- !app_assoc. split; [reflexivity |]. by split_and!.
Qed.
End restore_any_storage.

Lemma handleFileChange_restores_witness :
  let text := stored_text (backup_of "1.0.0" (Int 1) mockUser) in
  let w := mock_world [("squaredance-user-profile", stored_text (JSObject [("name", JSString "Old")]));
                       ("other-app-key", "test2")] 9 in
  exists user,
    GetV (backup_of "1.0.0" (Int 1) mockUser) "user" = Normal user
    /\ (handleFileChange "[MODAL]" (Some (mkFile (Normal text))) true w).1 = Normal reload
    /\ (forall key, key <> "squaredance-user-profile" ->
          store (localStorage (handleFileChange "[MODAL]" (Some (mkFile (Normal text))) true w).2)
            !! key
          = store (localStorage w) !! key)
    /\ (App (handleFileChange "[MODAL]" (Some (mkFile (Normal text))) true w).2).1 = Normal user.
Proof.
  intros text w.
  by eapply (handleFileChange_restores "[MODAL]" (mkFile (Normal text)) text
               (backup_of "1.0.0" (Int 1) mockUser) (backup_of "1.0.0" (Int 1) mockUser) w).
Defined.

Lemma handleFileChange_outcomes_witness :
  (handleFileChange "[WELCOME]" (Some (mkFile (Normal "not valid json"))) true
     (mock_world [] 0)).1
  = Normal (backupMessage "Invalid backup file").
Proof.
  destruct (handleFileChange_outcomes "[WELCOME]" (Some (mkFile (Normal "not valid json")))
              true (mock_world [] 0)) as (outcome & -> & _ & _ & _ & _ & Hinvalid).
  f_equal. by apply (Hinvalid (mkFile (Normal "not valid json"))).
Defined.

(** ** Export, then import *)

Section export_import.
Context `{ZodFormats}.

(** X15: a backup carries the profile from one storage to another. When the
    profile key of the first storage is not set, or holds JSON text that
    the nullable profile schema accepts, [exportBackup] there followed by
    [importBackup] of the envelope on a second key-value storage returns
    [true], touches no other key, and [App] then starts on the second
    storage with the [savedUser] it starts with on the first. *)
Theorem export_then_import_restores user (w1 w2 : World LocalStorageMock) :
  (store (localStorage w1) !! "squaredance-user-profile" = None /\ user = JSNull)
  \/ (exists userJson data,
        store (localStorage w1) !! "squaredance-user-profile" = Some userJson
        /\ JSON.parse userJson = Normal data
        /\ z.safeParse (ZodNullable UserProfileSchema) data = SafeParseSuccess user) ->
  exists backup,
    exportBackup w1 = (Normal backup, w1)
    /\ (importBackup backup w2).1 = Normal true
    /\ (forall key, key <> "squaredance-user-profile" ->
          store (localStorage (importBackup backup w2).2) !! key
          = store (localStorage w2) !! key)
    /\ (App (importBackup backup w2).2).1 = Normal user
    /\ (App w1).1 = Normal user.
Proof.
  intros Hstored.
  assert (Hexport : exists data,
            exportBackup w1 = (Normal (backup_of "1.0.0" (Int (clock w1)) data), w1)
            /\ json_value data
            /\ z.safeParse (ZodNullable UserProfileSchema) data = SafeParseSuccess user
            /\ loaded "squaredance-user-profile" (ZodNullable UserProfileSchema)
                 (localStorage w1) = user).
  { rewrite exportBackup_run. unfold loaded. cbn [getItem LocalStorageMock_Storage].
    destruct Hstored as [[-> ->] | (userJson & data & -> & Hparse & Hvalid)].
    - by exists JSNull.
    - exists data. rewrite Hparse, Hvalid.
      destruct userJson; [discriminate Hparse |].
      split_and!; try done. by eapply ParseFacts.parse_json. }
  destruct Hexport as (data & Hexport & Hjson & Hvalid & Hloaded).
  eexists. split; [exact Hexport |].
  pose proof (envelope_valid "1.0.0" (Int (clock w1)) _ _ Hvalid) as Henvelope.
  destruct (importBackup_then_App _ _ _ _ w2 (safeParse_json _ _ _ Hjson Hvalid) Henvelope)
    as (σ & lines & -> & Hframe & Hloaded2).
  cbn [fst snd localStorage]. split_and!; try done.
  - destruct (App_run (mkWorld σ (console w2 ++ lines) (clock w2))) as (? & ? & -> & _).
    cbn [fst localStorage]. by rewrite Hloaded2.
  - destruct (App_run w1) as (? & ? & -> & _). cbn [fst]. by rewrite Hloaded.
Qed.
End export_import.

Section export_invalid.
Context {Σ : Type} `{Storage Σ} `{ZodFormats}.

(** X16: [exportBackup] writes what is stored into the envelope without
    validating it, and [importBackup] validates: the backup of a stored
    value that is JSON but not a valid profile cannot be imported. The
    import returns [false] and leaves the storage it runs on as it is. *)
Theorem export_of_invalid_profile_is_not_importable userJson data issues
    (w1 : World LocalStorageMock) (w2 : World Σ) :
  store (localStorage w1) !! "squaredance-user-profile" = Some userJson ->
  JSON.parse userJson = Normal data ->
  z.safeParse (ZodNullable UserProfileSchema) data = SafeParseError issues ->
  exists backup,
    exportBackup w1 = (Normal backup, w1)
    /\ (importBackup backup w2).1 = Normal false
    /\ localStorage (importBackup backup w2).2 = localStorage w2.
Proof.
  intros Hstored Hparse Hinvalid. rewrite exportBackup_run, Hstored, Hparse.
  destruct userJson; [discriminate Hparse |].
  eexists. split; [reflexivity |].
  destruct (envelope_invalid "1.0.0" (Int (clock w1)) _ _ Hinvalid) as [issues' Henvelope].
  by rewrite (importBackup_invalid _ _ _ Henvelope).
Qed.
End export_invalid.

Lemma export_then_import_restores_witness :
  let w1 := mock_world [("squaredance-user-profile", stored_text mockUser)] 5 in
  let w2 := mock_world [("squaredance-user-profile", stored_text (JSObject [("name", JSString "Old")]));
                        ("other-app-key", "test2")] 9 in
  exists backup,
    exportBackup w1 = (Normal backup, w1)
    /\ (importBackup backup w2).1 = Normal true
    /\ (forall key, key <> "squaredance-user-profile" ->
          store (localStorage (importBackup backup w2).2) !! key
          = store (localStorage w2) !! key)
    /\ (App (importBackup backup w2).2).1 = Normal mockUser
    /\ (App w1).1 = Normal mockUser.
Proof.
  intros w1 w2. apply export_then_import_restores. right.
  exists (stored_text mockUser), mockUser. split_and!; reflexivity.
Defined.

Lemma export_of_invalid_profile_is_not_importable_witness :
  let drifted := JSObject [("name", JSNumber (Int 42))] in
  let w1 := mock_world [("squaredance-user-profile", stored_text drifted)] 5 in
  let w2 := mock_world [("squaredance-user-profile", stored_text mockUser)] 9 in
  exists backup,
    exportBackup w1 = (Normal backup, w1)
    /\ (importBackup backup w2).1 = Normal false
    /\ localStorage (importBackup backup w2).2 = localStorage w2.
Proof.
  intros drifted w1 w2.
  by eapply (export_of_invalid_profile_is_not_importable (stored_text drifted) drifted _ w1 w2).
Defined.

(** ** The store adapter: what is stored *)

(** The keys of the key-value storage are read as Web Storage reads them,
    as own entries of the store: the property names that every JavaScript
    object inherits ([toString], [__proto__] and the like), for which the
    record of the test suite's mock would answer without their being set,
    are keys like any other here. The application uses none of them. *)

Section adapter_store.
Context `{ZodFormats}.





(** X18: after [removeFromLocalStorage] the key loads as [null] under every
    schema, and after [clearAllLocalStorage] the next start of [App] has no
    profile and shows the welcome screen. Other keys keep their values. *)
Theorem remove_then_load key schema (w : World LocalStorageMock) :
  ((removeFromLocalStorage key;; loadFromLocalStorage key schema) w).1 = Normal JSNull
  /\ (forall key', key' <> key ->
        store (localStorage (removeFromLocalStorage key w).2) !! key'
        = store (localStorage w) !! key')
  /\ (App (clearAllLocalStorage w).2).1 = Normal JSNull
  /\ App_screen JSNull = WelcomeScreen.
Proof.
  split_and!; [| | | done].
  - rewrite run_bind.
    assert (Hremove : removeFromLocalStorage key w
              = (Normal tt, mkWorld (mkLocalStorageMock (delete key (store (localStorage w))))
                              (console w) (clock w))) by reflexivity.
    rewrite Hremove.
    destruct (loadFromLocalStorage_run key schema
                (mkWorld (mkLocalStorageMock (delete key (store (localStorage w))))
                   (console w) (clock w))) as [lines ->].
    cbn [fst]. unfold loaded. cbn [getItem LocalStorageMock_Storage localStorage store].
    by rewrite lookup_delete_eq.
  - intros key' Hkey'. cbn. by apply lookup_delete_ne.
  - assert (Hclear : clearAllLocalStorage w
              = (Normal tt,
                 mkWorld (mkLocalStorageMock
                            (delete "squaredance-user-profile" (store (localStorage w))))
                   (console w) (clock w))) by reflexivity.
    rewrite Hclear. cbn [snd].
    match goal with |- (App ?w1).1 = _ =>
      destruct (App_run w1) as (? & ? & -> & _) end.
    cbn [fst]. unfold loaded. cbn [getItem LocalStorageMock_Storage localStorage store].
    by rewrite lookup_delete_eq.
Qed.
End adapter_store.

Section probe.
Context {Σ : Type} `{Storage Σ}.

(** X19: [isLocalStorageAvailable] never throws. It answers [true] exactly
    when the storage accepts the write of the test key and its removal, and
    the storage is then the one after the removal; when the write is
    refused the storage is as before. *)
Theorem isLocalStorageAvailable_probe (w : World Σ) :
  exists b,
    (isLocalStorageAvailable w).1 = Normal b
    /\ console (isLocalStorageAvailable w).2 = console w
    /\ (b = true <->
        exists σ σ',
          setItem "__localStorage_test__" "__localStorage_test__" (localStorage w) = Normal σ
          /\ removeItem "__localStorage_test__" σ = Normal σ'
          /\ localStorage (isLocalStorageAvailable w).2 = σ')
    /\ (forall e,
          setItem "__localStorage_test__" "__localStorage_test__" (localStorage w) = Throw e ->
          b = false /\ (isLocalStorageAvailable w).2 = w).
Proof.
  unfold isLocalStorageAvailable. run.
  destruct (setItem _ _ (localStorage w)) as [σ | e]; simpl.
  - destruct (removeItem _ σ) as [σ' | e] eqn:Hremove; simpl.
    + exists true. split_and!; try done. split; [intros _ | done]. by exists σ, σ'.
    + exists false. split_and!; try done. split; [done |].
      intros (? & ? & [= <-] & Hremove' & _). congruence.
  - exists false. split_and!; try done.
    split; [done |]. by intros (? & ? & ? & _).
Qed.
End probe.


Lemma isLocalStorageAvailable_probe_witness :
  (isLocalStorageAvailable (mkWorld refusing [] 0)).1 = Normal false
  /\ (isLocalStorageAvailable (mock_world [("__localStorage_test__", "x"); ("k", "v")] 0)).1
     = Normal true.
Proof.
  split.
  - destruct (isLocalStorageAvailable_probe (mkWorld refusing [] 0)) as (b & -> & _ & _ & Hb).
    f_equal. by destruct (Hb _ eq_refl).
  - destruct (isLocalStorageAvailable_probe
                (mock_world [("__localStorage_test__", "x"); ("k", "v")] 0))
      as (b & -> & _ & Hb & _).
    f_equal. apply Hb. by eexists _, _.
Defined.

(** ** What the profile schema accepts *)

Section accepts.
Context `{ZodFormats}.

(** A [z.object] accepts an object when each property of the shape accepts
    the value the object has for it. *)
Lemma object_pairs_accepts p props shape :
  (z.object_pairs z._parse p props shape).1 = []
  <-> Forall (fun kt => exists v, z._parse kt.2 (p ++ [kt.1]) (Obj.get kt.1 props) = OK v)
        shape.
Proof.
  induction shape as [| [key t] shape IH]; [by split |].
  rewrite Forall_cons, <- IH. split.
  - intros (v & Hv & Hnil & _)%object_pairs_step. eauto.
  - intros [[v Hv] Hnil]. simpl in Hv. by rewrite (object_pairs_OK _ _ _ _ _ _ Hv).
Qed.

Lemma parse_object_accepts shape p input :
  (exists v, z._parse (ZodObject shape) p input = OK v)
  <-> exists props,
        input = JSObject props
        /\ Forall (fun kt => exists v, z._parse kt.2 (p ++ [kt.1]) (Obj.get kt.1 props) = OK v)
             shape.
Proof.
  split.
  - intros [v (props & -> & Hnil & _)%parse_object_OK].
    exists props. split; [done |]. by apply object_pairs_accepts.
  - intros (props & -> & Hshape%object_pairs_accepts).
    rewrite _parse_object, Hshape. eauto.
Qed.

Lemma parse_whole_accepts p input inclusive bound :
  (exists v, z._parse (ZodNumber [check_int; check_num_min bound inclusive]) p input = OK v)
  <-> exists n, input = JSNumber n /\ whole_from inclusive bound n.
Proof.
  split.
  - intros [v Hv]. pose proof Hv as (n & -> & _)%parse_number_OK.
    exists n. split; [done |]. by eapply parse_whole_from_OK.
  - intros (n & -> & Hn). exists (JSNumber n). by apply parse_whole_from.
Qed.

Lemma parse_uuid_accepts p input :
  (exists v, z._parse (ZodString [check_uuid]) p input = OK v)
  <-> exists s, input = JSString s /\ uuidRegex_test s = true.
Proof.
  split.
  - intros [v Hv]. pose proof Hv as (s & -> & _)%parse_string_OK.
    exists s. split; [done |]. simpl in Hv. by destruct (uuidRegex_test s).
  - intros (s & -> & Hs). exists (JSString s). simpl. by rewrite Hs.
Qed.

Lemma parse_length_accepts p input :
  (exists v, z._parse (ZodString [check_str_min 1; check_str_max 20]) p input = OK v)
  <-> exists s, input = JSString s /\ (1 <= String.length s <= 20)%nat.
Proof.
  split.
  - intros [v Hv]. pose proof Hv as (s & -> & _)%parse_string_OK.
    exists s. split; [done |]. simpl in Hv.
    destruct (Z.ltb_spec (Z.of_nat (String.length s)) 1); [discriminate Hv |].
    destruct (Z.ltb_spec 20 (Z.of_nat (String.length s))); [discriminate Hv | lia].
  - intros (s & -> & Hs). exists (JSString s). simpl.
    destruct (Z.ltb_spec (Z.of_nat (String.length s)) 1); [lia |].
    destruct (Z.ltb_spec 20 (Z.of_nat (String.length s))); [lia | done].
Qed.

Lemma parse_flag_accepts p input :
  (exists v, z._parse (ZodOptional ZodBoolean) p input = OK v)
  <-> input = JSUndefined \/ exists b, input = JSBoolean b.
Proof.
  split.
  - intros [v Hv]. destruct input; simpl in Hv; try discriminate Hv; eauto.
  - intros [-> | [b ->]]; simpl; eauto.
Qed.

Lemma parse_optional_accepts t p input :
  (exists v, z._parse (ZodOptional t) p input = OK v)
  <-> input = JSUndefined \/ exists v, z._parse t p input = OK v.
Proof.
  split.
  - intros [v Hv]. destruct input; simpl in Hv; eauto.
  - intros [-> | [v Hv]]; [by exists JSUndefined |].
    destruct input; solve [by exists JSUndefined | by exists v].
Qed.

Local Arguments z._parse : simpl never.

(** X20: the profile schema accepts exactly the objects with an [id] in
    [uuid] format, a [name] of 1 to 20 characters, a whole [createdAt]
    above zero, [stats] with the four counters whole and not negative, and
    [preferences] absent or an object whose two flags are absent or
    booleans. Anything else is rejected: a value that is not an object, a
    missing field, a field of another type or out of range. *)
Theorem UserProfileSchema_accepts data :
  (exists user, z.safeParse UserProfileSchema data = SafeParseSuccess user)
  <-> exists props,
        data = JSObject props
        /\ (exists id, Obj.get "id" props = JSString id /\ uuidRegex_test id = true)
        /\ (exists name, Obj.get "name" props = JSString name
                         /\ (1 <= String.length name <= 20)%nat)
        /\ (exists n, Obj.get "createdAt" props = JSNumber n /\ whole_from false 0 n)
        /\ (exists stats,
              Obj.get "stats" props = JSObject stats
              /\ Forall (fun key => exists n, Obj.get key stats = JSNumber n
                                              /\ whole_from true 0 n)
                   ["totalSessions"; "totalCalls"; "successfulSequences"; "failedSequences"])
        /\ (Obj.get "preferences" props = JSUndefined
            \/ exists preferences,
                 Obj.get "preferences" props = JSObject preferences
                 /\ Forall (fun key => Obj.get key preferences = JSUndefined
                                       \/ exists b, Obj.get key preferences = JSBoolean b)
                      ["autoPlayAnimations"; "showFlowHints"]).
Proof.
  assert (Hsafe : (exists user, z.safeParse UserProfileSchema data = SafeParseSuccess user)
                  <-> exists user, z._parse UserProfileSchema [] data = OK user).
  { split; intros [user Huser]; exists user; by apply safeParse_OK. }
  rewrite Hsafe. unfold UserProfileSchema, z.object. rewrite parse_object_accepts.
  apply exist_proper. intros props. apply and_iff_compat_l.
  rewrite !Forall_cons, Forall_nil. cbn [fst snd app].
  change (z.string |> z.uuid) with (ZodString [check_uuid]).
  change (z.string |> z.min 1 |> z.max 20) with (ZodString [check_str_min 1; check_str_max 20]).
  change (z.number |> z.int |> z.positive)
    with (ZodNumber [check_int; check_num_min 0 false]).
  rewrite parse_uuid_accepts, parse_length_accepts, parse_whole_accepts.
  do 3 apply and_iff_compat_l.
  unfold UserStatsSchema, UserPreferencesSchema, z.object, z.optional.
  rewrite parse_object_accepts, parse_optional_accepts, parse_object_accepts.
  rewrite (right_id True and).
  f_equiv; [| f_equiv].
  - apply exist_proper. intros stats. apply and_iff_compat_l.
    rewrite !Forall_cons, !Forall_nil. cbn [fst snd app].
    change (z.number |> z.int |> z.min 0) with (ZodNumber [check_int; check_num_min 0 true]).
    by rewrite !parse_whole_accepts.
  - apply exist_proper. intros preferences. apply and_iff_compat_l.
    rewrite !Forall_cons, !Forall_nil. cbn [fst snd app].
    change (ZodOptional z.boolean) with (ZodOptional ZodBoolean).
    by rewrite !parse_flag_accepts.
Qed.
End accepts.

Lemma UserProfileSchema_accepts_witness :
  (exists user, z.safeParse UserProfileSchema mockUser = SafeParseSuccess user)
  /\ ~ (exists user,
          z.safeParse UserProfileSchema
            (JSObject [("id", JSString "not-a-uuid"); ("name", JSString "Test")])
          = SafeParseSuccess user).
Proof.
  split.
  - apply UserProfileSchema_accepts. eexists. split; [reflexivity |].
    split; [eexists; split; reflexivity |].
    split; [eexists; split; [reflexivity | simpl; lia] |].
    split; [eexists; split; [reflexivity | simpl; lia] |]. split.
    + eexists. split; [reflexivity |].
      repeat (apply List.Forall_cons; [eexists; split; [reflexivity | simpl; lia] |]).
      apply List.Forall_nil.
    + right. eexists. split; [reflexivity |].
      repeat (apply List.Forall_cons; [right; eexists; reflexivity |]).
      apply List.Forall_nil.
  - intros (props & [= <-] & (id & [= <-] & Hid) & _)%UserProfileSchema_accepts.
    discriminate Hid.
Defined.

Section validated.
Context `{ZodFormats}.

(** X21: what the profile schema returns. A validated profile has no
    other properties than the five of the schema, each once; the schema
    accepts it again and returns it unchanged; and it can be written as
    JSON, from which it reads back up to properties that are [undefined]. *)
Theorem validated_profile_properties data user :
  z.safeParse UserProfileSchema data = SafeParseSuccess user ->
  z.safeParse UserProfileSchema user = SafeParseSuccess user
  /\ (exists props,
        user = JSObject props
        /\ NoDup props.*1
        /\ forall key, key ∈ props.*1 ->
             key ∈ ["id"; "name"; "createdAt"; "stats"; "preferences"])
  /\ exists text,
       JSON.stringify user = Normal (Some text)
       /\ JSON.parse text = Normal (jsonify user).
Proof.
  intros Huser%safeParse_OK. split_and!.
  - apply safeParse_OK. by eapply (_parse_idempotent _ wf_UserProfileSchema).
  - pose proof Huser as (props & _ & _ & ->)%parse_object_OK.
    eexists. split; [reflexivity |]. split.
    + apply object_pairs_NoDup. by apply (bool_decide_unpack _).
    + intros key Hkey%object_pairs_keys. exact Hkey.
  - pose proof (_parse_serializable _ wf_UserProfileSchema int_UserProfileSchema _ _ _ Huser)
      as Hser.
    destruct (JSONFacts.parse_stringify user Hser) as (text & Htext & _ & Hparse); [| eauto].
    apply parse_object_OK in Huser as (? & _ & _ & ->). done.
Qed.
End validated.

Lemma validated_profile_properties_witness :
  let data := JSObject [("name", JSString "TestUser"); ("theme", JSString "dark");
                        ("id", JSString "123e4567-e89b-12d3-a456-426614174000");
                        ("stats", mockStats); ("createdAt", JSNumber (Int 1700000000000))] in
  let user := JSObject [("id", JSString "123e4567-e89b-12d3-a456-426614174000");
                        ("name", JSString "TestUser");
                        ("createdAt", JSNumber (Int 1700000000000)); ("stats", mockStats)] in
  z.safeParse UserProfileSchema data = SafeParseSuccess user
  /\ z.safeParse UserProfileSchema user = SafeParseSuccess user.
Proof.
  intros data user.
  assert (Hdata : z.safeParse UserProfileSchema data = SafeParseSuccess user) by reflexivity.
  split; [exact Hdata |].
  by destruct (validated_profile_properties data user Hdata) as [Hagain _].
Defined.





(** ** JSON: parse after stringify with a gap *)

Module GapFacts.
Import JSON JSONGap.

Lemma skip_ws_blank ws s : blank ws -> skip_ws (ws ++ s) = skip_ws s.
Proof. induction 1 as [| c ws Hc _ IH]; simpl; [done |]. by rewrite Hc. Qed.

Lemma skip_ws_start c r : is_ws c = false -> skip_ws (c :: r) = c :: r.
Proof. intros Hc. simpl. by rewrite Hc. Qed.

Lemma blank_app ws ws' : blank ws -> blank ws' -> blank (ws ++ ws').
Proof. apply Forall_app_2. Qed.

Lemma blank_replicate n : blank (replicate n " "%char).
Proof. induction n; simpl; by constructor. Qed.

Lemma parse_value_blank fuel ws s :
  blank ws -> parse_value fuel (ws ++ s) = parse_value fuel s.
Proof.
  intros Hws. destruct fuel as [| fuel]; [done |].
  rewrite !FuelFacts.parse_value_unfold. by rewrite skip_ws_blank.
Qed.

Lemma parse_elements_blank fuel ws s :
  blank ws -> parse_elements fuel (ws ++ s) = parse_elements fuel s.
Proof.
  intros Hws. destruct fuel as [| fuel]; [done |].
  rewrite !FuelFacts.parse_elements_unfold. by rewrite parse_value_blank.
Qed.

Lemma parse_members_blank fuel ws s :
  blank ws -> parse_members fuel (ws ++ s) = parse_members fuel s.
Proof.
  intros Hws. destruct fuel as [| fuel]; [done |].
  rewrite !FuelFacts.parse_members_unfold. by rewrite skip_ws_blank.
Qed.

(** *** Numbers, strings and literals *)

Lemma follows_not_digit rest : follows rest -> next_not_digit rest.
Proof. destruct rest as [| c rest]; [done |]. by intros [-> | ->]. Qed.

Lemma read_magnitude_uint_follows neg n rest :
  follows rest ->
  read_magnitude neg (uint_chars (N.to_uint n) ++ rest)
  = Some (Int (if neg then - Z.of_N n else Z.of_N n), rest).
Proof.
  intros Hrest. unfold read_magnitude.
  rewrite JSONFacts.read_digits_uint_chars by by apply follows_not_digit.
  destruct (JSONFacts.to_uint_normal n) as [Hnil Hzero].
  destruct (N.to_uint n) eqn:Hn; try done; rewrite Hzero.
  all: assert (Hfrac : read_fraction rest = Some (Nil, rest))
         by (destruct rest as [| c rest]; [done |];
             by destruct Hrest as [-> | ->]).
  all: assert (Hexp : read_exponent rest = Some (0, rest))
         by (destruct rest as [| c rest]; [done |];
             by destruct Hrest as [-> | ->]).
  all: rewrite Hfrac; cbn [mbind option_bind]; rewrite Hexp; cbn [mbind option_bind].
  all: rewrite DecimalFacts.app_nil_r, <- Hn; unfold make_number.
  all: rewrite DecimalN.Unsigned.of_to; simpl.
  all: change (10 ^ (- (Z.of_nat 0 - 0))) with 1; by rewrite Z.mul_1_r.
Qed.

Lemma read_number_int_follows z rest :
  follows rest ->
  read_number (number_chars (Int z) ++ rest) = Some (Int z, rest).
Proof.
  intros Hrest. unfold number_chars, sign_chars.
  destruct (Z.ltb_spec z 0) as [Hneg | Hpos].
  - simpl. rewrite read_magnitude_uint_follows by done. f_equal. f_equal. f_equal. lia.
  - simpl.
    destruct (JSONFacts.uint_chars_start (N.to_uint (Z.abs_N z))) as (c & r & Hc & _ & Hminus).
    { apply JSONFacts.to_uint_normal. }
    pose proof (read_magnitude_uint_follows false (Z.abs_N z) rest Hrest) as Hread.
    rewrite Hc in Hread |- *. simpl in Hread |- *.
    rewrite Hminus, Hread. f_equal. f_equal. f_equal. lia.
Qed.

Lemma reads_back_indented_int z : reads_back_indented (number_chars (Int z)) (JSNumber (Int z)).
Proof.
  destruct (JSONFacts.number_chars_dispatch z) as (c & r & Hc & Hstart & Hdispatch).
  split; [eauto |]. intros [| fuel] rest Hfuel Hrest; [lia |].
  pose proof (read_number_int_follows z rest Hrest) as Hread.
  rewrite Hc in Hread |- *. simpl app in *. by rewrite Hdispatch, Hread.
Qed.

(** A text that reads back whatever follows it. *)
Lemma reads_back_indented_any text v :
  (exists c r, text = c :: r /\ value_start c = true) ->
  (forall fuel rest, (length text < fuel)%nat ->
     parse_value fuel (text ++ rest) = Some (v, rest)) ->
  reads_back_indented text v.
Proof. intros Hstart Hread. split; [done |]. intros fuel rest Hfuel _. by apply Hread. Qed.

Lemma reads_back_indented_literals :
  reads_back_indented (list_ascii_of_string "null") JSNull
  /\ reads_back_indented (list_ascii_of_string "true") (JSBoolean true)
  /\ reads_back_indented (list_ascii_of_string "false") (JSBoolean false).
Proof.
  split_and!; (split; [eexists _, _; split; reflexivity |]);
    intros [| fuel] rest Hfuel _; simpl in Hfuel; try lia; reflexivity.
Qed.

Lemma reads_back_indented_string s : reads_back_indented (quote s) (JSString s).
Proof.
  destruct (JSONFacts.reads_back_string s) as [Hstart _]. split; [done |].
  intros [| fuel] rest Hfuel _; [lia |].
  destruct (JSONFacts.quote_read s rest) as (body & -> & Hbody).
  rewrite JSONFacts.parse_value_string, Hbody. cbn. by rewrite string_of_list_ascii_of_string.
Qed.

(** *** Arrays *)

Local Arguments join_with : simpl never.
Local Arguments quote : simpl never.
Local Arguments parse_value : simpl never.
Local Arguments parse_elements : simpl never.
Local Arguments parse_members : simpl never.

Lemma join_with_cons2 sep x y l :
  join_with sep (x :: y :: l) = x ++ sep ++ join_with sep (y :: l).
Proof. reflexivity. Qed.

Lemma blank_line ws : blank ws -> blank ("010"%char :: ws).
Proof. by constructor. Qed.

Lemma skip_ws_line ws s : blank ws -> skip_ws ("010"%char :: ws ++ s) = skip_ws s.
Proof. intros Hws. by rewrite app_comm_cons, skip_ws_blank by by apply blank_line. Qed.

Lemma parse_elements_line fuel ws s :
  blank ws -> parse_elements fuel ("010"%char :: ws ++ s) = parse_elements fuel s.
Proof. intros Hws. by rewrite app_comm_cons, parse_elements_blank by by apply blank_line. Qed.

Lemma parse_members_line fuel ws s :
  blank ws -> parse_members fuel ("010"%char :: ws ++ s) = parse_members fuel s.
Proof. intros Hws. by rewrite app_comm_cons, parse_members_blank by by apply blank_line. Qed.

Lemma parse_value_array_blank fuel ws c r :
  blank ws -> is_ws c = false -> Ascii.eqb c "]" = false ->
  parse_value (S fuel) ("["%char :: ws ++ c :: r)
  = '(vs, r') ← parse_elements fuel (c :: r); Some (JSArray vs, r').
Proof.
  intros Hws Hc Hclose. rewrite FuelFacts.parse_value_unfold.
  rewrite (skip_ws_start "[") by done. cbn [Ascii.eqb Bool.eqb].
  by rewrite skip_ws_blank, skip_ws_start, Hclose.
Qed.

Lemma parse_elements_lines indent stepback items vs :
  blank indent -> blank stepback ->
  Forall2 reads_back_indented items vs -> items <> [] ->
  forall fuel rest,
    (length (join_with (","%char :: "010"%char :: indent) items) + 1 < fuel)%nat ->
    parse_elements fuel
      (join_with (","%char :: "010"%char :: indent) items
       ++ "010"%char :: stepback ++ "]"%char :: rest)
    = Some (vs, rest).
Proof.
  intros Hindent Hstepback.
  induction 1 as [| item v items vs [_ Hitem] Hitems IH]; [done |]. intros _.
  intros [| fuel] rest Hfuel; [lia |]. rewrite JSONFacts.parse_elements_eq.
  destruct items as [| item' items].
  - apply Forall2_nil_inv_l in Hitems as ->. unfold join_with in Hfuel |- *.
    rewrite Hitem; [| lia | by right]. cbn [mbind option_bind].
    by rewrite skip_ws_line, skip_ws_start.
  - rewrite join_with_cons2 in Hfuel |- *. rewrite !length_app in Hfuel. simpl in Hfuel.
    rewrite <- !app_assoc. simpl app.
    rewrite Hitem; [| lia | by left]. cbn [mbind option_bind].
    rewrite skip_ws_start by done. cbn [Ascii.eqb Bool.eqb].
    rewrite parse_elements_line by done.
    rewrite IH; [reflexivity | done | lia].
Qed.

Lemma join_with_start {B} (R : list ascii -> B -> Prop) sep items vs :
  Forall2 R items vs -> items <> [] ->
  (forall item v, R item v -> exists c r, item = c :: r /\ value_start c = true) ->
  exists c r, join_with sep items = c :: r /\ value_start c = true.
Proof.
  intros [| item v items' vs' Hitem Hitems] Hne Hstart; [done |].
  destruct (Hstart _ _ Hitem) as (c & r & -> & Hc).
  destruct items'; unfold join_with; simpl; eauto.
Qed.

Lemma reads_back_indented_array stepback indent items vs :
  blank stepback -> blank indent ->
  Forall2 reads_back_indented items vs ->
  reads_back_indented (wrap "[" "]" stepback indent items) (JSArray vs).
Proof.
  intros Hstepback Hindent Hitems.
  split; [destruct items; eexists _, _; split; reflexivity |].
  intros [| fuel] rest Hfuel _; [lia |].
  destruct (decide (items = [])) as [-> | Hne].
  { apply Forall2_nil_inv_l in Hitems as ->. reflexivity. }
  assert (Hwrap : wrap "[" "]" stepback indent items
            = "["%char :: ("010"%char :: indent)
              ++ join_with (","%char :: "010"%char :: indent) items
              ++ "010"%char :: stepback ++ ["]"%char]).
  { by destruct items. }
  destruct (join_with_start reads_back_indented (","%char :: "010"%char :: indent)
              items vs Hitems Hne) as (c & r & Hc & Hstart).
  { by intros item v [? _]. }
  pose proof (parse_elements_lines indent stepback items vs Hindent Hstepback Hitems Hne
                fuel rest) as Hparse.
  assert (Htext : wrap "[" "]" stepback indent items ++ rest
            = "["%char :: ("010"%char :: indent)
              ++ c :: r ++ "010"%char :: stepback ++ "]"%char :: rest).
  { rewrite Hwrap, Hc. simpl. repeat (rewrite <- app_assoc; simpl). reflexivity. }
  rewrite Hwrap in Hfuel. simpl in Hfuel. rewrite !length_app in Hfuel. simpl in Hfuel.
  rewrite length_app in Hfuel. simpl in Hfuel.
  rewrite Hc in Hparse. simpl in Hparse.
  apply JSONFacts.value_start_spec in Hstart as (Hws & Hclose & _).
  rewrite Htext, parse_value_array_blank by (done || by apply blank_line).
  rewrite Hparse; [done |]. rewrite Hc in Hfuel. simpl in Hfuel. lia.
Qed.

(** *** Objects *)

Lemma parse_value_space fuel s : parse_value fuel (" "%char :: s) = parse_value fuel s.
Proof. apply (parse_value_blank fuel [" "%char]). by repeat constructor. Qed.

Lemma parse_members_lines indent stepback items ms :
  blank indent -> blank stepback ->
  Forall2 member_reads_back_indented items ms -> items <> [] ->
  forall fuel rest,
    (length (join_with (","%char :: "010"%char :: indent) items) + 1 < fuel)%nat ->
    parse_members fuel
      (join_with (","%char :: "010"%char :: indent) items
       ++ "010"%char :: stepback ++ "}"%char :: rest)
    = Some (ms, rest).
Proof.
  intros Hindent Hstepback.
  induction 1 as [| item [k v] items ms (t & -> & _ & Hitem) Hitems IH]; [done |]. intros _.
  intros [| fuel] rest Hfuel; [lia |]. simpl fst in *. simpl snd in *.
  pose proof (JSONFacts.quote_length k) as Hk.
  destruct items as [| item' items].
  - apply Forall2_nil_inv_l in Hitems as ->.
    unfold join_with in *. rewrite length_app in Hfuel. simpl in Hfuel.
    rewrite <- app_assoc.
    destruct (JSONFacts.quote_read k
                ((":"%char :: " "%char :: t) ++ "010"%char :: stepback ++ "}"%char :: rest))
      as (body & -> & Hbody).
    rewrite JSONFacts.parse_members_eq, Hbody. cbn [mbind option_bind].
    rewrite <- !app_comm_cons, skip_ws_start by done. cbn [Ascii.eqb Bool.eqb].
    rewrite parse_value_space.
    rewrite Hitem; [| lia | by right]. cbn [mbind option_bind].
    rewrite skip_ws_line, skip_ws_start by done. cbn [Ascii.eqb Bool.eqb].
    by rewrite string_of_list_ascii_of_string.
  - rewrite join_with_cons2 in Hfuel |- *. rewrite !length_app in Hfuel. simpl in Hfuel.
    rewrite length_app in Hfuel. simpl in Hfuel.
    rewrite <- !app_assoc.
    destruct (JSONFacts.quote_read k
                ((":"%char :: " "%char :: t)
                 ++ (","%char :: "010"%char :: indent)
                 ++ join_with (","%char :: "010"%char :: indent) (item' :: items)
                 ++ "010"%char :: stepback ++ "}"%char :: rest))
      as (body & -> & Hbody).
    rewrite JSONFacts.parse_members_eq, Hbody. cbn [mbind option_bind].
    rewrite <- !app_comm_cons, skip_ws_start by done. cbn [Ascii.eqb Bool.eqb].
    rewrite parse_value_space.
    rewrite Hitem; [| lia | by left]. cbn [mbind option_bind].
    rewrite skip_ws_start by done. cbn [Ascii.eqb Bool.eqb].
    rewrite parse_members_line by done.
    rewrite IH; [| done | lia]. cbn [mbind option_bind].
    by rewrite string_of_list_ascii_of_string.
Qed.

Lemma reads_back_indented_object stepback indent items ms :
  blank stepback -> blank indent ->
  Forall2 member_reads_back_indented items ms -> NoDup ms.*1 ->
  reads_back_indented (wrap "{" "}" stepback indent items) (JSObject ms).
Proof.
  intros Hstepback Hindent Hitems Hnodup.
  split; [destruct items; eexists _, _; split; reflexivity |].
  intros [| fuel] rest Hfuel _; [lia |].
  destruct items as [| item items].
  { apply Forall2_nil_inv_l in Hitems as ->. reflexivity. }
  pose proof (parse_members_lines indent stepback _ _ Hindent Hstepback Hitems ltac:(done)
                fuel rest) as Hparse.
  assert (Hq : exists body,
            join_with (","%char :: "010"%char :: indent) (item :: items)
            = "034"%char :: body).
  { apply Forall2_cons_inv_l in Hitems as ([k v] & ms' & (t & -> & _) & _ & _).
    unfold quote. destruct items; unfold join_with; simpl; eauto. }
  destruct Hq as [body Hbody].
  assert (Htext : wrap "{" "}" stepback indent (item :: items) ++ rest
            = "{"%char :: ("010"%char :: indent)
              ++ "034"%char :: body ++ "010"%char :: stepback ++ "}"%char :: rest).
  { unfold wrap. rewrite Hbody. simpl. repeat (rewrite <- app_assoc; simpl). reflexivity. }
  unfold wrap in Hfuel. simpl in Hfuel. rewrite !length_app in Hfuel. simpl in Hfuel.
  rewrite length_app in Hfuel. simpl in Hfuel.
  rewrite Hbody in Hparse, Hfuel. simpl in Hparse, Hfuel.
  rewrite Htext, FuelFacts.parse_value_unfold.
  rewrite (skip_ws_start "{") by done. cbn [Ascii.eqb Bool.eqb].
  rewrite (skip_ws_blank ("010"%char :: indent)) by by apply blank_line.
  rewrite skip_ws_start by done. cbn [Ascii.eqb Bool.eqb].
  rewrite Hparse by lia. cbn [mbind option_bind].
  by rewrite JSONFacts.object_of_members.
Qed.

(** *** [JSON.parse] after [JSON.stringify] with a gap *)

Lemma serialize_reads_back_indented gap v :
  blank gap -> serializable v ->
  forall indent, blank indent ->
  exists o, serialize gap v indent = Normal o
    /\ (o = None <-> v = JSUndefined)
    /\ reads_back_indented (default (list_ascii_of_string "null") o) (jsonify v).
Proof.
  intros Hgap.
  induction v as [| | b | n | z | s | elements IH | props IH] using JSValue_ind';
    intros Hser indent Hindent.
  - exists None. split_and!; [done | done | apply reads_back_indented_literals].
  - eexists (Some _). split_and!; [done | done | apply reads_back_indented_literals].
  - destruct b; eexists (Some _); (split_and!; [done | done | apply reads_back_indented_literals]).
  - destruct n as [z | c k]; [| discriminate Hser].
    eexists (Some _). split_and!; [done | done | apply reads_back_indented_int].
  - destruct Hser.
  - eexists (Some _). split_and!; [done | done | apply reads_back_indented_string].
  - assert (Hitems : exists items,
              serialize_elements (fun e => serialize gap e (indent ++ gap)) elements
              = Normal items
              /\ Forall2 reads_back_indented items (map jsonify elements)).
    { induction IH as [| v vs IHv _ IHvs]; [by exists [] |].
      destruct Hser as [Hv Hvs].
      destruct (IHv Hv (indent ++ gap)) as (o & Ho & _ & Hback); [by apply blank_app |].
      destruct (IHvs Hvs) as (items & Hitems & Hbacks).
      eexists (_ :: items). cbn [serialize_elements]. rewrite Ho. cbn.
      fold (serialize_elements (fun e => serialize gap e (indent ++ gap)) vs).
      rewrite Hitems. cbn. split; [reflexivity |]. by constructor. }
    destruct Hitems as (items & Hitems & Hback).
    eexists (Some _). cbn [serialize]. rewrite Hitems. cbn.
    split_and!; [done | done |]. apply reads_back_indented_array; [done | by apply blank_app | done].
  - destruct Hser as [Hnodup Hser].
    assert (Hitems : exists items,
              JSONGap.serialize_members (fun e => serialize gap e (indent ++ gap)) props
              = Normal items
              /\ Forall2 member_reads_back_indented items (jsonify_members jsonify props)).
    { clear Hnodup. induction IH as [| [k v] ps IHv _ IHps]; [by exists [] |].
      destruct Hser as [Hv Hps]. simpl in IHv.
      destruct (IHv Hv (indent ++ gap)) as (o & Ho & Hnone & Hback); [by apply blank_app |].
      destruct (IHps Hps) as (items & Hitems & Hbacks).
      cbn [JSONGap.serialize_members]. rewrite Ho. cbn.
      fold (JSONGap.serialize_members (fun e => serialize gap e (indent ++ gap)) ps).
      rewrite Hitems. cbn.
      destruct o as [t |].
      - eexists (_ :: items). split; [reflexivity |].
        assert (v <> JSUndefined) by (intros ->; by destruct Hnone as [_ Hnone]).
        destruct v; try done; constructor; try done; by exists t.
      - destruct Hnone as [Hnone _]. rewrite (Hnone eq_refl). by exists items. }
    destruct Hitems as (items & Hitems & Hback).
    eexists (Some _). cbn [serialize]. rewrite Hitems. cbn.
    split_and!; [done | done |].
    apply reads_back_indented_object; [done | by apply blank_app | done |].
    by apply JSONFacts.jsonify_members_NoDup.
Qed.

(** [JSON.parse(JSON.stringify(v, null, space))] for a serializable [v]. *)
Lemma parse_stringify_indented v space :
  serializable v -> v <> JSUndefined ->
  exists text, JSONGap.stringify v space = Normal (Some text)
    /\ JSON.parse text = Normal (jsonify v).
Proof.
  intros Hser Hdef. unfold JSONGap.stringify.
  pose proof (blank_replicate (Nat.min 10 space)) as Hgap.
  destruct (replicate (Nat.min 10 space) " "%char) as [| c gap] eqn:Hreplicate.
  { destruct (JSONFacts.parse_stringify v Hser Hdef) as (text & ? & _ & ?). eauto. }
  destruct (serialize_reads_back_indented _ v Hgap Hser [] ltac:(constructor))
    as (o & Ho & Hnone & Hstart & Hback).
  destruct o as [chars |]; [| by destruct Hnone as [Hnone _]; destruct Hdef; auto].
  simpl in Hstart, Hback. rewrite Ho.
  exists (string_of_list_ascii chars). split; [reflexivity |].
  unfold JSON.parse. rewrite list_ascii_of_string_of_list_ascii.
  rewrite <- (app_nil_r chars) at 2. rewrite Hback; [reflexivity | lia | done].
Qed.
End GapFacts.

(** The text of a small value, line by line. *)
Example stringify_indented_text :
  JSONGap.stringify (JSObject [("a", JSArray [JSNumber (Int 1); JSUndefined]);
                               ("b", JSObject []); ("c", JSUndefined)]) 2
  = Normal (Some (string_of_list_ascii
      (list_ascii_of_string "{" ++ ["010"%char] ++
       list_ascii_of_string "  " ++ JSON.quote "a" ++ list_ascii_of_string ": [" ++ ["010"%char] ++
       list_ascii_of_string "    1," ++ ["010"%char] ++
       list_ascii_of_string "    null" ++ ["010"%char] ++
       list_ascii_of_string "  ]," ++ ["010"%char] ++
       list_ascii_of_string "  " ++ JSON.quote "b" ++ list_ascii_of_string ": {}" ++ ["010"%char] ++
       list_ascii_of_string "}"))).
Proof. reflexivity. Qed.


(** ** Download *)

Section download_facts.
Context {Σ : Type} `{Storage Σ}.

Lemma handleDownloadBackup_run browser (w : World Σ) :
  handleDownloadBackup browser w
  = match exportBackup w with
    | (Normal backup, w1) =>
        match JSONGap.stringify backup 2 with
        | Normal json =>
            match browser backup (ToString_undefined json) w1 with
            | (Normal _, w2) => (Normal "Backup downloaded successfully!", w2)
            | (Throw _, w2) => (Normal "Failed to download backup", w2)
            end
        | Throw _ => (Normal "Failed to download backup", w1)
        end
    | (Throw _, w1) => (Normal "Failed to download backup", w1)
    end.
Proof.
  unfold handleDownloadBackup, downloadBackup, try_catch. rewrite !run_bind.
  destruct (exportBackup w) as [[backup | e] w1]; [| done].
  rewrite run_bind. unfold lift.
  destruct (JSONGap.stringify backup 2) as [json | e]; [| done].
  by destruct (browser backup (ToString_undefined json) w1) as [[[] | e] w2].
Qed.

Lemma exportBackup_throws e (w w' : World Σ) : exportBackup w = (Throw e, w') -> w' = w.
Proof.
  unfold exportBackup. rewrite run_bind. unfold localStorage_getItem at 1.
  destruct (getItem _ _) as [[[| c userJson] |] | e']; try discriminate;
    [| by intros [= _ <-]].
  rewrite run_bind. unfold lift at 1.
  destruct (JSON.parse _); [discriminate | by intros [= _ <-]].
Qed.

(** X22: [handleDownloadBackup] never throws, whatever the browser's part
    does: it shows one of its two messages. When [exportBackup] throws,
    as it does on a stored text that is not JSON, the failure message is
    shown and neither the storage nor the console is touched. *)
Theorem handleDownloadBackup_catches browser (w : World Σ) :
  exists message,
    (handleDownloadBackup browser w).1 = Normal message
    /\ (message = "Backup downloaded successfully!" \/ message = "Failed to download backup")
    /\ (forall e, (exportBackup w).1 = Throw e ->
          handleDownloadBackup browser w = (Normal "Failed to download backup", w)).
Proof.
  rewrite handleDownloadBackup_run.
  destruct (exportBackup w) as [[backup | e] w1] eqn:Hexport; cbn [fst].
  - destruct (JSONGap.stringify backup 2) as [json | e].
    + destruct (browser backup (ToString_undefined json) w1) as [[[] | e] w2];
        eexists; (split; [reflexivity |]); split; auto; intros e'; discriminate.
    + eexists. split; [reflexivity |]. split; auto. intros e'; discriminate.
  - apply exportBackup_throws in Hexport as ->.
    eexists. split; [reflexivity |]. split; auto.
Qed.
End download_facts.

Section backup_cycle.
Context `{ZodFormats}.

(** X23: a backup that is downloaded from the running application restores
    its profile. After [App] has started on a key-value storage,
    [downloadBackup] hands the browser a text which, chosen as the backup
    file on any key-value storage and confirmed, ends in a reload after
    which [App] has the [savedUser] of the first storage. *)
Theorem downloaded_backup_restores tag (w0 w2 : World LocalStorageMock) :
  exists savedUser backup json,
    (App w0).1 = Normal savedUser
    /\ exportBackup (App w0).2 = (Normal backup, (App w0).2)
    /\ JSONGap.stringify backup 2 = Normal (Some json)
    /\ (forall browser, downloadBackup browser (App w0).2 = browser backup json (App w0).2)
    /\ (handleFileChange tag (Some (mkFile (Normal json))) true w2).1 = Normal reload
    /\ (App (handleFileChange tag (Some (mkFile (Normal json))) true w2).2).1
       = Normal savedUser.
Proof.
  destruct (App_run w0) as (text & lines & HApp & Htext & Hne & Hparse & Hvalid).
  destruct (loaded_nullable "squaredance-user-profile" UserProfileSchema (localStorage w0)
              wf_UserProfileSchema int_UserProfileSchema) as (_ & Hser & Hjson).
  set (savedUser := loaded _ _ _) in *. clearbody savedUser.
  rewrite HApp. cbn [fst snd]. set (w1 := mkWorld _ _ _).
  set (backup := backup_of "1.0.0" (Int (clock w1)) savedUser).
  assert (Hexport : exportBackup w1 = (Normal backup, w1)).
  { rewrite exportBackup_run. unfold w1 at 1.
    cbn [localStorage store]. rewrite lookup_insert_eq.
    destruct text; [done |]. by rewrite Hparse. }
  assert (Hbackup : serializable backup /\ json_value backup).
  { simpl. split_and!; try done. by apply (bool_decide_unpack _). }
  destruct Hbackup as [Hbser Hbjson].
  destruct (GapFacts.parse_stringify_indented backup 2 Hbser ltac:(done)) as (json & Hjsontext & Hread).
  rewrite (jsonify_json _ Hbjson) in Hread.
  exists savedUser, backup, json. split_and!; try done.
  - intros browser. unfold downloadBackup. rewrite run_bind, Hexport, run_bind.
    unfold lift. by rewrite Hjsontext.
  - by destruct (handleFileChange_valid tag (mkFile (Normal json)) json backup _ w2
                   eq_refl Hread (envelope_valid _ _ _ _ Hvalid))
      as (user & σ & lines' & _ & -> & _).
  - destruct (handleFileChange_valid tag (mkFile (Normal json)) json backup _ w2
                eq_refl Hread (envelope_valid _ _ _ _ Hvalid))
      as (user & σ & lines' & [= <-] & -> & _ & Hloaded).
    cbn [snd].
    destruct (App_run (mkWorld σ (console w2 ++ lines') (clock w2))) as (? & ? & -> & _).
    cbn [fst localStorage]. by rewrite Hloaded.
Qed.
End backup_cycle.

Lemma handleDownloadBackup_catches_witness :
  let w := mock_world [("squaredance-user-profile", "test1")] 0 in
  handleDownloadBackup (fun _ _ => mret tt) w = (Normal "Failed to download backup", w).
Proof.
  intros w.
  destruct (handleDownloadBackup_catches (fun _ _ => mret tt) w) as (message & _ & _ & Hfailed).
  by eapply Hfailed.
Defined.
